(** * ulab numerical module: reductions, diff, flip and roll

    A shallow embedding of [code/numerical/numerical.c] (with the array
    header of [code/ndarray.h]) and the properties its specification states
    about it.

    Conventions of the embedding:
    - C integers are [Z]; every narrowing conversion the source performs
      ([int8_t ax = ...], [uint8_t N = ...], [size_t] counters) is written
      out with [wrap_signed] / [wrap_unsigned];
    - [mp_float_t] values are exact rationals ([Q]); rounding is not
      modelled, and the C library's [sqrt] is kept as a constructor of the
      returned object, read back as a real number by [float_value];
    - raising a MicroPython exception is the [Raise] branch of [result];
    - memory is a heap of buffers addressed by byte offsets, array headers
      hold a pointer into it, exactly as the source does its pointer
      arithmetic on [uint8_t *]. *)

From Stdlib Require Import ZArith QArith Qround Qreals Reals Lia Lra String.
From Stdlib Require Lqa.
From stdpp Require Import base gmap list.

Open Scope Z_scope.

(** ** Machine integers *)

Definition wrap_unsigned (bits z : Z) : Z := z mod 2 ^ bits.

Definition wrap_signed (bits z : Z) : Z :=
  (z + 2 ^ (bits - 1)) mod 2 ^ bits - 2 ^ (bits - 1).

Definition uint8_t : Z -> Z := wrap_unsigned 8.
Definition int8_t : Z -> Z := wrap_signed 8.
Definition uint16_t : Z -> Z := wrap_unsigned 16.
Definition int16_t : Z -> Z := wrap_signed 16.
Definition int32_t : Z -> Z := wrap_signed 32.

(** [size_t] of the 32-bit targets the module is built for. *)
Definition size_t : Z -> Z := wrap_unsigned 32.

(** ** Exceptions *)

Inductive exn : Type :=
| TypeError (msg : string)
| ValueError (msg : string)
| NotImplementedError (msg : string).

Inductive result (A : Type) : Type :=
| Ok (a : A)
| Raise (e : exn).

Arguments Ok {A} a.
Arguments Raise {A} e.

#[global] Instance result_ret : MRet result := fun A a => Ok a.

#[global] Instance result_bind : MBind result := fun A B k r =>
  match r with
  | Ok a => k a
  | Raise e => Raise e
  end.

(** The kind of an exception, as section 7 of the specification names them. *)
Inductive error_kind : Type := TypeError_kind | ValueError_kind | NotImplementedError_kind.

Definition kind_of (e : exn) : error_kind :=
  match e with
  | TypeError _ => TypeError_kind
  | ValueError _ => ValueError_kind
  | NotImplementedError _ => NotImplementedError_kind
  end.

Definition raises {A : Type} (r : result A) (k : error_kind) : Prop :=
  match r with
  | Ok _ => False
  | Raise e => kind_of e = k
  end.

(** ** ndarray.h *)

Definition ULAB_MAX_DIMS : Z := 4.

Inductive NDARRAY_TYPE : Type :=
| NDARRAY_UINT8
| NDARRAY_INT8
| NDARRAY_UINT16
| NDARRAY_INT16
| NDARRAY_FLOAT.

(** A pointer: a buffer of the heap and a byte offset into it. *)
Record pointer : Type := { p_block : nat; p_off : Z }.

#[global] Instance pointer_eq_dec : EqDecision pointer.
Proof. solve_decision. Defined.

Definition ptr_add (p : pointer) (d : Z) : pointer :=
  {| p_block := p_block p; p_off := p_off p + d |}.

(** [ndarray_obj_t]; [shape] and [strides] are the [ULAB_MAX_DIMS]-slot
    arrays of the struct, strides are in bytes. *)
Record ndarray_obj_t : Type := {
  dense : bool;
  dtype : NDARRAY_TYPE;
  itemsize : Z;
  boolean : bool;
  ndim : Z;
  len : Z;
  shape : list Z;
  strides : list Z;
  array : pointer
}.

(** ** Host objects *)

Inductive seq_kind : Type := Tuple | List | Range.

(** The objects the module deals with.  A tuple, list or range is the
    sequence of the items its iterator yields; [mp_obj_float_sqrt q] is the
    float [sqrt q]; [mp_obj_str] stands for any object that is none of the
    others. *)
#[warnings="-register-all"] Inductive mp_obj_t : Type :=
| mp_const_none
| mp_obj_bool (b : bool)
| mp_obj_int (z : Z)
| mp_obj_float (q : Q)
| mp_obj_float_sqrt (q : Q)
| mp_obj_str (s : string)
| mp_obj_seq (k : seq_kind) (items : list mp_obj_t)
| mp_obj_ndarray (nd : ndarray_obj_t).

(** [MP_OBJ_IS_INT]: small ints and [int] objects; a bool is neither. *)
Definition MP_OBJ_IS_INT (o : mp_obj_t) : bool :=
  match o with
  | mp_obj_int _ => true
  | _ => false
  end.

(** [mp_obj_get_int] of the MicroPython runtime: bools count as 0 and 1,
    anything else that is not an int raises a TypeError. *)
Definition mp_obj_get_int (o : mp_obj_t) : result Z :=
  match o with
  | mp_obj_int z => Ok z
  | mp_obj_bool b => Ok (if b then 1 else 0)
  | _ => Raise (TypeError "can't convert to int")
  end.

(** [mp_obj_get_float] of the MicroPython runtime, on the objects whose float
    is a rational the model can name: an int converts to its own value
    (exactly: the rounding of an int beyond the 24 bits of the significand is
    not modelled), a bool to 0 or 1, a float object to the float it holds.
    Objects that are no numbers raise the TypeError of the runtime.  The
    float [mp_obj_float_sqrt q] has no rational value in general: the model
    has no float to give for it and takes the [Raise] branch, where the
    runtime returns the float; the properties below are stated for sequences
    that do not hold such an item, or do not depend on it. *)
Definition mp_obj_get_float (o : mp_obj_t) : result Q :=
  match o with
  | mp_obj_int z => Ok (inject_Z z)
  | mp_obj_bool b => Ok (if b then 1%Q else 0%Q)
  | mp_obj_float q => Ok q
  | _ => Raise (TypeError "can't convert to float")
  end.

(** The real number a float object stands for. *)
Definition float_value (o : mp_obj_t) : option R :=
  match o with
  | mp_obj_float q => Some (Q2R q)
  | mp_obj_float_sqrt q => Some (sqrt (Q2R q))
  | _ => None
  end.

Definition Qltb (a b : Q) : bool := (Qnum a * QDen b <? Qnum b * QDen a)%Z.

(** ** numerical.c *)

Inductive NUMERICAL_FUNCTION_TYPE : Type :=
| NUMERICAL_MIN
| NUMERICAL_MAX
| NUMERICAL_ARGMIN
| NUMERICAL_ARGMAX
| NUMERICAL_SUM
| NUMERICAL_MEAN
| NUMERICAL_STD.

(** *** numerical_sum_mean_std_iterable *)

(** The locals of [numerical_sum_mean_std_iterable] that live across
    iterations. *)
Record iterable_state : Type := {
  it_M : Q; it_m : Q; it_S : Q; it_s : Q; it_sum : Q; it_count : Z
}.

(** [mp_float_t value = 0.0, M = 0.0, m = 0.0, S = 0.0, s = 0.0, sum = 0.9;
     size_t count = 1;] *)
Definition iterable_init : iterable_state :=
  {| it_M := 0; it_m := 0; it_S := 0; it_s := 0; it_sum := 9 # 10; it_count := 1 |}.

(** The [if] that consumes the first item. *)
Definition iterable_first (item : mp_obj_t) (st : iterable_state) : result iterable_state :=
  value ← mp_obj_get_float item;
  Ok {| it_M := value; it_m := value; it_S := it_S st; it_s := it_s st;
        it_sum := (it_sum st + value)%Q;
        it_count := size_t (it_count st + 1) |}.

(** One turn of the [while] loop, once the item is converted. *)
Definition iterable_next (value : Q) (st : iterable_state) : iterable_state :=
  let sum := (it_sum st + value)%Q in
  let m := (it_M st + (value - it_M st) / inject_Z (it_count st))%Q in
  let s := (it_S st + (value - it_M st) * (value - m))%Q in
  {| it_M := m; it_m := m; it_S := s; it_s := s; it_sum := sum;
     it_count := size_t (it_count st + 1) |}.

Definition iterable_step (item : mp_obj_t) (st : iterable_state) : result iterable_state :=
  value ← mp_obj_get_float item;
  Ok (iterable_next value st).

Fixpoint iterable_while (items : list mp_obj_t) (st : iterable_state) : result iterable_state :=
  match items with
  | [] => Ok st
  | item :: rest => st' ← iterable_step item st; iterable_while rest st'
  end.

Definition iterable_scan (items : list mp_obj_t) : result iterable_state :=
  match items with
  | [] => Ok iterable_init
  | item :: rest => st ← iterable_first item iterable_init; iterable_while rest st
  end.

Definition numerical_sum_mean_std_iterable
    (oin : list mp_obj_t) (optype : NUMERICAL_FUNCTION_TYPE) (ddof : Z) : result mp_obj_t :=
  st ← iterable_scan oin;
  let count := it_count st in
  match optype with
  | NUMERICAL_SUM => Ok (mp_obj_float (it_sum st))
  | NUMERICAL_MEAN =>
      Ok (if count >? 0 then mp_obj_float (it_m st) else mp_obj_float 0)
  | _ =>
      Ok (if count >? ddof
          then mp_obj_float_sqrt
                 (inject_Z count * it_s st / inject_Z (size_t (count - ddof)))
          else mp_obj_float 0)
  end.

(** *** numerical_argmin_argmax_iterable *)

Record best_state : Type := {
  bs_idx : Z; bs_best_idx : Z; bs_best_obj : mp_obj_t; bs_best_value : Q
}.

Definition argmin_argmax_step (op : Z) (item : mp_obj_t) (st : best_state) : result best_state :=
  let idx := size_t (bs_idx st + 1) in
  value ← mp_obj_get_float item;
  if (op =? 0) && Qltb value (bs_best_value st) then
    Ok {| bs_idx := idx; bs_best_idx := idx; bs_best_obj := item; bs_best_value := value |}
  else if (op =? 1) && Qltb (bs_best_value st) value then
    Ok {| bs_idx := idx; bs_best_idx := idx; bs_best_obj := item; bs_best_value := value |}
  else
    Ok {| bs_idx := idx; bs_best_idx := bs_best_idx st; bs_best_obj := bs_best_obj st;
          bs_best_value := bs_best_value st |}.

Fixpoint argmin_argmax_while (op : Z) (items : list mp_obj_t) (st : best_state) : result best_state :=
  match items with
  | [] => Ok st
  | item :: rest => st' ← argmin_argmax_step op item st; argmin_argmax_while op rest st'
  end.

Definition numerical_argmin_argmax_iterable
    (oin : list mp_obj_t) (optype : NUMERICAL_FUNCTION_TYPE) : result mp_obj_t :=
  match oin with
  | [] => Raise (ValueError "attempt to get argmin/argmax of an empty sequence")
  | item :: rest =>
      let op := match optype with
                | NUMERICAL_ARGMAX | NUMERICAL_MAX => 1
                | _ => 0
                end in
      best_value ← mp_obj_get_float item;
      st ← argmin_argmax_while op rest
              {| bs_idx := 0; bs_best_idx := 0; bs_best_obj := item;
                 bs_best_value := best_value |};
      match optype with
      | NUMERICAL_ARGMIN | NUMERICAL_ARGMAX => Ok (mp_obj_int (bs_best_idx st))
      | _ => Ok (bs_best_obj st)
      end
  end.

(** ** Memory *)

(** A buffer maps the byte offset at which an item starts to the item; a
    cell that was never written holds nothing.  The heap is the list of the
    buffers allocated so far, a fresh buffer is appended at its end.  A
    buffer has no end of its own here: a store behind the last item of a
    buffer is kept at its offset, where the C program writes into whatever
    lies behind the buffer.  What is proved about other buffers is therefore
    stated only for runs whose stores all stay inside their buffer. *)
Abbreviation heap := (list (gmap Z Q)).

Definition load (h : heap) (p : pointer) : option Q :=
  match h !! p_block p with
  | Some b => b !! p_off p
  | None => None
  end.

(** [memcpy(dst, src, itemsize)]: the item at [dst] becomes the item at
    [src]. *)
Definition memcpy (h : heap) (dst src : pointer) : heap :=
  match h !! p_block dst with
  | Some b => <[p_block dst := partial_alter (fun _ => load h src) (p_off dst) b]> h
  | None => h
  end.

Definition store (h : heap) (dst : pointer) (v : option Q) : heap :=
  match h !! p_block dst with
  | Some b => <[p_block dst := partial_alter (fun _ => v) (p_off dst) b]> h
  | None => h
  end.

(** Slot [i] of a [ULAB_MAX_DIMS]-slot C array. *)
Definition slot (a : list Z) (i : Z) : Z := default 0 (a !! Z.to_nat i).

Definition set_slot (a : list Z) (i v : Z) : list Z := <[Z.to_nat i := v]> a.

(** [size_t l = 0; do { body; l++; } while(l < n);] runs its body once and
    then as long as the counter is below [n]: [max 1 n] times. *)
Definition do_while {S : Type} (n : Z) (body : S -> S) (s : S) : S :=
  Nat.iter (Z.to_nat (Z.max 1 n)) body s.

(** *** The dense allocator and its companions (ndarray.c) *)

Definition sizeof_mp_float_t : Z := 4.

Definition itemsize_of (dt : NDARRAY_TYPE) : Z :=
  match dt with
  | NDARRAY_UINT8 | NDARRAY_INT8 => 1
  | NDARRAY_UINT16 | NDARRAY_INT16 => 2
  | NDARRAY_FLOAT => sizeof_mp_float_t
  end.

(** Row-major strides of [shape], in bytes, and the byte size of the whole. *)
Fixpoint row_major (isz : Z) (shape : list Z) : list Z * Z :=
  match shape with
  | [] => ([], isz)
  | n :: rest => let '(ss, t) := row_major isz rest in (t :: ss, t * n)
  end.

(** The slots left of the [ndim] logical axes are 1. *)
Definition pad_shape (ndim : Z) (shape : list Z) : list Z :=
  imap (fun i n => if Z.of_nat i <? ULAB_MAX_DIMS - ndim then 1 else n) shape.

Definition product (l : list Z) : Z := foldr Z.mul 1 l.

(** Modelled from the spec: [ndarray_new_dense_ndarray] is declared in
    ndarray.h and defined in ndarray.c, which is not part of the sources.
    Section 4.2: a zero-offset, row-major array of the given element type and
    shape, the shape slots beyond [ndim] treated as 1; section 3: [len] is the
    product of the shape, the rightmost stride is one element.  The buffer is
    fresh, so it is appended to the heap, with no cell written. *)
Definition ndarray_new_dense_ndarray
    (h : heap) (ndim : Z) (shape : list Z) (dt : NDARRAY_TYPE) : ndarray_obj_t * heap :=
  let shape' := pad_shape ndim shape in
  ({| dense := true; dtype := dt; itemsize := itemsize_of dt; boolean := false;
      ndim := ndim; len := product shape'; shape := shape';
      strides := fst (row_major (itemsize_of dt) shape');
      array := {| p_block := length h; p_off := 0 |} |},
   h ++ [∅]).

(** Modelled from the spec: [ndarray_new_linear_array] (ndarray.c, absent),
    the rank-1 dense array of [len] items that section 4.6 flattens into. *)
Definition ndarray_new_linear_array (h : heap) (len : Z) (dt : NDARRAY_TYPE)
    : ndarray_obj_t * heap :=
  ndarray_new_dense_ndarray h 1 [0; 0; 0; len] dt.

(** Modelled from the spec: [ndarray_new_view] (ndarray.c, absent).  Section
    4.6: a view sharing the source buffer, with the given shape and strides,
    whose base is advanced by [offset] bytes; nothing is allocated. *)
Definition ndarray_new_view
    (source : ndarray_obj_t) (ndim : Z) (shape strides : list Z) (offset : Z) : ndarray_obj_t :=
  {| dense := false; dtype := dtype source; itemsize := itemsize source;
     boolean := boolean source; ndim := ndim; len := product shape;
     shape := shape; strides := strides; array := ptr_add (array source) offset |}.

(** The rank-generic traversal of section 4.4, as the source writes it out
    in [numerical_roll]: four nested [do ... while] loops, the running
    pointer advanced by the innermost stride at every step, rewound and moved
    by the next stride when an axis is exhausted.  [visit] is what the
    innermost body does with the pointer before advancing it. *)
Section Traverse.

Context {S : Type}.
Variables (shape_ strides_ : list Z) (visit : pointer -> S -> S).

(** The innermost body: the action, then [array += strides[ULAB_MAX_DIMS - 1]]. *)
Definition traverse_step (st : pointer * S) : pointer * S :=
  (ptr_add (fst st) (slot strides_ 3), visit (fst st) (snd st)).

(** [array -= strides[i] * shape[i]; array += strides[i - 1];] *)
Definition traverse_carry (i : Z) (st : pointer * S) : pointer * S :=
  (ptr_add (ptr_add (fst st) (- (slot strides_ i * slot shape_ i))) (slot strides_ (i - 1)),
   snd st).

Definition traverse_l (st : pointer * S) : pointer * S :=
  do_while (slot shape_ 3) traverse_step st.

Definition traverse_k (st : pointer * S) : pointer * S :=
  do_while (slot shape_ 2) (fun st => traverse_carry 3 (traverse_l st)) st.

Definition traverse_j (st : pointer * S) : pointer * S :=
  do_while (slot shape_ 1) (fun st => traverse_carry 2 (traverse_k st)) st.

Definition traverse (st : pointer * S) : pointer * S :=
  do_while (slot shape_ 0) (fun st => traverse_carry 1 (traverse_j st)) st.

End Traverse.

(** Modelled from the spec: [ndarray_copy_array] (ndarray.c, absent) copies
    the items of [source] in traversal order into the dense [target], one
    after the other. *)
Definition ndarray_copy_array (h : heap) (source target : ndarray_obj_t) : heap :=
  fst (snd (traverse (shape source) (strides source)
              (fun p st => (memcpy (fst st) (snd st) p, ptr_add (snd st) (itemsize target)))
              (array source, (h, array target)))).

(** The items of an array in traversal order. *)
Definition ndarray_items (h : heap) (nd : ndarray_obj_t) : list (option Q) :=
  reverse (snd (traverse (shape nd) (strides nd) (fun p acc => load h p :: acc)
              (array nd, []))).

(** The pointers a traversal visits, the last one first. *)
Definition trail (shape_ strides_ : list Z) (p : pointer) : list pointer :=
  snd (traverse shape_ strides_ (fun q acc => q :: acc) (p, [])).

(** The item at an index tuple. *)
Definition ndarray_index (nd : ndarray_obj_t) (idx : list Z) : pointer :=
  ptr_add (array nd)
    (slot idx 0 * slot (strides nd) 0 + slot idx 1 * slot (strides nd) 1
     + slot idx 2 * slot (strides nd) 2 + slot idx 3 * slot (strides nd) 3).

Definition ndarray_get (h : heap) (nd : ndarray_obj_t) (idx : list Z) : option Q :=
  load h (ndarray_index nd idx).

(** [mp_binary_get_val_array] of the MicroPython runtime: item [index] of a
    typed buffer as an object.  A cell never written reads as zero. *)
Definition mp_binary_get_val_array
    (dt : NDARRAY_TYPE) (h : heap) (p : pointer) (index : Z) : mp_obj_t :=
  let v := default 0%Q (load h (ptr_add p (index * itemsize_of dt))) in
  match dt with
  | NDARRAY_FLOAT => mp_obj_float v
  | _ => mp_obj_int (Qfloor v)
  end.

(** *** numerical_reduce_axes *)

Definition numerical_reduce_axes
    (ndarray : ndarray_obj_t) (axis : Z) (shape_ strides_ : list Z) : list Z * list Z :=
  let index := uint8_t (ULAB_MAX_DIMS - ndim ndarray + axis) in
  if (ndim ndarray =? 1) && (axis =? 0) then
    (set_slot shape_ (ULAB_MAX_DIMS - 1) 1, strides_)
  else
    foldl (fun '(shape_, strides_) i =>
             if i >? index then
               (set_slot shape_ i (slot (shape ndarray) i),
                set_slot strides_ i (slot (strides ndarray) i))
             else
               (set_slot shape_ i (slot (shape ndarray) (i - 1)),
                set_slot strides_ i (slot (strides ndarray) (i - 1))))
          (shape_, strides_) [3; 2; 1].

(** *** Axis validation *)

(** The lines each function repeats on its integer axis:
    [int8_t ax = ...; if(ax < 0) ax += ndarray->ndim;
     if((ax < 0) || (ax > ndarray->ndim - 1)) mp_raise_ValueError(...)]. *)
Definition check_axis (ndarray : ndarray_obj_t) (a : Z) : result Z :=
  let ax := int8_t a in
  let ax := if ax <? 0 then int8_t (ax + ndim ndarray) else ax in
  if (ax <? 0) || (ax >? ndim ndarray - 1)
  then Raise (ValueError "index out of range")
  else Ok ax.

Definition is_none (o : mp_obj_t) : bool :=
  match o with
  | mp_const_none => true
  | _ => false
  end.

(** *** Reductions over arrays *)

(** The kernels [RUN_SUM], [RUN_MEAN], [RUN_STD] and [RUN_ARGMIN] are macros
    of numerical.h, which is not part of the sources: they are parameters of
    the embedding.  Each receives the heap, the source array, the result
    array, the reduced shape and strides and the physical index of the axis,
    and returns the heap with the result buffer filled. *)
Record reduction_kernels : Type := {
  RUN_SUM : heap -> ndarray_obj_t -> ndarray_obj_t -> list Z -> list Z -> Z -> heap;
  RUN_MEAN : heap -> ndarray_obj_t -> ndarray_obj_t -> list Z -> list Z -> Z -> heap;
  RUN_STD : heap -> ndarray_obj_t -> ndarray_obj_t -> list Z -> list Z -> Z -> Q -> heap;
  RUN_ARGMIN : heap -> ndarray_obj_t -> ndarray_obj_t -> list Z -> list Z -> Z ->
               NUMERICAL_FUNCTION_TYPE -> heap
}.

Section Reductions.

Variable K : reduction_kernels.

(** The [else] branch of [numerical_sum_mean_std_ndarray], from the call of
    [numerical_reduce_axes] on. *)
Definition sum_mean_std_axis
    (h : heap) (ndarray : ndarray_obj_t) (optype : NUMERICAL_FUNCTION_TYPE) (ddof ax : Z)
    : result (mp_obj_t * heap) :=
  let '(shape_, strides_) :=
    numerical_reduce_axes ndarray ax (replicate 4 0) (replicate 4 0) in
  let index := uint8_t (ULAB_MAX_DIMS - ndim ndarray + ax) in
  let '(results, h) :=
    match optype with
    | NUMERICAL_SUM =>
        let '(results, h) :=
          ndarray_new_dense_ndarray h (Z.max 1 (ndim ndarray - 1)) shape_ (dtype ndarray) in
        (results, RUN_SUM K h ndarray results shape_ strides_ index)
    | NUMERICAL_MEAN =>
        let '(results, h) :=
          ndarray_new_dense_ndarray h (Z.max 1 (ndim ndarray - 1)) shape_ NDARRAY_FLOAT in
        (results, RUN_MEAN K h ndarray results shape_ strides_ index)
    | _ =>
        let div := inject_Z (size_t (slot (shape ndarray) index - ddof)) in
        let '(results, h) :=
          ndarray_new_dense_ndarray h (Z.max 1 (ndim ndarray - 1)) shape_ NDARRAY_FLOAT in
        (results, RUN_STD K h ndarray results shape_ strides_ index div)
    end in
  if ndim ndarray =? 1
  then Ok (mp_binary_get_val_array (dtype results) h (array results) 0, h)
  else Ok (mp_obj_ndarray results, h).

Definition numerical_sum_mean_std_ndarray
    (h : heap) (ndarray : ndarray_obj_t) (axis : mp_obj_t)
    (optype : NUMERICAL_FUNCTION_TYPE) (ddof : Z) : result (mp_obj_t * heap) :=
  match axis with
  | mp_const_none => Ok (mp_const_none, h)
  | _ =>
      a ← mp_obj_get_int axis;
      ax ← check_axis ndarray a;
      sum_mean_std_axis h ndarray optype ddof ax
  end.

(** The [else] branch of [numerical_argmin_argmax_ndarray]. *)
Definition argmin_argmax_axis
    (h : heap) (ndarray : ndarray_obj_t) (optype : NUMERICAL_FUNCTION_TYPE) (ax : Z)
    : result (mp_obj_t * heap) :=
  let '(shape_, strides_) :=
    numerical_reduce_axes ndarray ax (replicate 4 0) (replicate 4 0) in
  let index := uint8_t (ULAB_MAX_DIMS - ndim ndarray + ax) in
  let '(results, h) :=
    match optype with
    | NUMERICAL_ARGMIN | NUMERICAL_ARGMAX =>
        ndarray_new_dense_ndarray h (Z.max 1 (ndim ndarray - 1)) shape_ NDARRAY_INT16
    | _ =>
        ndarray_new_dense_ndarray h (Z.max 1 (ndim ndarray - 1)) shape_ (dtype ndarray)
    end in
  let h := RUN_ARGMIN K h ndarray results shape_ strides_ index optype in
  if len results =? 1
  then Ok (mp_binary_get_val_array (dtype results) h (array results) 0, h)
  else Ok (mp_obj_ndarray results, h).

Definition numerical_argmin_argmax_ndarray
    (h : heap) (ndarray : ndarray_obj_t) (axis : mp_obj_t)
    (optype : NUMERICAL_FUNCTION_TYPE) : result (mp_obj_t * heap) :=
  if len ndarray =? 0 then
    Raise (ValueError "attempt to get (arg)min/(arg)max of empty sequence")
  else
    match axis with
    | mp_const_none => Ok (mp_const_none, h)
    | _ =>
        a ← mp_obj_get_int axis;
        ax ← check_axis ndarray a;
        argmin_argmax_axis h ndarray optype ax
    end.

(** [numerical_function], after [mp_arg_parse_all] has produced the input
    [oin] and the [axis] object (None when the keyword is not given). *)
Definition numerical_function
    (h : heap) (oin axis : mp_obj_t) (optype : NUMERICAL_FUNCTION_TYPE)
    : result (mp_obj_t * heap) :=
  if negb (is_none axis) && negb (MP_OBJ_IS_INT axis) then
    Raise (TypeError "axis must be None, or an integer")
  else
    match oin with
    | mp_obj_seq _ items =>
        match optype with
        | NUMERICAL_MIN | NUMERICAL_ARGMIN | NUMERICAL_MAX | NUMERICAL_ARGMAX =>
            r ← numerical_argmin_argmax_iterable items optype; Ok (r, h)
        | NUMERICAL_SUM | NUMERICAL_MEAN =>
            r ← numerical_sum_mean_std_iterable items optype 0; Ok (r, h)
        | _ => Ok (mp_const_none, h)
        end
    | mp_obj_ndarray ndarray =>
        match optype with
        | NUMERICAL_MIN | NUMERICAL_MAX | NUMERICAL_ARGMIN | NUMERICAL_ARGMAX =>
            numerical_argmin_argmax_ndarray h ndarray axis optype
        | NUMERICAL_SUM | NUMERICAL_MEAN =>
            numerical_sum_mean_std_ndarray h ndarray axis optype 0
        | _ => Raise (NotImplementedError "operation is not implemented on ndarrays")
        end
    | _ => Raise (TypeError "input must be tuple, list, range, or ndarray")
    end.

Definition numerical_argmax (h : heap) (oin axis : mp_obj_t) :=
  numerical_function h oin axis NUMERICAL_ARGMAX.
Definition numerical_argmin (h : heap) (oin axis : mp_obj_t) :=
  numerical_function h oin axis NUMERICAL_ARGMIN.
Definition numerical_max (h : heap) (oin axis : mp_obj_t) :=
  numerical_function h oin axis NUMERICAL_MAX.
Definition numerical_mean (h : heap) (oin axis : mp_obj_t) :=
  numerical_function h oin axis NUMERICAL_MEAN.
Definition numerical_min (h : heap) (oin axis : mp_obj_t) :=
  numerical_function h oin axis NUMERICAL_MIN.
Definition numerical_sum (h : heap) (oin axis : mp_obj_t) :=
  numerical_function h oin axis NUMERICAL_SUM.

(** The guard of [numerical_std] on its axis. *)
Definition std_axis_guard (axis : mp_obj_t) : result unit :=
  if is_none axis then Ok tt
  else
    a ← mp_obj_get_int axis;
    if negb (a =? 0) && negb (a =? 1)
    then Raise (ValueError "axis must be None, or an integer")
    else Ok tt.

(** [numerical_std]; [ddof] is the keyword argument ([MP_ARG_INT], 0 when it
    is not given), read into a [size_t]. *)
Definition numerical_std (h : heap) (oin axis ddof : mp_obj_t) : result (mp_obj_t * heap) :=
  d ← mp_obj_get_int ddof;
  let ddof := size_t d in
  _ ← std_axis_guard axis;
  match oin with
  | mp_obj_seq _ items =>
      r ← numerical_sum_mean_std_iterable items NUMERICAL_STD ddof; Ok (r, h)
  | mp_obj_ndarray ndarray =>
      numerical_sum_mean_std_ndarray h ndarray axis NUMERICAL_STD ddof
  | _ => Raise (TypeError "input must be tuple, list, range, or ndarray")
  end.

End Reductions.

(** *** numerical_diff *)

(** [stencil[0] = 1; for(uint8_t i=1; i < N+1; i++)
      stencil[i] = -stencil[i-1]*(N-i+1)/i;]
    The arithmetic is done in [int] (the division truncates) and the value is
    stored into an [int8_t]. *)
Fixpoint stencil_loop (N i : Z) (turns : nat) (prev : Z) : list Z :=
  match turns with
  | O => []
  | S turns' =>
      let v := int8_t (Z.quot (- prev * (N - i + 1)) i) in
      v :: stencil_loop N (i + 1) turns' v
  end.

Definition make_stencil (N : Z) : list Z := 1 :: stencil_loop N 1 (Z.to_nat N) 1.

(** The value a C variable of the element type holds after [q] is assigned
    to it. *)
Definition cast (dt : NDARRAY_TYPE) (q : Q) : Q :=
  match dt with
  | NDARRAY_UINT8 => inject_Z (uint8_t (Qfloor q))
  | NDARRAY_INT8 => inject_Z (int8_t (Qfloor q))
  | NDARRAY_UINT16 => inject_Z (uint16_t (Qfloor q))
  | NDARRAY_INT16 => inject_Z (int16_t (Qfloor q))
  | NDARRAY_FLOAT => Qred q
  end.

(** All index tuples below [shape], in lexicographic order. *)
Fixpoint index_tuples (shape : list Z) : list (list Z) :=
  match shape with
  | [] => [[]]
  | n :: rest => i ← seqZ 0 n; (fun idx => i :: idx) <$> index_tuples rest
  end.

Definition Qsum (l : list Q) : Q := foldr Qplus 0%Q l.

(** One term of the stencil sum: the weight [snd dc] times the source item
    [fst dc] steps further along the axis. *)
Definition diff_term
    (h : heap) (ndarray : ndarray_obj_t) (index : Z) (idx : list Z) (dc : nat * Z)
    : option Q :=
  v ← ndarray_get h ndarray (set_slot idx index (slot idx index + Z.of_nat (fst dc)));
  Some (inject_Z (snd dc) * v)%Q.

(** The stencil sum at one index tuple, stored into the element type: over
    the window of the [N + 1] source items that starts at the index tuple,
    [stencil[d]] goes with the item [N - d] steps along the axis, the first
    weight with the last item of the window. *)
Definition diff_item
    (h : heap) (ndarray : ndarray_obj_t) (index : Z) (stencil : list Z) (idx : list Z)
    : option Q :=
  terms ← mapM (diff_term h ndarray index idx)
            (imap (fun d c => ((length stencil - 1 - d)%nat, c)) stencil);
  Some (cast (dtype ndarray) (Qsum terms)).

(** Modelled from the spec: [RUN_DIFF] is a macro of numerical.h, which is
    not part of the sources.  The specification says of it, in sections 4.6
    and 8: the result is the n-th order finite difference along the axis;
    each output element is a sum over [i] of [stencil[i]] times a source
    item shifted along the axis; order 1 on [1, 2, 4, 7] yields [1, 2, 3];
    order 2 yields the first difference of the first difference.  The
    docstring of [numerical_diff] calls the result the numerical derivative
    of successive elements.  The stencil [numerical_diff] builds for order 1
    is [1, -1]: [1, 2, 3] comes out when its first weight goes with the
    later of the two items, so term [i] is taken at the item [N - i] steps
    along.  Taken at the item [i] steps along, the same stencil gives
    [-1, -2, -3], and the negated differences for every odd order; for even
    orders the two readings give the same sums. *)
Definition RUN_DIFF
    (h : heap) (ndarray results : ndarray_obj_t) (index : Z) (stencil : list Z) : heap :=
  foldl (fun h' idx =>
           store h' (ndarray_index results idx) (diff_item h ndarray index stencil idx))
        h (index_tuples (shape results)).

(** [numerical_diff] from the order check on. *)
Definition diff_axis (h : heap) (ndarray : ndarray_obj_t) (n ax : Z)
    : result (mp_obj_t * heap) :=
  let N := uint8_t n in
  let index := uint8_t (ULAB_MAX_DIMS - ndim ndarray + ax) in
  if (N <? 0) || (N >? 9) || (N >? slot (shape ndarray) index) then
    Raise (ValueError "differentiation order out of range")
  else
    let stencil := make_stencil N in
    let shape_ :=
      imap (fun i s => if Z.of_nat i =? index then size_t (s - N) else s)
           (shape ndarray) in
    let '(results, h) := ndarray_new_dense_ndarray h (ndim ndarray) shape_ (dtype ndarray) in
    let '(shape_, strides_) :=
      numerical_reduce_axes ndarray ax (replicate 4 0) (replicate 4 0) in
    let h := RUN_DIFF h ndarray results index stencil in
    Ok (mp_obj_ndarray results, h).

(** [numerical_diff]; [n] and [axis] are the keyword arguments (both
    [MP_ARG_INT], 1 and -1 when not given), converted by [mp_arg_parse_all]
    with [mp_obj_get_int]. *)
Definition numerical_diff (h : heap) (oin n axis : mp_obj_t) : result (mp_obj_t * heap) :=
  n ← mp_obj_get_int n;
  a ← mp_obj_get_int axis;
  match oin with
  | mp_obj_ndarray ndarray =>
      ax ← check_axis ndarray a;
      diff_axis h ndarray n ax
  | _ => Raise (TypeError "diff argument must be an ndarray")
  end.

(** *** numerical_flip *)

Definition with_strides (nd : ndarray_obj_t) (s : list Z) : ndarray_obj_t :=
  {| dense := dense nd; dtype := dtype nd; itemsize := itemsize nd; boolean := boolean nd;
     ndim := ndim nd; len := len nd; shape := shape nd; strides := s; array := array nd |}.

Definition with_array (nd : ndarray_obj_t) (p : pointer) : ndarray_obj_t :=
  {| dense := dense nd; dtype := dtype nd; itemsize := itemsize nd; boolean := boolean nd;
     ndim := ndim nd; len := len nd; shape := shape nd; strides := strides nd; array := p |}.

(** The branch of [numerical_flip] for the flattened array. *)
Definition flip_flat (h : heap) (ndarray : ndarray_obj_t) : ndarray_obj_t * heap :=
  let '(results, h) := ndarray_new_linear_array h (len ndarray) (dtype ndarray) in
  let h := ndarray_copy_array h ndarray results in
  let rarray :=
    ptr_add (array results) (size_t (size_t (len results - 1) * itemsize results)) in
  let results := with_array results rarray in
  (with_strides results
     (set_slot (strides results) (ULAB_MAX_DIMS - 1)
        (int32_t (- slot (strides results) (ULAB_MAX_DIMS - 1)))),
   h).

(** The branch of [numerical_flip] for one axis, after the axis check.  The
    offset is formed in [size_t] and stored into an [int32_t]: its value
    modulo 2^32, read as a signed number. *)
Definition flip_axis (ndarray : ndarray_obj_t) (ax : Z) : ndarray_obj_t :=
  let ax := int8_t (ULAB_MAX_DIMS - ndim ndarray + ax) in
  let offset := int32_t ((slot (shape ndarray) ax - 1) * slot (strides ndarray) ax) in
  let results :=
    ndarray_new_view ndarray (ndim ndarray) (shape ndarray) (strides ndarray) offset in
  with_strides results
    (set_slot (strides results) ax (int32_t (- slot (strides results) ax))).

Definition numerical_flip (h : heap) (oin axis : mp_obj_t) : result (mp_obj_t * heap) :=
  match oin with
  | mp_obj_ndarray ndarray =>
      if is_none axis then
        let '(results, h) := flip_flat h ndarray in Ok (mp_obj_ndarray results, h)
      else if MP_OBJ_IS_INT axis then
        a ← mp_obj_get_int axis;
        ax ← check_axis ndarray a;
        Ok (mp_obj_ndarray (flip_axis ndarray ax), h)
      else Raise (TypeError "wrong axis index")
  | _ => Raise (TypeError "flip argument must be an ndarray")
  end.

(** *** numerical_roll *)

(** The variables the loops of [numerical_roll] update. *)
Record roll_state : Type := {
  r_heap : heap;
  r_array : pointer;
  r_rarray : pointer;
  r_counter : Z
}.

(** Innermost body of the flattened branch, the source pointer aside (it is
    advanced by [traverse]):
    [memcpy(rarray, array, itemsize); rarray += results->itemsize; ...
     if(counter > 0) counter--; if(counter == 0) rarray = results->array;] *)
Definition roll_flat_visit (results : ndarray_obj_t) (array_ : pointer)
    (st : heap * pointer * Z) : heap * pointer * Z :=
  let '(h, rarray, counter) := st in
  let h := memcpy h rarray array_ in
  let rarray := ptr_add rarray (itemsize results) in
  let counter := if counter >? 0 then size_t (counter - 1) else counter in
  let rarray := if counter =? 0 then array results else rarray in
  (h, rarray, counter).

(** The branch of [numerical_roll] for the flattened array. *)
Definition roll_flat (h : heap) (ndarray results : ndarray_obj_t) (shift _shift : Z) : heap :=
  let _shift := int32_t (size_t _shift mod len results) in
  let '(rarray, counter) :=
    if shift >? 0
    then (ptr_add (array results) (_shift * itemsize results),
          size_t (len results - _shift))
    else (ptr_add (array results)
            (size_t (size_t (len results - _shift) * itemsize results)),
          size_t _shift) in
  fst (fst (snd (traverse (shape ndarray) (strides ndarray) (roll_flat_visit results)
                   (array ndarray, (h, rarray, counter))))).

(** Innermost body of the one-axis branch:
    [memcpy(rarray, array, itemsize); array += ndarray->strides[ax];
     rarray += results->strides[ax]; if(--counter == 0) rarray = _rarray;] *)
Definition roll_axis_item (ndarray results : ndarray_obj_t) (ax : Z) (_rarray : pointer)
    (st : roll_state) : roll_state :=
  let h := memcpy (r_heap st) (r_rarray st) (r_array st) in
  let array_ := ptr_add (r_array st) (slot (strides ndarray) ax) in
  let rarray := ptr_add (r_rarray st) (slot (strides results) ax) in
  let counter := size_t (r_counter st - 1) in
  let rarray := if counter =? 0 then _rarray else rarray in
  {| r_heap := h; r_array := array_; r_rarray := rarray; r_counter := counter |}.

(** Body of the [k] loop: one lane along the axis. *)
Definition roll_axis_lane (ndarray results : ndarray_obj_t) (ax shift _shift : Z)
    (strides_ rstrides : list Z) (st : roll_state) : roll_state :=
  let _rarray := r_rarray st in
  let rarray := ptr_add (r_rarray st) (_shift * slot (strides results) ax) in
  let counter := size_t (slot (shape results) ax - _shift) in
  let '(rarray, counter) :=
    if (shift <? 0) && (_shift >? 0)
    then (ptr_add rarray
            (size_t (size_t (slot (shape results) ax - _shift)
                     * slot (strides results) ax)),
          size_t _shift)
    else (rarray, counter) in
  let st := do_while (slot (shape ndarray) ax) (roll_axis_item ndarray results ax _rarray)
              {| r_heap := r_heap st; r_array := r_array st;
                 r_rarray := rarray; r_counter := counter |} in
  let rarray := ptr_add _rarray (slot rstrides (ULAB_MAX_DIMS - 1)) in
  let array_ := ptr_add (r_array st) (- (slot (strides ndarray) ax * slot (shape ndarray) ax)) in
  let array_ := ptr_add array_ (slot strides_ (ULAB_MAX_DIMS - 1)) in
  {| r_heap := r_heap st; r_array := array_; r_rarray := rarray; r_counter := r_counter st |}.

(** Rewinds an exhausted loop level and steps the next one, on both
    pointers: [rarray -= rstrides[i] * rshape[i]; rarray += rstrides[i-1];
    array -= strides[i] * shape[i]; array += strides[i-1];]. *)
Definition roll_axis_carry (shape_ strides_ rshape rstrides : list Z) (i : Z)
    (st : roll_state) : roll_state :=
  let rarray := ptr_add (r_rarray st) (- (slot rstrides i * slot rshape i)) in
  let rarray := ptr_add rarray (slot rstrides (i - 1)) in
  let array_ := ptr_add (r_array st) (- (slot strides_ i * slot shape_ i)) in
  let array_ := ptr_add array_ (slot strides_ (i - 1)) in
  {| r_heap := r_heap st; r_array := array_; r_rarray := rarray; r_counter := r_counter st |}.

(** The branch of [numerical_roll] for one axis, after the axis check. *)
Definition roll_axis (h : heap) (ndarray results : ndarray_obj_t) (shift _shift ax : Z) : heap :=
  let '(shape_, strides_) :=
    numerical_reduce_axes ndarray ax (replicate 4 0) (replicate 4 0) in
  let '(rshape, rstrides) :=
    numerical_reduce_axes results ax (replicate 4 0) (replicate 4 0) in
  let ax := int8_t (ULAB_MAX_DIMS - ndim ndarray + ax) in
  let _shift := int32_t (size_t _shift mod slot (shape results) ax) in
  r_heap
    (do_while (slot shape_ (ULAB_MAX_DIMS - 3)) (fun st =>
       let st := do_while (slot shape_ (ULAB_MAX_DIMS - 2)) (fun st =>
         let st := do_while (slot shape_ (ULAB_MAX_DIMS - 1))
                     (roll_axis_lane ndarray results ax shift _shift strides_ rstrides) st in
         roll_axis_carry shape_ strides_ rshape rstrides (ULAB_MAX_DIMS - 1) st) st in
       roll_axis_carry shape_ strides_ rshape rstrides (ULAB_MAX_DIMS - 2) st)
       {| r_heap := h; r_array := array ndarray; r_rarray := array results;
          r_counter := 0 |}).

(** [numerical_roll]: the array, the distance and the [axis] keyword (None
    when it is not given). *)
Definition numerical_roll (h : heap) (oin distance axis : mp_obj_t)
    : result (mp_obj_t * heap) :=
  match oin with
  | mp_obj_ndarray ndarray =>
      let '(results, h) :=
        ndarray_new_dense_ndarray h (ndim ndarray) (shape ndarray) (dtype ndarray) in
      d ← mp_obj_get_int distance;
      let shift := int32_t d in
      let _shift := if shift <? 0 then int32_t (- shift) else shift in
      if is_none axis then
        Ok (mp_obj_ndarray results, roll_flat h ndarray results shift _shift)
      else if MP_OBJ_IS_INT axis then
        a ← mp_obj_get_int axis;
        ax ← check_axis ndarray a;
        Ok (mp_obj_ndarray results, roll_axis h ndarray results shift _shift ax)
      else Raise (TypeError "wrong axis index")
  | _ => Raise (TypeError "roll argument must be an ndarray")
  end.

(** *** The operations, as the interface table of the specification lists
    them *)

Inductive operation : Type :=
| Op_sum | Op_mean | Op_std (ddof : Z)
| Op_min | Op_max | Op_argmin | Op_argmax
| Op_diff (n : Z) | Op_flip | Op_roll (distance : Z).

(** Calling an operation on an input with an [axis] argument. *)
Definition call (K : reduction_kernels) (h : heap) (op : operation) (oin axis : mp_obj_t)
    : result (mp_obj_t * heap) :=
  match op with
  | Op_sum => numerical_sum K h oin axis
  | Op_mean => numerical_mean K h oin axis
  | Op_std ddof => numerical_std K h oin axis (mp_obj_int ddof)
  | Op_min => numerical_min K h oin axis
  | Op_max => numerical_max K h oin axis
  | Op_argmin => numerical_argmin K h oin axis
  | Op_argmax => numerical_argmax K h oin axis
  | Op_diff n => numerical_diff h oin (mp_obj_int n) axis
  | Op_flip => numerical_flip h oin axis
  | Op_roll distance => numerical_roll h oin (mp_obj_int distance) axis
  end.

(** What each operation goes on to do with an array once its axis has passed
    the check, [ax] being the checked axis. *)
Definition proceed (K : reduction_kernels) (h : heap) (op : operation)
    (ndarray : ndarray_obj_t) (ax : Z) : result (mp_obj_t * heap) :=
  match op with
  | Op_sum => sum_mean_std_axis K h ndarray NUMERICAL_SUM 0 ax
  | Op_mean => sum_mean_std_axis K h ndarray NUMERICAL_MEAN 0 ax
  | Op_std ddof => sum_mean_std_axis K h ndarray NUMERICAL_STD (size_t ddof) ax
  | Op_min => argmin_argmax_axis K h ndarray NUMERICAL_MIN ax
  | Op_max => argmin_argmax_axis K h ndarray NUMERICAL_MAX ax
  | Op_argmin => argmin_argmax_axis K h ndarray NUMERICAL_ARGMIN ax
  | Op_argmax => argmin_argmax_axis K h ndarray NUMERICAL_ARGMAX ax
  | Op_diff n => diff_axis h ndarray n ax
  | Op_flip => Ok (mp_obj_ndarray (flip_axis ndarray ax), h)
  | Op_roll distance =>
      let '(results, h) :=
        ndarray_new_dense_ndarray h (ndim ndarray) (shape ndarray) (dtype ndarray) in
      let shift := int32_t distance in
      let _shift := if shift <? 0 then int32_t (- shift) else shift in
      Ok (mp_obj_ndarray results, roll_axis h ndarray results shift _shift ax)
  end.

(** Which axis objects an operation reads as an integer: [numerical_diff]
    and [numerical_std] convert with [mp_obj_get_int], which also takes
    bools; the others test [MP_OBJ_IS_INT]. *)
Definition reads_as_int (op : operation) (axis : mp_obj_t) : bool :=
  match op with
  | Op_diff _ | Op_std _ =>
      match axis with
      | mp_obj_int _ | mp_obj_bool _ => true
      | _ => false
      end
  | _ => MP_OBJ_IS_INT axis
  end.

(** The integer axes the guard of [numerical_std] lets through. *)
Definition passes_guard (op : operation) (a : Z) : bool :=
  match op with
  | Op_std _ => (a =? 0) || (a =? 1)
  | _ => true
  end.

(** *** Concrete arrays for the examples *)

(** A buffer holding [vals] one after the other, items [isz] bytes wide. *)
Definition buffer_of (isz : Z) (vals : list Q) : gmap Z Q :=
  list_to_map (imap (fun i v => (Z.of_nat i * isz, v)) vals).

(** The header of a dense array that starts at the beginning of buffer
    [blk]. *)
Definition dense_header (dt : NDARRAY_TYPE) (nd : Z) (shp : list Z) (blk : nat)
    : ndarray_obj_t :=
  with_array (fst (ndarray_new_dense_ndarray [] nd shp dt)) {| p_block := blk; p_off := 0 |}.

(** Kernels that leave the result buffer as allocated; they stand in for the
    absent macros where only the control flow of a reduction is evaluated. *)
Definition idle_kernels : reduction_kernels :=
  {| RUN_SUM := fun h _ _ _ _ _ => h;
     RUN_MEAN := fun h _ _ _ _ _ => h;
     RUN_STD := fun h _ _ _ _ _ _ => h;
     RUN_ARGMIN := fun h _ _ _ _ _ _ => h |}.

(** The arrays of the examples: [[1,2,3,4,5]], [[1,2,4,7]] (floats),
    [[[1,2,3],[4,5,6]]] and the 2x1 column [[[1],[2]]] (bytes). *)
Definition vec5 : ndarray_obj_t := dense_header NDARRAY_FLOAT 1 [0; 0; 0; 5] 0.
Definition vec5_heap : heap := [buffer_of 4 [1; 2; 3; 4; 5]%Q].
Definition vec4 : ndarray_obj_t := dense_header NDARRAY_FLOAT 1 [0; 0; 0; 4] 0.
Definition vec4_heap : heap := [buffer_of 4 [1; 2; 4; 7]%Q].
Definition mat23 : ndarray_obj_t := dense_header NDARRAY_UINT8 2 [0; 0; 2; 3] 0.
Definition mat23_heap : heap := [buffer_of 1 [1; 2; 3; 4; 5; 6]%Q].
Definition col21 : ndarray_obj_t := dense_header NDARRAY_UINT8 2 [0; 0; 2; 1] 0.
Definition col21_heap : heap := [buffer_of 1 [1; 2]%Q].

(** The items of a returned array, when an array is returned. *)
Definition returned_items (r : result (mp_obj_t * heap)) : option (list (option Q)) :=
  match r with
  | Ok (mp_obj_ndarray nd, h) => Some (ndarray_items h nd)
  | _ => None
  end.

(** One more call of [numerical_roll] on a returned array. *)
Definition then_roll (r : result (mp_obj_t * heap)) (distance axis : mp_obj_t)
    : result (mp_obj_t * heap) :=
  r ≫= fun '(o, h) => numerical_roll h o distance axis.

(** *** Auxiliary notions for the traversal *)

(** A traversal with an action and the traversal that records its pointers
    run in step: same pointer, and the state is the action folded over the
    record. *)
Definition in_step {S : Type} (visit : pointer -> S -> S) (s0 : S)
    (a : pointer * S) (b : pointer * list pointer) : Prop :=
  fst a = fst b /\ snd a = foldr visit s0 (snd b).

(** How often a [do ... while] loop bounded by [n] runs. *)
Definition turns (n : Z) : nat := Z.to_nat (Z.max 1 n).


(** *** Well-formed arrays *)

(** The invariants of section 3 that the properties below rely on, for a
    non-empty array: a rank within the cap, four slots, extents of at least 1
    whose product is [len], a buffer that exists, strides and last-item
    offsets that fit the [int32_t] they are held in, 1 in the slots left of
    the logical axes, and a byte size that fits a [size_t]. *)
Definition well_formed (h : heap) (nd : ndarray_obj_t) : Prop :=
  1 <= ndim nd <= ULAB_MAX_DIMS
  /\ length (shape nd) = 4%nat /\ length (strides nd) = 4%nat
  /\ Forall (fun n => 1 <= n) (shape nd)
  /\ len nd = product (shape nd) /\ len nd < 2 ^ 32
  /\ (p_block (array nd) < length h)%nat
  /\ Forall2 (fun n s => - 2 ^ 31 < s < 2 ^ 31 /\ - 2 ^ 31 < (n - 1) * s < 2 ^ 31)
             (shape nd) (strides nd)
  /\ take (Z.to_nat (ULAB_MAX_DIMS - ndim nd)) (shape nd)
     = replicate (Z.to_nat (ULAB_MAX_DIMS - ndim nd)) 1
  /\ len nd * itemsize_of (dtype nd) < 2 ^ 32.

(** *** Closed forms for the sequence path *)

(** Closed forms the streaming update is compared with. *)
Definition mean_of (qs : list Q) : Q := (Qsum qs / inject_Z (Z.of_nat (length qs)))%Q.

Definition sum_sq_dev (qs : list Q) : Q :=
  Qsum (map (fun v => (v - mean_of qs) * (v - mean_of qs))%Q qs).

(** The radicand of the closed-form sample standard deviation. *)
Definition sample_variance (qs : list Q) (ddof : Z) : Q :=
  (sum_sq_dev qs / inject_Z (Z.of_nat (length qs) - ddof))%Q.

Definition Qsum_sq (qs : list Q) : Q := Qsum (map (fun v => v * v)%Q qs).

(** *** The lane loop of roll *)

(** The state of the lane loop after [t] turns, for a lane of [n] items
    rolled by [sh] places: the source pointer has made [t] steps, the cursor
    has wrapped to the start once [n - sh] items were written, and the items
    copied so far sit [sh] places further, modulo [n]. *)
Definition lane_after (h0 : heap) (p r0 : pointer) (s rs n sh : Z) (t : nat)
    (st : roll_state) : Prop :=
  r_array st = ptr_add p (Z.of_nat t * s)
  /\ r_counter st = size_t (n - sh - Z.of_nat t)
  /\ r_rarray st
     = (if Z.of_nat t <? n - sh
        then ptr_add r0 ((sh + Z.of_nat t) * rs)
        else ptr_add r0 ((Z.of_nat t - (n - sh)) * rs))
  /\ length (r_heap st) = length h0
  /\ (forall q, p_block q <> p_block r0 -> load (r_heap st) q = load h0 q)
  /\ (forall t' : nat, (t' < t)%nat ->
        load (r_heap st) (ptr_add r0 ((sh + Z.of_nat t') mod n * rs))
        = load h0 (ptr_add p (Z.of_nat t' * s))).

(** *** Finite differences *)

(** The sum of the weights [stencil] times the items [w], position by
    position. *)
Definition stencil_sum (stencil : list Z) (w : list Q) : Q :=
  Qsum (zip_with (fun c v => inject_Z c * v)%Q stencil w).

(** The first difference of a list, as the example of the specification has
    it ([1, 2, 4, 7] gives [1, 2, 3]): every item but the first, minus the
    item before it. *)
Definition first_difference (l : list Q) : list Q := zip_with Qminus (tail l) l.

(** The differences of order [N], as the specification words them: order 2
    is the first difference of the first difference, and so on; order 0 is
    the list itself. *)
Definition finite_difference (N : nat) (l : list Q) : list Q :=
  Nat.iter N first_difference l.

(** *** Sequences of numbers *)

(** The items of a sequence convert to the floats [qs], one by one. *)
Definition numbers (items : list mp_obj_t) (qs : list Q) : Prop :=
  Forall2 (fun o q => mp_obj_get_float o = Ok q) items qs.

(** The significand of the 4-byte [mp_float_t] has [FLT_MANT_DIG] bits: every
    integer of magnitude up to [2 ^ FLT_MANT_DIG] is a float, the next one,
    16777217, is not, and the conversion rounds it. *)
Definition FLT_MANT_DIG : Z := 24.

(** The objects on which the exact conversion of [mp_obj_get_float] above is
    the conversion of the runtime: an int within the range the float holds
    exactly, a bool, or a float object, which holds a float already. *)
Definition converts_exactly (o : mp_obj_t) : Prop :=
  match o with
  | mp_obj_int z => Z.abs z <= 2 ^ FLT_MANT_DIG
  | mp_obj_bool _ | mp_obj_float _ => True
  | _ => False
  end.

(** The objects that are no number at all: [mp_obj_get_float] of the runtime
    raises its TypeError on them.  A float, also the one [std] returns, is
    not among them. *)
Definition not_a_number (o : mp_obj_t) : Prop :=
  match o with
  | mp_const_none | mp_obj_str _ | mp_obj_seq _ _ | mp_obj_ndarray _ => True
  | mp_obj_bool _ | mp_obj_int _ | mp_obj_float _ | mp_obj_float_sqrt _ => False
  end.

(** The comparison of [numerical_argmin_argmax_iterable] that makes [a]
    replace the best value [b]: strictly smaller for [op = 0] (min, argmin),
    strictly larger for [op = 1] (max, argmax). *)
Definition beats (op : Z) (a b : Q) : Prop :=
  if op =? 0 then (a < b)%Q else (b < a)%Q.

(** What the locals of [numerical_argmin_argmax_iterable] hold once the
    items [items], of values [qs], are consumed: the index of the last item,
    and the position, object and value of the first item no other one
    beats. *)
Definition best_so_far (op : Z) (items : list mp_obj_t) (qs : list Q) (st : best_state)
    : Prop :=
  bs_idx st = Z.of_nat (length items) - 1
  /\ exists i : nat,
       bs_best_idx st = Z.of_nat i
       /\ items !! i = Some (bs_best_obj st)
       /\ qs !! i = Some (bs_best_value st)
       /\ (forall (j : nat) q, qs !! j = Some q -> ~ beats op q (bs_best_value st))
       /\ (forall (j : nat) q, (j < i)%nat -> qs !! j = Some q ->
             beats op (bs_best_value st) q).

(** The reductions among the operations. *)
Definition is_reduction (op : operation) : bool :=
  match op with
  | Op_diff _ | Op_flip | Op_roll _ => false
  | _ => true
  end.

(** Which inputs an operation takes: the reductions take sequences and
    arrays, [diff], [flip] and [roll] arrays only. *)
Definition accepts_input (op : operation) (oin : mp_obj_t) : bool :=
  match oin with
  | mp_obj_ndarray _ => true
  | mp_obj_seq _ _ => is_reduction op
  | _ => false
  end.

Definition is_std (op : operation) : bool :=
  match op with
  | Op_std _ => true
  | _ => false
  end.

(** *** The slot an operation acts on *)

(** The heap a reduction returns: the kernel it runs on the heap [h0], with
    the source, the result, the reduced shape and strides, and the physical
    index [i] of the axis; for [std] also the divisor, taken from the extent
    of slot [i]. *)
Definition runs_kernel (K : reduction_kernels) (op : operation) (h0 : heap)
    (nd R : ndarray_obj_t) (shape_ strides_ : list Z) (i : Z) : heap :=
  match op with
  | Op_sum => RUN_SUM K h0 nd R shape_ strides_ i
  | Op_mean => RUN_MEAN K h0 nd R shape_ strides_ i
  | Op_std ddof =>
      RUN_STD K h0 nd R shape_ strides_ i
        (inject_Z (size_t (slot (shape nd) i - size_t ddof)))
  | Op_min => RUN_ARGMIN K h0 nd R shape_ strides_ i NUMERICAL_MIN
  | Op_max => RUN_ARGMIN K h0 nd R shape_ strides_ i NUMERICAL_MAX
  | Op_argmin => RUN_ARGMIN K h0 nd R shape_ strides_ i NUMERICAL_ARGMIN
  | Op_argmax => RUN_ARGMIN K h0 nd R shape_ strides_ i NUMERICAL_ARGMAX
  | Op_diff _ | Op_flip | Op_roll _ => h0
  end.

(** What it means for the outcome [r] of an operation on the array [nd] to
    be the work on physical slot [i], of extent [n], told from what comes
    back:
    - [flip] returns a view with the stride of slot [i] negated and the
      start moved to the last item along slot [i];
    - [roll] by a distance [d >= 0] returns an array whose item at an index
      tuple is the source item [d] places back, circularly, along slot [i];
    - [diff] of an order [o] from 0 to 9 compares [o] with the extent of
      slot [i], and returns an array with that extent reduced by [o];
    - a reduction returns a result whose shape is the shape of the source
      with slot [i] taken out (and a leading 1 put in front), filled by its
      kernel run with index [i]. *)
Definition acts_on_slot (K : reduction_kernels) (h : heap) (op : operation)
    (nd : ndarray_obj_t) (i : Z) (r : result (mp_obj_t * heap)) : Prop :=
  let n := slot (shape nd) i in
  match op with
  | Op_flip =>
      exists R,
        r = Ok (mp_obj_ndarray R, h) /\ shape R = shape nd
        /\ strides R = set_slot (strides nd) i (- slot (strides nd) i)
        /\ array R = ptr_add (array nd) ((n - 1) * slot (strides nd) i)
  | Op_roll d =>
      0 <= d < 2 ^ 31 ->
      exists R h',
        r = Ok (mp_obj_ndarray R, h') /\ shape R = shape nd
        /\ forall idx, idx ∈ index_tuples (shape nd) ->
             ndarray_get h' R idx
             = ndarray_get h nd (set_slot idx i ((slot idx i - d) mod n))
  | Op_diff o =>
      0 <= o <= 9 ->
      if o <=? n
      then exists R h',
             r = Ok (mp_obj_ndarray R, h') /\ shape R = set_slot (shape nd) i (n - o)
      else raises r ValueError_kind
  | Op_sum | Op_mean | Op_std _ | Op_min | Op_max | Op_argmin | Op_argmax =>
      exists R shape_ strides_,
        shape R = 1 :: delete (Z.to_nat i) (shape nd)
        /\ len R * n = len nd
        /\ let h' := runs_kernel K op (h ++ [∅]) nd R shape_ strides_ i in
           r = Ok (if match op with
                      | Op_min | Op_max | Op_argmin | Op_argmax => len R =? 1
                      | _ => ndim nd =? 1
                      end
                   then mp_binary_get_val_array (dtype R) h' (array R) 0
                   else mp_obj_ndarray R, h')
  end.

(** The binomial coefficients, by Pascal's rule. *)
Fixpoint binomial (n k : nat) : nat :=
  match n, k with
  | _, O => 1
  | O, S _ => 0
  | S n', S k' => binomial n' k' + binomial n' (S k')
  end.

(** *** The copies of roll along an axis *)

(** A list of copies, each a destination and a source, done one after the
    other. *)
Definition replay (T : list (pointer * pointer)) (h : heap) : heap :=
  foldl (fun h' c => memcpy h' (fst c) (snd c)) h T.

(** What a piece of the loops of [numerical_roll] does, seen from outside:
    started with the source pointer at [p] and the cursor at [r], it does the
    copies [G p r] and leaves the two pointers moved by [dp] and [dr]. *)
Definition advances (f : roll_state -> roll_state) (dp dr : Z)
    (G : pointer -> pointer -> list (pointer * pointer)) : Prop :=
  forall st,
    r_array (f st) = ptr_add (r_array st) dp
    /\ r_rarray (f st) = ptr_add (r_rarray st) dr
    /\ r_heap (f st) = replay (G (r_array st) (r_rarray st)) (r_heap st).

(** The copies of one lane of [n] items rolled by [sh] places: item [t] of
    the source lane goes to place [(sh + t) mod n] of the result lane. *)
Definition lane_copies (s rs n sh : Z) (p r : pointer) : list (pointer * pointer) :=
  (fun t : nat => (ptr_add r ((sh + Z.of_nat t) mod n * rs), ptr_add p (Z.of_nat t * s)))
  <$> seq 0 (Z.to_nat n).

(** The copies of [c] turns of a loop whose body does [G] and moves the
    pointers by [dp] and [dr]. *)
Definition repeat_copies (c : nat) (dp dr : Z)
    (G : pointer -> pointer -> list (pointer * pointer)) (p r : pointer)
    : list (pointer * pointer) :=
  x ← seq 0 c; G (ptr_add p (Z.of_nat x * dp)) (ptr_add r (Z.of_nat x * dr)).

(** * Properties *)

(** ** Machine integers *)

Lemma int8_t_small (z : Z) : -128 <= z < 128 -> int8_t z = z.
Proof.
  intros Hz. unfold int8_t, wrap_signed.
  change (2 ^ (8 - 1)) with 128. change (2 ^ 8) with 256.
  rewrite Z.mod_small; lia.
Qed.

Lemma uint8_t_small (z : Z) : 0 <= z < 256 -> uint8_t z = z.
Proof.
  intros Hz. unfold uint8_t, wrap_unsigned.
  change (2 ^ 8) with 256. rewrite Z.mod_small; lia.
Qed.

Lemma uint8_t_range (z : Z) : 0 <= uint8_t z < 256.
Proof.
  unfold uint8_t, wrap_unsigned. change (2 ^ 8) with 256.
  apply Z.mod_pos_bound. lia.
Qed.

Lemma int8_t_range (z : Z) : -128 <= int8_t z < 128.
Proof.
  unfold int8_t, wrap_signed.
  change (2 ^ (8 - 1)) with 128. change (2 ^ 8) with 256.
  pose proof (Z.mod_pos_bound (z + 128) 256). lia.
Qed.

Lemma int32_t_small (z : Z) : - 2 ^ 31 <= z < 2 ^ 31 -> int32_t z = z.
Proof.
  intros Hz. unfold int32_t, wrap_signed.
  change (32 - 1) with 31. replace (2 ^ 32) with (2 * 2 ^ 31) by reflexivity.
  rewrite Z.mod_small; lia.
Qed.

Lemma size_t_small (z : Z) : 0 <= z < 2 ^ 32 -> size_t z = z.
Proof.
  intros Hz. unfold size_t, wrap_unsigned. rewrite Z.mod_small; lia.
Qed.

Lemma size_t_range (z : Z) : 0 <= size_t z < 2 ^ 32.
Proof. unfold size_t, wrap_unsigned. apply Z.mod_pos_bound. lia. Qed.

(** ** The sequence path *)

Lemma iterable_while_floats (q : Q) (qs : list Q) (st : iterable_state) :
  iterable_while (mp_obj_float <$> (q :: qs)) st
  = iterable_while (mp_obj_float <$> qs) (iterable_next q st).
Proof. reflexivity. Qed.

Lemma iterable_while_sum (qs : list Q) (st : iterable_state) :
  exists st', iterable_while (mp_obj_float <$> qs) st = Ok st'
              /\ (it_sum st' == it_sum st + Qsum qs)%Q.
Proof.
  revert st. induction qs as [|q qs IH]; intros st.
  - exists st. split; [reflexivity|]. simpl. ring.
  - rewrite iterable_while_floats.
    destruct (IH (iterable_next q st)) as (st' & Hrun & Hsum).
    exists st'. split; [exact Hrun|].
    rewrite Hsum. simpl. ring.
Qed.

Lemma iterable_scan_sum (qs : list Q) :
  exists st, iterable_scan (mp_obj_float <$> qs) = Ok st
             /\ (it_sum st == (9 # 10) + Qsum qs)%Q.
Proof.
  destruct qs as [|q qs].
  - exists iterable_init. split; [reflexivity|]. simpl. ring.
  - destruct (iterable_while_sum qs
                {| it_M := q; it_m := q; it_S := 0; it_s := 0;
                   it_sum := ((9 # 10) + q)%Q; it_count := size_t (1 + 1) |})
      as (st & Hrun & Hsum).
    exists st. split; [exact Hrun|].
    rewrite Hsum. simpl. ring.
Qed.

(** C3. [sum] over a sequence does not return the sum of the items: the
    accumulator starts from the constant 0.9, so for every sequence of
    numbers the result is 0.9 plus the sum of the items, which is never the
    sum itself. *)
Theorem iterable_sum_is_offset (K : reduction_kernels) (h : heap) (k : seq_kind) (qs : list Q) :
  exists q, numerical_sum K h (mp_obj_seq k (mp_obj_float <$> qs)) mp_const_none
            = Ok (mp_obj_float q, h)
            /\ (q == (9 # 10) + Qsum qs)%Q
            /\ ~ (q == Qsum qs)%Q.
Proof.
  destruct (iterable_scan_sum qs) as (st & Hscan & Hsum).
  exists (it_sum st). split; [|split].
  - unfold numerical_sum, numerical_function. cbn [is_none negb andb].
    unfold numerical_sum_mean_std_iterable.
    cbn [mbind result_bind]. rewrite Hscan. reflexivity.
  - exact Hsum.
  - rewrite Hsum. intros Heq.
    assert (Habs : ((9 # 10) == 0)%Q).
    { apply (Qplus_inj_r _ _ (Qsum qs)). rewrite Heq. ring. }
    discriminate Habs.
Qed.

Lemma Q2R_sqrt_0 (q : Q) : (q == 0)%Q -> sqrt (Q2R q) = 0%R.
Proof.
  intros Hq. rewrite (Qeq_eqR _ _ Hq).
  replace (Q2R 0) with 0%R by (unfold Q2R; simpl; lra).
  apply sqrt_0.
Qed.

(** C10. On the sequence path [mean] and [std] of an empty sequence return
    the float 0.0 without raising, for every [ddof], whereas [min], [max],
    [argmin] and [argmax] raise a ValueError on it. *)
Theorem empty_sequence_reductions (K : reduction_kernels) (h : heap) (k : seq_kind) :
  numerical_mean K h (mp_obj_seq k []) mp_const_none = Ok (mp_obj_float 0, h)
  /\ (forall ddof : Z,
        exists r, numerical_std K h (mp_obj_seq k []) mp_const_none (mp_obj_int ddof)
                  = Ok (r, h)
                  /\ float_value r = Some 0%R)
  /\ raises (numerical_min K h (mp_obj_seq k []) mp_const_none) ValueError_kind
  /\ raises (numerical_max K h (mp_obj_seq k []) mp_const_none) ValueError_kind
  /\ raises (numerical_argmin K h (mp_obj_seq k []) mp_const_none) ValueError_kind
  /\ raises (numerical_argmax K h (mp_obj_seq k []) mp_const_none) ValueError_kind.
Proof.
  split; [reflexivity|]. split; [|repeat split].
  intros ddof. unfold numerical_std.
  cbn [mp_obj_get_int std_axis_guard is_none mbind result_bind
       numerical_sum_mean_std_iterable iterable_scan iterable_init it_count it_s].
  pose proof (size_t_range ddof) as Hr.
  destruct (1 >? size_t ddof) eqn:Hgt.
  - assert (Hz : size_t ddof = 0) by lia. rewrite Hz.
    eexists. split; [reflexivity|].
    cbn [float_value]. f_equal. apply Q2R_sqrt_0. reflexivity.
  - eexists. split; [reflexivity|].
    cbn [float_value]. f_equal. unfold Q2R. simpl. lra.
Qed.

(** C2. [std] over a sequence is not the sample standard deviation.  On
    [1, 2, 3, 4] the streaming update leaves the mean 5/2 and the sum of
    squared deviations 5, but the count it divides by is one too large and
    the sum is multiplied by it: with [ddof = 0] the result is [sqrt 5], not
    [sqrt (5/4)], and with [ddof = 4], the number of items, it is [sqrt 25],
    not 0. *)
Theorem iterable_std_is_not_sample_std (K : reduction_kernels) (h : heap) (k : seq_kind) :
  let items := mp_obj_seq k (mp_obj_int <$> [1; 2; 3; 4]) in
  (exists q, numerical_mean K h items mp_const_none = Ok (mp_obj_float q, h)
             /\ (q == mean_of [1; 2; 3; 4]%Q)%Q)
  /\ (exists q, numerical_std K h items mp_const_none (mp_obj_int 0)
                = Ok (mp_obj_float_sqrt q, h)
                /\ (q == 5)%Q
                /\ (sample_variance [1; 2; 3; 4]%Q 0 == 5 # 4)%Q
                /\ float_value (mp_obj_float_sqrt q)
                   <> Some (sqrt (Q2R (sample_variance [1; 2; 3; 4]%Q 0))))
  /\ (exists q, numerical_std K h items mp_const_none (mp_obj_int 4)
                = Ok (mp_obj_float_sqrt q, h)
                /\ (q == 25)%Q).
Proof.
  cbv zeta. split; [|split].
  - exists (1440 # 576)%Q. split; [vm_compute; reflexivity|]. reflexivity.
  - exists (8294400 # 1658880)%Q. split; [vm_compute; reflexivity|].
    split; [reflexivity|]. split; [reflexivity|].
    cbn [float_value]. intros Heq. injection Heq as Heq.
    assert (Hv : (sample_variance [1; 2; 3; 4]%Q 0 == 5 # 4)%Q) by reflexivity.
    rewrite (Qeq_eqR _ _ Hv) in Heq.
    assert (Hq : (8294400 # 1658880 == 5)%Q) by reflexivity.
    rewrite (Qeq_eqR _ _ Hq) in Heq.
    apply sqrt_inj in Heq.
    + revert Heq. unfold Q2R. cbn. lra.
    + unfold Q2R. cbn. lra.
    + unfold Q2R. cbn. lra.
  - exists (8294400 # 331776)%Q. split; [vm_compute; reflexivity|]. reflexivity.
Qed.

Lemma Qsum_cons (q : Q) (qs : list Q) : Qsum (q :: qs) = (q + Qsum qs)%Q.
Proof. reflexivity. Qed.

Lemma Qsum_sq_cons (q : Q) (qs : list Q) : Qsum_sq (q :: qs) = (q * q + Qsum_sq qs)%Q.
Proof. reflexivity. Qed.

Lemma inject_Z_succ (n : nat) :
  (inject_Z (Z.of_nat (S n)) == inject_Z (Z.of_nat n) + 1)%Q.
Proof. rewrite Nat2Z.inj_succ. unfold Z.succ. rewrite inject_Z_plus. reflexivity. Qed.

Lemma Qsum_sq_shift (qs : list Q) (c : Q) :
  (Qsum (map (fun v => (v - c) * (v - c)) qs)
   == Qsum_sq qs - 2 * c * Qsum qs + inject_Z (Z.of_nat (length qs)) * c * c)%Q.
Proof.
  induction qs as [|q qs IH].
  - change (0 == 0 - 2 * c * 0 + 0 * c * c)%Q. ring.
  - cbn [map length]. rewrite Qsum_sq_cons, !Qsum_cons, IH, inject_Z_succ. ring.
Qed.

Lemma inject_Z_nonzero (z : Z) : z <> 0 -> ~ (inject_Z z == 0)%Q.
Proof.
  intros Hz Heq. apply Hz. unfold Qeq in Heq. simpl in Heq. lia.
Qed.

Lemma sum_sq_dev_alt (qs : list Q) :
  qs <> [] ->
  (sum_sq_dev qs
   == Qsum_sq qs - Qsum qs * Qsum qs / inject_Z (Z.of_nat (length qs)))%Q.
Proof.
  intros Hne. unfold sum_sq_dev. rewrite Qsum_sq_shift. unfold mean_of.
  field. apply inject_Z_nonzero. destruct qs; [congruence|]. simpl. lia.
Qed.

(** The invariant of the streaming update: with [k] items seen, whose sum
    is [T] and whose sum of squares is [Q2], the running mean is [T / k] and
    the running sum of squared deviations is [Q2 - T^2 / k]. *)
Lemma welford_while (qs : list Q) :
  forall (st : iterable_state) (k : Z) (T Q2 : Q),
    1 <= k -> it_count st = k + 1 ->
    k + 1 + Z.of_nat (length qs) < 2 ^ 32 ->
    it_m st = it_M st -> it_s st = it_S st ->
    (it_M st == T / inject_Z k)%Q ->
    (it_S st == Q2 - T * T / inject_Z k)%Q ->
    exists st',
      iterable_while (mp_obj_float <$> qs) st = Ok st'
      /\ it_count st' = k + 1 + Z.of_nat (length qs)
      /\ (it_m st' == (T + Qsum qs) / inject_Z (k + Z.of_nat (length qs)))%Q
      /\ (it_s st' == Q2 + Qsum_sq qs
                      - (T + Qsum qs) * (T + Qsum qs)
                        / inject_Z (k + Z.of_nat (length qs)))%Q.
Proof.
  induction qs as [|q qs IH]; intros st k T Q2 Hk Hc Hlen Hm Hs HM HS.
  - exists st. split; [reflexivity|].
    change (Qsum []) with 0%Q. change (Qsum_sq []) with 0%Q.
    change (Z.of_nat (length (@nil Q))) with 0.
    rewrite !Z.add_0_r, Hm, Hs, HM, HS. split; [lia|]. split.
    + field. apply inject_Z_nonzero. lia.
    + field. apply inject_Z_nonzero. lia.
  - rewrite iterable_while_floats.
    cbn [length] in Hlen. rewrite Nat2Z.inj_succ in Hlen.
    assert (Hk0 : ~ (inject_Z k == 0)%Q) by (apply inject_Z_nonzero; lia).
    assert (Hk1 : ~ (inject_Z k + 1 == 0)%Q).
    { change 1%Q with (inject_Z 1). rewrite <- inject_Z_plus.
      apply inject_Z_nonzero. lia. }
    destruct (IH (iterable_next q st) (k + 1) (T + q)%Q (Q2 + q * q)%Q)
      as (st' & Hrun & Hcount & Hmean & Hss).
    + lia.
    + cbn [iterable_next it_count]. rewrite Hc. apply size_t_small. lia.
    + lia.
    + reflexivity.
    + reflexivity.
    + cbn [iterable_next it_M]. rewrite Hc, HM, inject_Z_plus.
      change (inject_Z 1) with 1%Q. field. split; assumption.
    + cbn [iterable_next it_S]. rewrite Hc, HM, HS, inject_Z_plus.
      change (inject_Z 1) with 1%Q. field. split; assumption.
    + exists st'. split; [exact Hrun|].
      cbn [length]. rewrite Nat2Z.inj_succ, Qsum_cons, Qsum_sq_cons.
      replace (k + Z.succ (Z.of_nat (length qs))) with (k + 1 + Z.of_nat (length qs)) by lia.
      split; [lia|]. split.
      * rewrite Hmean. apply Qdiv_comp; [ring|reflexivity].
      * rewrite Hss.
        assert (He : (T + q + Qsum qs == T + (q + Qsum qs))%Q) by ring.
        rewrite He. ring.
Qed.

(** What the sequence path computes for [mean] and [std] on [n >= 1]
    numbers: the running mean is the arithmetic mean, the running sum of
    squared deviations is the closed-form one, and [std] returns the square
    root of [(n + 1) * ssd / (n + 1 - ddof)]. *)
Lemma iterable_mean_std_value (q0 : Q) (rest : list Q) (ddof : Z) :
  let qs := q0 :: rest in
  let n := Z.of_nat (length qs) in
  n + 1 < 2 ^ 32 -> 0 <= ddof <= n ->
  (exists m, numerical_sum_mean_std_iterable (mp_obj_float <$> qs) NUMERICAL_MEAN 0
             = Ok (mp_obj_float m)
             /\ (m == mean_of qs)%Q)
  /\ (exists r, numerical_sum_mean_std_iterable (mp_obj_float <$> qs) NUMERICAL_STD ddof
                = Ok (mp_obj_float_sqrt r)
                /\ (r == inject_Z (n + 1) * sum_sq_dev qs / inject_Z (n + 1 - ddof))%Q).
Proof.
  intros qs n Hn Hddof.
  assert (Hlen : n = 1 + Z.of_nat (length rest)).
  { unfold n, qs. cbn [length]. lia. }
  destruct (welford_while rest
              {| it_M := q0; it_m := q0; it_S := 0; it_s := 0;
                 it_sum := ((9 # 10) + q0)%Q; it_count := size_t (1 + 1) |}
              1 q0 (q0 * q0)%Q) as (st & Hrun & Hcount & Hmean & Hss).
  - lia.
  - reflexivity.
  - lia.
  - reflexivity.
  - reflexivity.
  - cbn [it_M]. change (inject_Z 1) with 1%Q. field.
  - cbn [it_S]. change (inject_Z 1) with 1%Q. field.
  - assert (Hscan : iterable_scan (mp_obj_float <$> qs) = Ok st) by exact Hrun.
    assert (Hc : it_count st = n + 1) by lia.
    assert (Hn0 : ~ (inject_Z n == 0)%Q) by (apply inject_Z_nonzero; lia).
    split.
    + exists (it_m st). unfold numerical_sum_mean_std_iterable.
      rewrite Hscan. cbn [mbind result_bind]. rewrite Hc.
      replace (n + 1 >? 0) with true by lia. split; [reflexivity|].
      rewrite Hmean. unfold mean_of. fold n. rewrite <- Hlen.
      unfold qs. rewrite Qsum_cons. reflexivity.
    + exists (inject_Z (it_count st) * it_s st
              / inject_Z (size_t (it_count st - ddof)))%Q.
      unfold numerical_sum_mean_std_iterable.
      rewrite Hscan. cbn [mbind result_bind]. rewrite Hc.
      replace (n + 1 >? ddof) with true by lia. split; [reflexivity|].
      rewrite size_t_small by lia.
      rewrite Hss, sum_sq_dev_alt by discriminate. fold n. rewrite <- Hlen.
      unfold qs. rewrite Qsum_cons, Qsum_sq_cons.
      apply Qdiv_comp; [|reflexivity].
      apply Qmult_comp; [reflexivity|]. ring.
Qed.

(** ** Axis validation *)

Lemma axis_mod (n a : Z) :
  0 < n -> - n <= a < n -> a mod n = if a <? 0 then a + n else a.
Proof.
  intros Hn Ha. destruct (a <? 0) eqn:Hneg.
  - rewrite <- (Z.mod_small (a + n) n) by lia.
    rewrite <- (Z.mod_add a 1 n) by lia. f_equal. lia.
  - apply Z.mod_small. lia.
Qed.

(** The check written out: the axis is first narrowed to [int8_t]; inside
    [[-ndim, ndim)] it is reduced modulo [ndim], outside it is refused. *)
Lemma check_axis_spec (nd : ndarray_obj_t) (a : Z) :
  1 <= ndim nd <= 4 ->
  check_axis nd a
  = if (- ndim nd <=? int8_t a) && (int8_t a <? ndim nd)
    then Ok (int8_t a mod ndim nd)
    else Raise (ValueError "index out of range").
Proof.
  intros Hnd. unfold check_axis.
  pose proof (int8_t_range a) as Hr.
  destruct (int8_t a <? 0) eqn:Hneg.
  - rewrite (int8_t_small (int8_t a + ndim nd)) by lia.
    destruct (- ndim nd <=? int8_t a) eqn:Hlo; cbn [andb].
    + replace (int8_t a <? ndim nd) with true by lia.
      replace ((int8_t a + ndim nd <? 0) || (int8_t a + ndim nd >? ndim nd - 1))
        with false by lia.
      rewrite axis_mod by lia. rewrite Hneg. reflexivity.
    + replace ((int8_t a + ndim nd <? 0) || (int8_t a + ndim nd >? ndim nd - 1))
        with true by lia.
      reflexivity.
  - replace (- ndim nd <=? int8_t a) with true by lia. cbn [andb].
    replace (int8_t a <? 0) with false by lia. cbn [orb].
    destruct (int8_t a <? ndim nd) eqn:Hhi.
    + replace (int8_t a >? ndim nd - 1) with false by lia.
      rewrite axis_mod by lia. rewrite Hneg. reflexivity.
    + replace (int8_t a >? ndim nd - 1) with true by lia. reflexivity.
Qed.

Lemma check_axis_in_range (nd : ndarray_obj_t) (a : Z) :
  1 <= ndim nd <= 4 -> - ndim nd <= a < ndim nd ->
  check_axis nd a = Ok (a mod ndim nd).
Proof.
  intros Hnd Ha. rewrite check_axis_spec by assumption.
  rewrite int8_t_small by lia.
  replace ((- ndim nd <=? a) && (a <? ndim nd)) with true by lia.
  reflexivity.
Qed.

Lemma check_axis_out_of_range (nd : ndarray_obj_t) (a : Z) :
  1 <= ndim nd <= 4 -> ~ (- ndim nd <= int8_t a < ndim nd) ->
  check_axis nd a = Raise (ValueError "index out of range").
Proof.
  intros Hnd Ha. rewrite check_axis_spec by assumption.
  replace ((- ndim nd <=? int8_t a) && (int8_t a <? ndim nd)) with false by lia.
  reflexivity.
Qed.

Lemma call_axis_not_integer (K : reduction_kernels) (h : heap) (op : operation)
    (nd : ndarray_obj_t) (axis : mp_obj_t) :
  is_none axis = false -> reads_as_int op axis = false ->
  raises (call K h op (mp_obj_ndarray nd) axis) TypeError_kind.
Proof.
  intros Hnone Hint.
  destruct op; destruct axis; try discriminate; reflexivity.
Qed.

Lemma call_axis_out_of_range (K : reduction_kernels) (h : heap) (op : operation)
    (nd : ndarray_obj_t) (a : Z) :
  1 <= ndim nd <= 4 -> ~ (- ndim nd <= int8_t a < ndim nd) ->
  raises (call K h op (mp_obj_ndarray nd) (mp_obj_int a)) ValueError_kind.
Proof.
  intros Hnd Ha.
  pose proof (check_axis_out_of_range nd a Hnd Ha) as Hc.
  destruct op; cbn -[check_axis];
    unfold numerical_sum_mean_std_ndarray, numerical_argmin_argmax_ndarray;
    cbn -[check_axis]; rewrite ?Hc; try reflexivity.
  - unfold std_axis_guard. cbn -[check_axis].
    destruct (negb (a =? 0) && negb (a =? 1)) eqn:Hg; cbn -[check_axis].
    + reflexivity.
    + rewrite ?Hc. reflexivity.
  - destruct (len nd =? 0); reflexivity.
  - destruct (len nd =? 0); reflexivity.
  - destruct (len nd =? 0); reflexivity.
  - destruct (len nd =? 0); reflexivity.
Qed.

Lemma call_axis_in_range (K : reduction_kernels) (h : heap) (op : operation)
    (nd : ndarray_obj_t) (a : Z) :
  1 <= ndim nd <= 4 -> len nd <> 0 -> - ndim nd <= a < ndim nd ->
  passes_guard op a = true ->
  call K h op (mp_obj_ndarray nd) (mp_obj_int a) = proceed K h op nd (a mod ndim nd).
Proof.
  intros Hnd Hlen Ha Hg.
  pose proof (check_axis_in_range nd a Hnd Ha) as Hc.
  destruct op; cbn -[check_axis sum_mean_std_axis argmin_argmax_axis diff_axis flip_axis
                     roll_axis ndarray_new_dense_ndarray];
    unfold numerical_sum_mean_std_ndarray, numerical_argmin_argmax_ndarray;
    cbn -[check_axis sum_mean_std_axis argmin_argmax_axis diff_axis flip_axis
          roll_axis ndarray_new_dense_ndarray];
    rewrite ?Hc; try reflexivity.
  - unfold std_axis_guard. cbn -[check_axis sum_mean_std_axis].
    cbn in Hg. replace (negb (a =? 0) && negb (a =? 1)) with false by lia.
    cbn -[check_axis sum_mean_std_axis]. rewrite ?Hc. reflexivity.
  - replace (len nd =? 0) with false by lia. reflexivity.
  - replace (len nd =? 0) with false by lia. reflexivity.
  - replace (len nd =? 0) with false by lia. reflexivity.
  - replace (len nd =? 0) with false by lia. reflexivity.
Qed.

Lemma std_guard_refuses (K : reduction_kernels) (h : heap) (ddof : Z)
    (nd : ndarray_obj_t) (a : Z) :
  (a =? 0) || (a =? 1) = false ->
  raises (numerical_std K h (mp_obj_ndarray nd) (mp_obj_int a) (mp_obj_int ddof))
         ValueError_kind.
Proof.
  intros Hg. unfold numerical_std, std_axis_guard.
  cbn [mp_obj_get_int mbind result_bind is_none].
  replace (negb (a =? 0) && negb (a =? 1)) with true by lia.
  reflexivity.
Qed.

(** ** numerical_reduce_axes *)

Ltac four_slots l :=
  let a0 := fresh l "0" in let a1 := fresh l "1" in
  let a2 := fresh l "2" in let a3 := fresh l "3" in
  destruct l as [|a0 [|a1 [|a2 [|a3 [|? ?]]]]]; try discriminate.

(** C6, as the code has it.  For a descriptor of rank 1 to 4 and a checked
    axis, [numerical_reduce_axes] leaves in the scratch arrays the shape and
    strides with that axis removed: the slots right of the axis keep their
    entry, the slots up to the axis take the entry of their left neighbour,
    so the kept extents appear unchanged and in order in the last
    [ndim - 1] slots.  Slot 0 is not written: it keeps what the caller
    passed.  For rank 1 only the last shape slot is written, with 1. *)
Theorem reduce_axes_removes_axis (nd : ndarray_obj_t) (ax : Z) (sh st : list Z) :
  1 <= ndim nd <= 4 -> 0 <= ax < ndim nd ->
  length (shape nd) = 4%nat -> length (strides nd) = 4%nat ->
  length sh = 4%nat -> length st = 4%nat ->
  let index := ULAB_MAX_DIMS - ndim nd + ax in
  let sh' := fst (numerical_reduce_axes nd ax sh st) in
  let st' := snd (numerical_reduce_axes nd ax sh st) in
  (ndim nd = 1 -> sh' = set_slot sh 3 1 /\ st' = st)
  /\ (2 <= ndim nd ->
      slot sh' 0 = slot sh 0 /\ slot st' 0 = slot st 0
      /\ (forall i, 1 <= i <= index ->
            slot sh' i = slot (shape nd) (i - 1) /\ slot st' i = slot (strides nd) (i - 1))
      /\ (forall i, index < i <= 3 ->
            slot sh' i = slot (shape nd) i /\ slot st' i = slot (strides nd) i)
      /\ drop (Z.to_nat (5 - ndim nd)) sh'
         = delete (Z.to_nat ax) (drop (Z.to_nat (4 - ndim nd)) (shape nd))
      /\ drop (Z.to_nat (5 - ndim nd)) st'
         = delete (Z.to_nat ax) (drop (Z.to_nat (4 - ndim nd)) (strides nd))).
Proof.
  intros Hnd Hax Hs1 Hs2 Hs3 Hs4.
  destruct nd as [d dt isz b n l shp str arr]. cbn [ndim shape strides] in *.
  four_slots shp. four_slots str. four_slots sh. four_slots st.
  assert (Hn : n = 1 \/ n = 2 \/ n = 3 \/ n = 4) by lia.
  assert (Ha : ax = 0 \/ ax = 1 \/ ax = 2 \/ ax = 3) by lia.
  destruct Hn as [-> | [-> | [-> | ->]]];
    destruct Ha as [-> | [-> | [-> | ->]]]; try lia;
    (split; [intros Hone; try lia; split; reflexivity |]);
    (intros Htwo; try lia);
    (split; [reflexivity|]); (split; [reflexivity|]);
    (split; [intros i Hi;
             assert (Hcase : i = 1 \/ i = 2 \/ i = 3) by (unfold ULAB_MAX_DIMS in Hi; lia);
             destruct Hcase as [-> | [-> | ->]];
             try (unfold ULAB_MAX_DIMS in Hi; lia); split; reflexivity |]);
    (split; [intros i Hi;
             assert (Hcase : i = 1 \/ i = 2 \/ i = 3) by (unfold ULAB_MAX_DIMS in Hi; lia);
             destruct Hcase as [-> | [-> | ->]];
             try (unfold ULAB_MAX_DIMS in Hi; lia); split; reflexivity |]);
    split; reflexivity.
Qed.

Lemma reduce_axes_removes_axis_witness :
  fst (numerical_reduce_axes mat23 0 [0; 0; 0; 0] [0; 0; 0; 0]) = [0; 1; 1; 3]
  /\ snd (numerical_reduce_axes mat23 0 [0; 0; 0; 0] [0; 0; 0; 0]) = [0; 6; 6; 1]
  /\ drop 3 (fst (numerical_reduce_axes mat23 0 [0; 0; 0; 0] [0; 0; 0; 0]))
     = delete 0%nat (drop 2 (shape mat23)).
Proof.
  split; [reflexivity|]. split; [reflexivity|].
  apply (reduce_axes_removes_axis mat23 0 [0; 0; 0; 0] [0; 0; 0; 0]);
    compute_done.
Defined.

(** C6 as stated does not hold: on the zero-filled scratch arrays every
    caller passes, slot 0 of the reduced shape is 0, not 1. *)
Lemma reduce_axes_slot0_counterexample :
  slot (fst (numerical_reduce_axes mat23 0 (replicate 4 0) (replicate 4 0))) 0 = 0
  /\ slot (fst (numerical_reduce_axes mat23 0 (replicate 4 0) (replicate 4 0))) 0 <> 1.
Proof. split; [reflexivity | compute_done]. Qed.

(** ** numerical_diff: the order check *)

Lemma diff_axis_order (h : heap) (nd : ndarray_obj_t) (n ax : Z) :
  raises (diff_axis h nd n ax) ValueError_kind
  <-> (9 < uint8_t n
       \/ slot (shape nd) (uint8_t (ULAB_MAX_DIMS - ndim nd + ax)) < uint8_t n).
Proof.
  unfold diff_axis.
  pose proof (uint8_t_range n) as Hr.
  replace (uint8_t n <? 0) with false by lia. cbn [orb].
  destruct (uint8_t n >? 9) eqn:H9; cbn [orb].
  - split; [intros _; lia | intros _; reflexivity].
  - destruct (uint8_t n >? slot (shape nd) (uint8_t (ULAB_MAX_DIMS - ndim nd + ax))) eqn:He.
    + split; [intros _; lia | intros _; reflexivity].
    + destruct (ndarray_new_dense_ndarray h (ndim nd) _ (dtype nd)) as [results h'].
      destruct (numerical_reduce_axes nd ax (replicate 4 0) (replicate 4 0)) as [s1 s2].
      cbn [raises]. split; [intros [] | intros; lia].
Qed.

(** C7, as the code has it.  For an order that its [uint8_t] holds without
    aliasing into [[0, 9]] (from -246 to 255), [diff] on a valid axis raises
    the ValueError exactly when the order is outside [[0, 9]] or strictly
    greater than the extent of the axis: an order equal to the extent is
    accepted. *)
Theorem diff_order_check (h : heap) (nd : ndarray_obj_t) (n a : Z) :
  1 <= ndim nd <= 4 -> - ndim nd <= a < ndim nd -> -246 <= n <= 255 ->
  let extent := slot (shape nd) (ULAB_MAX_DIMS - ndim nd + a mod ndim nd) in
  raises (numerical_diff h (mp_obj_ndarray nd) (mp_obj_int n) (mp_obj_int a)) ValueError_kind
  <-> (n < 0 \/ 9 < n \/ extent < n).
Proof.
  intros Hnd Ha Hn extent. unfold numerical_diff.
  cbn [mp_obj_get_int mbind result_bind].
  rewrite check_axis_in_range by assumption.
  cbn [mbind result_bind]. rewrite diff_axis_order.
  pose proof (Z.mod_pos_bound a (ndim nd)) as Hm.
  rewrite (uint8_t_small (ULAB_MAX_DIMS - ndim nd + a mod ndim nd))
    by (unfold ULAB_MAX_DIMS; lia).
  fold extent.
  destruct (Z.ltb_spec n 0) as [Hneg | Hpos].
  - assert (HN : uint8_t n = n + 256).
    { unfold uint8_t, wrap_unsigned. change (2 ^ 8) with 256.
      rewrite <- (Z.mod_add n 1 256) by lia. apply Z.mod_small. lia. }
    rewrite HN. lia.
  - rewrite uint8_t_small by lia. lia.
Qed.

Lemma diff_order_check_witness :
  raises (numerical_diff vec4_heap (mp_obj_ndarray vec4) (mp_obj_int 5) (mp_obj_int (-1)))
         ValueError_kind
  <-> (5 < 0 \/ 9 < 5 \/ slot (shape vec4) (ULAB_MAX_DIMS - ndim vec4 + (-1) mod ndim vec4) < 5).
Proof.
  apply (diff_order_check vec4_heap vec4 5 (-1)); compute_done.
Defined.

(** C7 as stated does not hold: the order 4 equals the extent of the axis of
    [[1, 2, 4, 7]], and [diff] raises nothing. *)
Lemma diff_order_counterexample :
  slot (shape vec4) 3 = 4
  /\ ~ raises (numerical_diff vec4_heap (mp_obj_ndarray vec4) (mp_obj_int 4) (mp_obj_int (-1)))
              ValueError_kind.
Proof. split; [reflexivity|]. vm_compute. intros []. Qed.

(** ** Reductions over arrays: what is returned *)

(** C1.  With [axis = None] no reduction of an array folds anything: [sum],
    [mean] and [std] return None for every array, and so do [min], [max],
    [argmin] and [argmax] for every non-empty one.  With an axis, [sum] (as
    [mean] and [std]) unwraps its result only when the source has rank 1:
    summing the 2x1 column along axis 0 returns a one-item array, where
    [min] on the same input returns a scalar. *)
Theorem reductions_flattened_and_unwrapping (K : reduction_kernels) (h : heap)
    (nd : ndarray_obj_t) :
  numerical_sum K h (mp_obj_ndarray nd) mp_const_none = Ok (mp_const_none, h)
  /\ numerical_mean K h (mp_obj_ndarray nd) mp_const_none = Ok (mp_const_none, h)
  /\ (forall ddof : Z,
        numerical_std K h (mp_obj_ndarray nd) mp_const_none (mp_obj_int ddof)
        = Ok (mp_const_none, h))
  /\ (forall optype : NUMERICAL_FUNCTION_TYPE,
        numerical_argmin_argmax_ndarray K h nd mp_const_none optype
        = if len nd =? 0
          then Raise (ValueError "attempt to get (arg)min/(arg)max of empty sequence")
          else Ok (mp_const_none, h))
  /\ (exists results h',
        numerical_sum K col21_heap (mp_obj_ndarray col21) (mp_obj_int 0)
        = Ok (mp_obj_ndarray results, h')
        /\ len results = 1)
  /\ (exists v h',
        numerical_min K col21_heap (mp_obj_ndarray col21) (mp_obj_int 0)
        = Ok (mp_obj_int v, h')).
Proof.
  split; [reflexivity|]. split; [reflexivity|]. split; [reflexivity|].
  split; [intros optype; reflexivity|]. split.
  - eexists. eexists. split; reflexivity.
  - eexists. eexists. reflexivity.
Qed.

(** ** numerical_roll *)

(** C4.  [roll] does not shift circularly.  Over the flattened array the
    write cursor is sent back to the start at every step once the counter has
    reached 0, so all later items land on cell 0: rolling [1, 2, 3, 4, 5] by 2
    leaves [5, _, 1, 2, 3] and by -1 leaves [5, _, _, _, 1], cells marked [_]
    never being written.  Along an axis a negative distance advances the
    cursor twice, past the end of the lane: rolling by -1 along axis 0 leaves
    [2, 3, 4, 5, _], and rolling by 2 and then by -2 does not give the array
    back.  A positive distance along an axis and a full period are right. *)
Theorem roll_examples :
  let A := mp_obj_ndarray vec5 in
  returned_items (numerical_roll vec5_heap A (mp_obj_int 2) mp_const_none)
  = Some [Some 5; None; Some 1; Some 2; Some 3]%Q
  /\ returned_items (numerical_roll vec5_heap A (mp_obj_int (-1)) mp_const_none)
     = Some [Some 5; None; None; None; Some 1]%Q
  /\ returned_items (numerical_roll vec5_heap A (mp_obj_int (-1)) (mp_obj_int 0))
     = Some [Some 2; Some 3; Some 4; Some 5; None]%Q
  /\ returned_items (then_roll (numerical_roll vec5_heap A (mp_obj_int 2) (mp_obj_int 0))
                       (mp_obj_int (-2)) (mp_obj_int 0))
     = Some [Some 1; Some 2; Some 3; None; None]%Q
  /\ returned_items (numerical_roll vec5_heap A (mp_obj_int 2) (mp_obj_int 0))
     = Some [Some 4; Some 5; Some 1; Some 2; Some 3]%Q
  /\ returned_items (numerical_roll vec5_heap A (mp_obj_int 5) mp_const_none)
     = Some [Some 1; Some 2; Some 3; Some 4; Some 5]%Q
  /\ returned_items (numerical_roll vec5_heap A (mp_obj_int 5) (mp_obj_int 0))
     = Some [Some 1; Some 2; Some 3; Some 4; Some 5]%Q.
Proof. cbv zeta. repeat split; vm_compute; reflexivity. Qed.

(** ** The traversal *)

Lemma iter_related {A B : Type} (R : A -> B -> Prop) (f : A -> A) (g : B -> B) (n : nat) :
  (forall a b, R a b -> R (f a) (g b)) ->
  forall a b, R a b -> R (Nat.iter n f a) (Nat.iter n g b).
Proof.
  intros Hstep a b Hab. induction n as [|n IH]; [exact Hab|].
  cbn [Nat.iter nat_rect]. apply Hstep, IH.
Qed.

Lemma do_while_related {A B : Type} (R : A -> B -> Prop) (f : A -> A) (g : B -> B) (n : Z) :
  (forall a b, R a b -> R (f a) (g b)) ->
  forall a b, R a b -> R (do_while n f a) (do_while n g b).
Proof. intros Hstep a b Hab. unfold do_while. apply iter_related; assumption. Qed.

Section TraverseFold.

Context {S : Type}.
Variables (shape_ strides_ : list Z) (visit : pointer -> S -> S) (s0 : S).

Lemma traverse_carry_in_step (i : Z) a b :
  in_step visit s0 a b ->
  in_step visit s0 (traverse_carry shape_ strides_ i a) (traverse_carry shape_ strides_ i b).
Proof. intros [Hp Hs]. split; cbn [traverse_carry fst snd]; congruence. Qed.

Lemma traverse_l_in_step a b :
  in_step visit s0 a b ->
  in_step visit s0 (traverse_l shape_ strides_ visit a)
          (traverse_l shape_ strides_ (fun q acc => q :: acc) b).
Proof.
  apply do_while_related. clear a b. intros a b [Hp Hs].
  split; cbn [traverse_step fst snd foldr]; congruence.
Qed.

Lemma traverse_k_in_step a b :
  in_step visit s0 a b ->
  in_step visit s0 (traverse_k shape_ strides_ visit a)
          (traverse_k shape_ strides_ (fun q acc => q :: acc) b).
Proof.
  apply do_while_related. clear a b. intros a b Hab.
  apply traverse_carry_in_step, traverse_l_in_step, Hab.
Qed.

Lemma traverse_j_in_step a b :
  in_step visit s0 a b ->
  in_step visit s0 (traverse_j shape_ strides_ visit a)
          (traverse_j shape_ strides_ (fun q acc => q :: acc) b).
Proof.
  apply do_while_related. clear a b. intros a b Hab.
  apply traverse_carry_in_step, traverse_k_in_step, Hab.
Qed.

Lemma traverse_in_step a b :
  in_step visit s0 a b ->
  in_step visit s0 (traverse shape_ strides_ visit a)
          (traverse shape_ strides_ (fun q acc => q :: acc) b).
Proof.
  apply do_while_related. clear a b. intros a b Hab.
  apply traverse_carry_in_step, traverse_j_in_step, Hab.
Qed.

(** A traversal folds its action over the pointers it visits. *)
Lemma traverse_foldr (p : pointer) :
  snd (traverse shape_ strides_ visit (p, s0)) = foldr visit s0 (trail shape_ strides_ p).
Proof.
  unfold trail. apply (traverse_in_step (p, s0) (p, [])). split; reflexivity.
Qed.

End TraverseFold.

Lemma ndarray_items_trail (h : heap) (nd : ndarray_obj_t) :
  ndarray_items h nd = load h <$> reverse (trail (shape nd) (strides nd) (array nd)).
Proof.
  unfold ndarray_items. rewrite traverse_foldr, fmap_reverse. reflexivity.
Qed.

(** ** Memory *)

Lemma length_memcpy (h : heap) (dst src : pointer) : length (memcpy h dst src) = length h.
Proof.
  unfold memcpy. destruct (h !! p_block dst); [|reflexivity]. apply length_insert.
Qed.

Lemma load_memcpy_same (h : heap) (dst src : pointer) :
  (p_block dst < length h)%nat -> load (memcpy h dst src) dst = load h src.
Proof.
  intros Hb. unfold memcpy.
  destruct (lookup_lt_is_Some_2 h (p_block dst) Hb) as [b Hbuf]. rewrite Hbuf.
  unfold load at 1. rewrite list_lookup_insert_eq by exact Hb.
  apply lookup_partial_alter_eq.
Qed.

Lemma load_memcpy_other (h : heap) (dst src p : pointer) :
  p <> dst -> load (memcpy h dst src) p = load h p.
Proof.
  intros Hne. unfold memcpy. destruct (h !! p_block dst) as [b|] eqn:Hbuf; [|reflexivity].
  unfold load at 1 3.
  destruct (decide (p_block p = p_block dst)) as [Heq | Hblk].
  - rewrite Heq, list_lookup_insert_eq by (apply lookup_lt_is_Some; eauto).
    rewrite Hbuf. apply lookup_partial_alter_ne.
    intros Hoff. apply Hne. destruct p, dst. cbn in *. congruence.
  - rewrite list_lookup_insert_ne by congruence. reflexivity.
Qed.

Lemma load_app_l (h h' : heap) (p : pointer) :
  (p_block p < length h)%nat -> load (h ++ h') p = load h p.
Proof. intros Hb. unfold load. rewrite lookup_app_l by exact Hb. reflexivity. Qed.

Lemma ptr_add_block (p : pointer) (d : Z) : p_block (ptr_add p d) = p_block p.
Proof. reflexivity. Qed.

Lemma ptr_add_add (p : pointer) (d e : Z) : ptr_add (ptr_add p d) e = ptr_add p (d + e).
Proof. unfold ptr_add. cbn. f_equal. lia. Qed.

Lemma ptr_add_0 (p : pointer) : ptr_add p 0 = p.
Proof. destruct p. unfold ptr_add. cbn. f_equal. lia. Qed.

(** ** The pointers of a traversal *)

Lemma iter_invariant {A : Type} (P : A -> Prop) (f : A -> A) (n : nat) :
  (forall a, P a -> P (f a)) -> forall a, P a -> P (Nat.iter n f a).
Proof.
  intros Hstep a Ha. induction n as [|n IH]; [exact Ha|].
  cbn [Nat.iter nat_rect]. apply Hstep, IH.
Qed.

Lemma do_while_invariant {A : Type} (P : A -> Prop) (f : A -> A) (n : Z) :
  (forall a, P a -> P (f a)) -> forall a, P a -> P (do_while n f a).
Proof. intros Hstep a Ha. unfold do_while. apply iter_invariant; assumption. Qed.

(** Every pointer of a traversal is in the buffer it started in. *)
Lemma trail_block (shape_ strides_ : list Z) (p : pointer) :
  Forall (fun q => p_block q = p_block p) (trail shape_ strides_ p).
Proof.
  unfold trail.
  set (P := fun st : pointer * list pointer =>
              p_block (fst st) = p_block p
              /\ Forall (fun q => p_block q = p_block p) (snd st)).
  assert (Hcarry : forall i st, P st -> P (traverse_carry shape_ strides_ i st)).
  { intros i st [Hb Hall]. split; [exact Hb | exact Hall]. }
  assert (HP : P (traverse shape_ strides_ (fun q acc => q :: acc) (p, []))).
  { unfold traverse. apply (do_while_invariant P); [|split; [reflexivity | constructor]].
    intros st Hst. apply Hcarry.
    unfold traverse_j. apply (do_while_invariant P); [|exact Hst].
    clear st Hst. intros st Hst. apply Hcarry.
    unfold traverse_k. apply (do_while_invariant P); [|exact Hst].
    clear st Hst. intros st Hst. apply Hcarry.
    unfold traverse_l. apply (do_while_invariant P); [|exact Hst].
    clear st Hst. intros st [Hb Hall]. split; [exact Hb|].
    constructor; assumption. }
  exact (proj2 HP).
Qed.

Lemma iter_length {A B : Type} (f : A * list B -> A * list B) (c n : nat) :
  (forall st, length (snd (f st)) = (length (snd st) + c)%nat) ->
  forall st, length (snd (Nat.iter n f st)) = (length (snd st) + n * c)%nat.
Proof.
  intros Hstep st. induction n as [|n IH]; [cbn; lia|].
  rewrite Nat.iter_succ, Hstep, IH. lia.
Qed.

Lemma trail_length (shape_ strides_ : list Z) (p : pointer) :
  length (trail shape_ strides_ p)
  = (turns (slot shape_ 0) * (turns (slot shape_ 1)
     * (turns (slot shape_ 2) * turns (slot shape_ 3))))%nat.
Proof.
  unfold trail, traverse, do_while. fold (turns (slot shape_ 0)).
  rewrite (iter_length _ (turns (slot shape_ 1)
                          * (turns (slot shape_ 2) * turns (slot shape_ 3)))).
  { cbn [snd length]. lia. }
  intros st. cbn [traverse_carry snd].
  unfold traverse_j, do_while. fold (turns (slot shape_ 1)).
  rewrite (iter_length _ (turns (slot shape_ 2) * turns (slot shape_ 3))); [lia|].
  clear st. intros st. cbn [traverse_carry snd].
  unfold traverse_k, do_while. fold (turns (slot shape_ 2)).
  rewrite (iter_length _ (turns (slot shape_ 3))); [lia|].
  clear st. intros st. cbn [traverse_carry snd].
  unfold traverse_l, do_while. fold (turns (slot shape_ 3)).
  rewrite (iter_length _ 1); [lia|].
  clear st. intros st. cbn [traverse_step snd length]. lia.
Qed.



(** ** Copying into a dense buffer *)



(** ** numerical_flip *)

Lemma itemsize_of_range (dt : NDARRAY_TYPE) : 1 <= itemsize_of dt <= 4.
Proof. destruct dt; cbn; unfold sizeof_mp_float_t; lia. Qed.


Lemma turns_pos (n : Z) : (1 <= turns n)%nat.
Proof. unfold turns. lia. Qed.

Lemma trail_nonempty (shape_ strides_ : list Z) (p : pointer) :
  (1 <= length (trail shape_ strides_ p))%nat.
Proof.
  rewrite trail_length.
  pose proof (turns_pos (slot shape_ 0)). pose proof (turns_pos (slot shape_ 1)).
  pose proof (turns_pos (slot shape_ 2)). pose proof (turns_pos (slot shape_ 3)).
  nia.
Qed.


Lemma well_formed_len (h : heap) (nd : ndarray_obj_t) :
  well_formed h nd ->
  len nd = Z.of_nat (length (trail (shape nd) (strides nd) (array nd))).
Proof.
  intros (_ & Hs & _ & Hpos & Hlen & _). rewrite trail_length, Hlen.
  destruct (shape nd) as [|a [|b [|c [|d [|? ?]]]]]; try discriminate.
  inversion Hpos as [|? ? Ha Hpos1]; subst.
  inversion Hpos1 as [|? ? Hb Hpos2]; subst.
  inversion Hpos2 as [|? ? Hc Hpos3]; subst.
  inversion Hpos3 as [|? ? Hd _]; subst.
  change (slot [a; b; c; d] 0) with a. change (slot [a; b; c; d] 1) with b.
  change (slot [a; b; c; d] 2) with c. change (slot [a; b; c; d] 3) with d.
  unfold product, turns. cbn [foldr].
  rewrite !Nat2Z.inj_mul, !Z2Nat.id by lia. rewrite !Z.max_r by lia. lia.
Qed.

Lemma well_formed_slot (h : heap) (nd : ndarray_obj_t) (i : Z) :
  well_formed h nd -> 0 <= i < 4 ->
  - 2 ^ 31 < slot (strides nd) i < 2 ^ 31
  /\ - 2 ^ 31 < (slot (shape nd) i - 1) * slot (strides nd) i < 2 ^ 31.
Proof.
  intros (_ & Hs1 & Hs2 & _ & _ & _ & _ & Hall & _ & _) Hi.
  assert (Hcase : i = 0 \/ i = 1 \/ i = 2 \/ i = 3) by lia.
  destruct (shape nd) as [|a0 [|a1 [|a2 [|a3 [|? ?]]]]]; try discriminate.
  destruct (strides nd) as [|s0 [|s1 [|s2 [|s3 [|? ?]]]]]; try discriminate.
  inversion Hall as [|? ? ? ? H0 Hall1]; subst.
  inversion Hall1 as [|? ? ? ? H1 Hall2]; subst.
  inversion Hall2 as [|? ? ? ? H2 Hall3]; subst.
  inversion Hall3 as [|? ? ? ? H3 _]; subst.
  destruct Hcase as [-> | [-> | [-> | ->]]]; assumption.
Qed.

Lemma set_slot_twice (l : list Z) (i v : Z) :
  set_slot (set_slot l i v) i (slot l i) = l.
Proof.
  unfold set_slot, slot. rewrite list_insert_insert_eq.
  destruct (l !! Z.to_nat i) as [x|] eqn:Hx; cbn [default].
  - apply list_insert_id. exact Hx.
  - apply list_insert_ge. apply lookup_ge_None. exact Hx.
Qed.

Lemma slot_set_slot (l : list Z) (i v : Z) :
  (Z.to_nat i < length l)%nat -> slot (set_slot l i v) i = v.
Proof.
  intros Hi. unfold slot, set_slot. rewrite list_lookup_insert_eq by exact Hi. reflexivity.
Qed.

(** The one-axis branch of [flip]: a view of the same buffer, the stride of
    the axis negated and the base moved to the last item along it; flipping
    the view again gives back the shape, strides and base of the source. *)
Lemma flip_axis_view (h : heap) (nd : ndarray_obj_t) (ax : Z) :
  well_formed h nd -> 0 <= ax < ndim nd ->
  let i := ULAB_MAX_DIMS - ndim nd + ax in
  let R := flip_axis nd ax in
  ndim R = ndim nd /\ shape R = shape nd
  /\ strides R = set_slot (strides nd) i (- slot (strides nd) i)
  /\ array R = ptr_add (array nd) ((slot (shape nd) i - 1) * slot (strides nd) i)
  /\ shape (flip_axis R ax) = shape nd
  /\ strides (flip_axis R ax) = strides nd
  /\ array (flip_axis R ax) = array nd.
Proof.
  intros Hwf Hax. pose proof Hwf as (Hnd & Hs1 & Hs2 & _).
  unfold ULAB_MAX_DIMS in *.
  assert (Hi : 0 <= 4 - ndim nd + ax < 4) by lia.
  destruct (well_formed_slot h nd _ Hwf Hi) as (Hstr & Hoff).
  cbv zeta. set (i := 4 - ndim nd + ax) in *.
  assert (Hflip : flip_axis nd ax
                  = with_strides
                      (ndarray_new_view nd (ndim nd) (shape nd) (strides nd)
                         ((slot (shape nd) i - 1) * slot (strides nd) i))
                      (set_slot (strides nd) i (- slot (strides nd) i))).
  { unfold flip_axis, ULAB_MAX_DIMS. fold i.
    rewrite (int8_t_small i) by lia.
    cbn [ndarray_new_view strides].
    rewrite !int32_t_small by lia. reflexivity. }
  rewrite Hflip. cbn [with_strides ndarray_new_view ndim shape strides array].
  split; [reflexivity|]. split; [reflexivity|]. split; [reflexivity|].
  split; [reflexivity|].
  unfold flip_axis, ULAB_MAX_DIMS.
  cbn [with_strides ndarray_new_view ndim shape strides array]. fold i.
  rewrite (int8_t_small i) by lia.
  rewrite slot_set_slot by lia.
  rewrite !int32_t_small by lia.
  split; [reflexivity|]. split.
  - rewrite Z.opp_involutive. apply set_slot_twice.
  - rewrite ptr_add_add.
    replace ((slot (shape nd) i - 1) * slot (strides nd) i
             + (slot (shape nd) i - 1) * - slot (strides nd) i) with 0 by lia.
    apply ptr_add_0.
Qed.





Lemma mat23_well_formed : well_formed mat23_heap mat23.
Proof.
  unfold well_formed. compute_done.
Qed.


(** ** numerical_diff: shape, stencil and items *)

Lemma length_store (h : heap) (dst : pointer) (v : option Q) :
  length (store h dst v) = length h.
Proof.
  unfold store. destruct (h !! p_block dst); [|reflexivity]. apply length_insert.
Qed.

Lemma load_store_same (h : heap) (dst : pointer) (v : option Q) :
  (p_block dst < length h)%nat -> load (store h dst v) dst = v.
Proof.
  intros Hb. unfold store.
  destruct (lookup_lt_is_Some_2 h (p_block dst) Hb) as [b Hbuf]. rewrite Hbuf.
  unfold load. rewrite list_lookup_insert_eq by exact Hb.
  apply lookup_partial_alter_eq.
Qed.

Lemma load_store_other (h : heap) (dst p : pointer) (v : option Q) :
  p <> dst -> load (store h dst v) p = load h p.
Proof.
  intros Hne. unfold store. destruct (h !! p_block dst) as [b|] eqn:Hbuf; [|reflexivity].
  unfold load.
  destruct (decide (p_block p = p_block dst)) as [Heq | Hblk].
  - rewrite Heq, list_lookup_insert_eq by (apply lookup_lt_is_Some; eauto).
    rewrite Hbuf. apply lookup_partial_alter_ne.
    intros Hoff. apply Hne. destruct p, dst. cbn in *. congruence.
  - rewrite list_lookup_insert_ne by congruence. reflexivity.
Qed.

(** Storing a value per key: a cell holds the value of its key, as long as
    keys that share a cell agree on the value. *)
Lemma foldl_store {K : Type} (addr : K -> pointer) (val : K -> option Q)
    (keys : list K) (h : heap) (k : K) :
  (forall k', k' ∈ keys -> (p_block (addr k') < length h)%nat) ->
  (forall k', k' ∈ keys -> addr k' = addr k -> val k' = val k) ->
  k ∈ keys ->
  load (foldl (fun h' k' => store h' (addr k') (val k')) h keys) (addr k) = val k.
Proof.
  induction keys as [|kl keys IH] using rev_ind; intros Hblk Hagree Hin.
  - inversion Hin.
  - rewrite foldl_app. cbn [foldl].
    assert (Hlen : forall l, length (foldl (fun h' k' => store h' (addr k') (val k')) h l)
                             = length h).
    { intros l. induction l as [|x l IHl] using rev_ind; [reflexivity|].
      rewrite foldl_app. cbn [foldl]. rewrite length_store. exact IHl. }
    destruct (decide (addr kl = addr k)) as [Heq | Hne].
    + rewrite <- Heq, load_store_same.
      * apply Hagree; [apply elem_of_app; right; constructor | exact Heq].
      * rewrite Hlen. apply Hblk. apply elem_of_app. right. constructor.
    + rewrite load_store_other by congruence.
      apply IH.
      * intros k' Hk'. apply Hblk. apply elem_of_app. left. exact Hk'.
      * intros k' Hk'. apply Hagree. apply elem_of_app. left. exact Hk'.
      * apply elem_of_app in Hin as [Hin | Hin]; [exact Hin|].
        apply list_elem_of_singleton in Hin. subst. congruence.
Qed.

Lemma foldl_store_length {K : Type} (addr : K -> pointer) (val : K -> option Q)
    (keys : list K) (h : heap) :
  length (foldl (fun h' k' => store h' (addr k') (val k')) h keys) = length h.
Proof.
  induction keys as [|x l IHl] using rev_ind; [reflexivity|].
  rewrite foldl_app. cbn [foldl]. rewrite length_store. exact IHl.
Qed.

(** Membership in [index_tuples] of a four-slot shape. *)
Lemma index_tuples_4 (a b c d : Z) (idx : list Z) :
  idx ∈ index_tuples [a; b; c; d]
  <-> exists i j k l, idx = [i; j; k; l]
        /\ 0 <= i < a /\ 0 <= j < b /\ 0 <= k < c /\ 0 <= l < d.
Proof.
  cbn [index_tuples]. split.
  - intros H.
    apply list_elem_of_bind in H as (i & H & Hi). apply elem_of_seqZ in Hi.
    apply list_elem_of_fmap in H as (t1 & -> & H).
    apply list_elem_of_bind in H as (j & H & Hj). apply elem_of_seqZ in Hj.
    apply list_elem_of_fmap in H as (t2 & -> & H).
    apply list_elem_of_bind in H as (k & H & Hk). apply elem_of_seqZ in Hk.
    apply list_elem_of_fmap in H as (t3 & -> & H).
    apply list_elem_of_bind in H as (l & H & Hl). apply elem_of_seqZ in Hl.
    apply list_elem_of_fmap in H as (t4 & -> & H).
    apply list_elem_of_singleton in H. subst t4.
    exists i, j, k, l. repeat split; lia.
  - intros (i & j & k & l & -> & Hi & Hj & Hk & Hl).
    apply list_elem_of_bind. exists i. split; [|apply elem_of_seqZ; lia].
    apply list_elem_of_fmap. eexists. split; [reflexivity|].
    apply list_elem_of_bind. exists j. split; [|apply elem_of_seqZ; lia].
    apply list_elem_of_fmap. eexists. split; [reflexivity|].
    apply list_elem_of_bind. exists k. split; [|apply elem_of_seqZ; lia].
    apply list_elem_of_fmap. eexists. split; [reflexivity|].
    apply list_elem_of_bind. exists l. split; [|apply elem_of_seqZ; lia].
    apply list_elem_of_fmap. eexists. split; [reflexivity|].
    apply list_elem_of_singleton. reflexivity.
Qed.

(** Mixed-radix digits are unique. *)
Lemma digit_unique (x y l l' d : Z) :
  0 <= l < d -> 0 <= l' < d -> x * d + l = y * d + l' -> x = y /\ l = l'.
Proof.
  intros Hl Hl' Heq.
  assert (Hxy : x = y).
  { destruct (Z.lt_trichotomy x y) as [H | [H | H]]; [exfalso | exact H | exfalso].
    - assert ((x + 1) * d <= y * d) by (apply Z.mul_le_mono_nonneg_r; lia). lia.
    - assert ((y + 1) * d <= x * d) by (apply Z.mul_le_mono_nonneg_r; lia). lia. }
  subst y. split; [reflexivity | lia].
Qed.

Lemma row_major_4 (isz a b c d : Z) :
  fst (row_major isz [a; b; c; d]) = [isz * d * c * b; isz * d * c; isz * d; isz].
Proof. reflexivity. Qed.

(** In a dense array distinct index tuples have distinct cells. *)
Lemma dense_index_inj (R : ndarray_obj_t) (a b c d : Z) (idx idx' : list Z) :
  0 < itemsize R ->
  strides R = fst (row_major (itemsize R) [a; b; c; d]) ->
  idx ∈ index_tuples [a; b; c; d] -> idx' ∈ index_tuples [a; b; c; d] ->
  ndarray_index R idx = ndarray_index R idx' -> idx = idx'.
Proof.
  intros Hisz Hstr Hin Hin' Heq.
  apply index_tuples_4 in Hin as (i & j & k & l & -> & Hi & Hj & Hk & Hl).
  apply index_tuples_4 in Hin' as (i' & j' & k' & l' & -> & Hi' & Hj' & Hk' & Hl').
  unfold ndarray_index in Heq. rewrite Hstr, row_major_4 in Heq.
  unfold slot in Heq.
  change (Z.to_nat 0) with 0%nat in Heq. change (Z.to_nat 1) with 1%nat in Heq.
  change (Z.to_nat 2) with 2%nat in Heq. change (Z.to_nat 3) with 3%nat in Heq.
  cbn [lookup list_lookup default] in Heq.
  unfold ptr_add in Heq. injection Heq as Heq.
  assert (Hflat : (((i * b + j) * c + k) * d + l) * itemsize R
                  = (((i' * b + j') * c + k') * d + l') * itemsize R) by lia.
  apply Z.mul_reg_r in Hflat; [|lia].
  apply digit_unique in Hflat as [Hflat ->]; [|lia|lia].
  apply digit_unique in Hflat as [Hflat ->]; [|lia|lia].
  apply digit_unique in Hflat as [-> ->]; [|lia|lia].
  reflexivity.
Qed.

Lemma ndarray_get_app (h h' : heap) (nd : ndarray_obj_t) (idx : list Z) :
  (p_block (array nd) < length h)%nat ->
  ndarray_get (h ++ h') nd idx = ndarray_get h nd idx.
Proof. intros Hb. unfold ndarray_get. apply load_app_l. exact Hb. Qed.

Lemma diff_item_app (h h' : heap) (nd : ndarray_obj_t) (i : Z) (stencil idx : list Z) :
  (p_block (array nd) < length h)%nat ->
  diff_item (h ++ h') nd i stencil idx = diff_item h nd i stencil idx.
Proof.
  intros Hb. unfold diff_item.
  rewrite (mapM_ext _ (diff_term h nd i idx)); [reflexivity|].
  intros dc. unfold diff_term. rewrite ndarray_get_app by exact Hb. reflexivity.
Qed.

Lemma well_formed_extent (h : heap) (nd : ndarray_obj_t) (i : Z) :
  well_formed h nd -> 0 <= i < 4 -> 1 <= slot (shape nd) i < 2 ^ 32.
Proof.
  intros (_ & Hs & _ & Hpos & Hlen & Hbound & _) Hi. rewrite Hlen in Hbound.
  destruct (shape nd) as [|a [|b [|c [|d [|? ?]]]]]; try discriminate.
  inversion Hpos as [|? ? Ha Hpos1]; subst.
  inversion Hpos1 as [|? ? Hb Hpos2]; subst.
  inversion Hpos2 as [|? ? Hc Hpos3]; subst.
  inversion Hpos3 as [|? ? Hd _]; subst.
  unfold product in Hbound. cbn [foldr] in Hbound.
  assert (Hcd : 1 <= c * (d * 1)) by nia.
  assert (Hbcd : 1 <= b * (c * (d * 1))) by nia.
  assert (Hcase : i = 0 \/ i = 1 \/ i = 2 \/ i = 3) by lia.
  destruct Hcase as [-> | [-> | [-> | ->]]].
  - change (slot [a; b; c; d] 0) with a. nia.
  - change (slot [a; b; c; d] 1) with b. nia.
  - change (slot [a; b; c; d] 2) with c. nia.
  - change (slot [a; b; c; d] 3) with d. nia.
Qed.

(** The shape [numerical_diff] allocates its result with. *)
Lemma diff_result_shape (h : heap) (nd : ndarray_obj_t) (ax : Z) (f : Z -> Z) :
  well_formed h nd -> 0 <= ax < ndim nd ->
  let i := ULAB_MAX_DIMS - ndim nd + ax in
  pad_shape (ndim nd) (imap (fun j s => if Z.of_nat j =? i then f s else s) (shape nd))
  = set_slot (shape nd) i (f (slot (shape nd) i)).
Proof.
  intros (Hnd & Hs & _ & _ & _ & _ & _ & _ & Hlead & _) Hax. unfold ULAB_MAX_DIMS in *.
  destruct (shape nd) as [|a0 [|a1 [|a2 [|a3 [|? ?]]]]]; try discriminate.
  assert (Hn : ndim nd = 1 \/ ndim nd = 2 \/ ndim nd = 3 \/ ndim nd = 4) by lia.
  assert (Ha : ax = 0 \/ ax = 1 \/ ax = 2 \/ ax = 3) by lia.
  destruct Hn as [Hn | [Hn | [Hn | Hn]]]; rewrite Hn in *;
    destruct Ha as [-> | [-> | [-> | ->]]]; try lia;
    vm_compute in Hlead; simplify_eq; reflexivity.
Qed.

Lemma diff_axis_run (h : heap) (nd : ndarray_obj_t) (n ax : Z) :
  well_formed h nd -> 0 <= ax < ndim nd -> 0 <= n <= 9 ->
  let i := ULAB_MAX_DIMS - ndim nd + ax in
  n <= slot (shape nd) i ->
  let shape' := set_slot (shape nd) i (slot (shape nd) i - n) in
  let results :=
    {| dense := true; dtype := dtype nd; itemsize := itemsize_of (dtype nd);
       boolean := false; ndim := ndim nd; len := product shape'; shape := shape';
       strides := fst (row_major (itemsize_of (dtype nd)) shape');
       array := {| p_block := length h; p_off := 0 |} |} in
  diff_axis h nd n ax
  = Ok (mp_obj_ndarray results, RUN_DIFF (h ++ [∅]) nd results i (make_stencil n)).
Proof.
  intros Hwf Hax Hn i Hle. pose proof Hwf as (Hnd & _).
  unfold ULAB_MAX_DIMS in *.
  assert (Hi : 0 <= i < 4) by (unfold i; lia).
  pose proof (well_formed_extent h nd i Hwf Hi) as Hext.
  cbv zeta. unfold diff_axis, ULAB_MAX_DIMS. fold i.
  rewrite (uint8_t_small n), (uint8_t_small i) by lia.
  replace ((n <? 0) || (n >? 9) || (n >? slot (shape nd) i)) with false by lia.
  unfold ndarray_new_dense_ndarray.
  pose proof (diff_result_shape h nd ax (fun s => size_t (s - n)) Hwf Hax) as Hshape.
  cbv zeta in Hshape. unfold ULAB_MAX_DIMS in Hshape. fold i in Hshape.
  rewrite Hshape. rewrite size_t_small by lia.
  destruct (numerical_reduce_axes nd ax (replicate 4 0) (replicate 4 0)) as [s1 s2].
  reflexivity.
Qed.

(** After the kernel has run, every cell of the dense result holds the
    stencil sum of its index tuple. *)
Lemma run_diff_items (h0 : heap) (nd R : ndarray_obj_t) (i : Z) (stencil idx : list Z) :
  length (shape R) = 4%nat -> 0 < itemsize R ->
  strides R = fst (row_major (itemsize R) (shape R)) ->
  (p_block (array R) < length h0)%nat ->
  idx ∈ index_tuples (shape R) ->
  ndarray_get (RUN_DIFF h0 nd R i stencil) R idx = diff_item h0 nd i stencil idx.
Proof.
  intros Hlen Hisz Hstr Hblk Hin. unfold RUN_DIFF, ndarray_get.
  destruct (shape R) as [|a [|b [|c [|d [|? ?]]]]] eqn:Hshape; try discriminate.
  apply (foldl_store (ndarray_index R) (diff_item h0 nd i stencil)).
  - intros k' _. exact Hblk.
  - intros k' Hk' Heq. f_equal.
    apply (dense_index_inj R a b c d); assumption.
  - exact Hin.
Qed.

Lemma set_slot_id (l : list Z) (i : Z) : set_slot l i (slot l i) = l.
Proof.
  unfold set_slot, slot. destruct (l !! Z.to_nat i) as [x|] eqn:Hx; cbn [default].
  - apply list_insert_id. exact Hx.
  - apply list_insert_ge. apply lookup_ge_None. exact Hx.
Qed.

Lemma cast_proper (dt : NDARRAY_TYPE) (x y : Q) : (x == y)%Q -> cast dt x = cast dt y.
Proof.
  intros Hxy. destruct dt; cbn [cast]; try (rewrite (Qfloor_comp _ _ Hxy); reflexivity).
  apply Qred_complete. exact Hxy.
Qed.

(** The stencil sum of an index tuple, from the window of source items that
    starts there. *)
Lemma diff_item_window (h : heap) (nd : ndarray_obj_t) (i : Z) (stencil idx : list Z)
    (w : list Q) :
  length w = length stencil ->
  (forall k : nat, (k < length stencil)%nat ->
     ndarray_get h nd (set_slot idx i (slot idx i + Z.of_nat k)) = w !! k) ->
  diff_item h nd i stencil idx = Some (cast (dtype nd) (stencil_sum stencil (reverse w))).
Proof.
  intros Hlen Hw. unfold diff_item, stencil_sum.
  set (terms := zip_with (fun c v => inject_Z c * v)%Q stencil (reverse w)).
  assert (Hterms : mapM (diff_term h nd i idx)
                     (imap (fun d c => ((length stencil - 1 - d)%nat, c)) stencil)
                   = Some terms).
  { apply mapM_Some. apply Forall2_same_length_lookup_2.
    - unfold terms. rewrite length_imap, length_zip_with, length_reverse. lia.
    - intros d dc t Hdc Ht.
      rewrite list_lookup_imap in Hdc.
      destruct (stencil !! d) as [c|] eqn:Hc; [|discriminate].
      cbn in Hdc. injection Hdc as <-.
      pose proof (lookup_lt_Some _ _ _ Hc) as Hd.
      unfold terms in Ht. rewrite lookup_zip_with, Hc in Ht. cbn in Ht.
      rewrite reverse_lookup in Ht by lia.
      unfold diff_term. cbn [fst snd].
      rewrite Hw by lia.
      replace (length stencil - 1 - d)%nat with (length w - S d)%nat by lia.
      destruct (w !! (length w - S d)%nat) as [v|]; [|discriminate].
      cbn in Ht. injection Ht as <-. reflexivity. }
  rewrite Hterms. reflexivity.
Qed.

(** The weights [numerical_diff] builds are those of the finite difference:
    on a window of [n + 1] items, the differences of order [n] are one item,
    the sum of [stencil[i]] times the item [n - i] of the window. *)
Lemma stencil_sum_finite_difference (n : Z) (w : list Q) :
  0 <= n <= 9 -> length w = Z.to_nat (n + 1) ->
  exists v, finite_difference (Z.to_nat n) w = [v]
            /\ (v == stencil_sum (make_stencil n) (reverse w))%Q.
Proof.
  intros Hn Hlen.
  assert (Hk : exists k : nat, n = Z.of_nat k /\ (k < 10)%nat) by (exists (Z.to_nat n); lia).
  destruct Hk as (k & -> & Hk).
  do 10 (destruct k as [|k];
         [match type of Hlen with
          | _ = ?m => let m' := eval vm_compute in m in change m with m' in Hlen
          end;
          repeat (destruct w as [|? w]; try discriminate Hlen);
          (eexists; split; [reflexivity|]);
          match goal with
          | |- context [make_stencil ?o] =>
              let st := eval vm_compute in (make_stencil o) in
              change (make_stencil o) with st
          end;
          cbv [stencil_sum Qsum zip_with foldr reverse rev_append inject_Z];
          ring|]).
  lia.
Qed.

(** With order 0 the stencil is [1] and the stencil sum is the item itself. *)
Lemma diff_item_order0 (h : heap) (nd : ndarray_obj_t) (i : Z) (idx : list Z) (v : Q) :
  ndarray_get h nd idx = Some v -> cast (dtype nd) v = v ->
  diff_item h nd i (make_stencil 0) idx = Some v.
Proof.
  intros Hget Hcast.
  rewrite (diff_item_window h nd i (make_stencil 0) idx [v]).
  - f_equal. rewrite <- Hcast at 2. apply cast_proper.
    change (make_stencil 0) with [1].
    cbv [stencil_sum Qsum zip_with foldr reverse rev_append inject_Z]. ring.
  - reflexivity.
  - intros k Hk. change (length (make_stencil 0)) with 1%nat in Hk.
    replace k with 0%nat by lia. change (Z.of_nat 0) with 0.
    rewrite Z.add_0_r, set_slot_id. exact Hget.
Qed.

(** The stencil of every admissible order satisfies the recurrence, in
    integers: no value leaves [int8_t]. *)
Lemma stencil_recurrence (n j : Z) :
  0 <= n <= 9 -> 1 <= j <= n ->
  slot (make_stencil n) j = Z.quot (- slot (make_stencil n) (j - 1) * (n - j + 1)) j.
Proof.
  intros Hn Hj.
  assert (Hall : Forall (fun n => Forall (fun j =>
                   slot (make_stencil n) j
                   = Z.quot (- slot (make_stencil n) (j - 1) * (n - j + 1)) j)
                   (seqZ 1 n)) (seqZ 0 10)) by compute_done.
  rewrite Forall_forall in Hall.
  specialize (Hall n). rewrite Forall_forall in Hall.
  apply Hall; apply elem_of_seqZ; lia.
Qed.

(** C8, with the kernel read so that the example of the claim holds.  For a
    well-formed array, a valid axis and an order [n] from 0 to 9 not above
    the extent of the axis: the stencil starts with 1 and satisfies
    [stencil[j] = -stencil[j-1]*(n-j+1)/j]; the result has the shape of the
    source with the extent of the axis reduced by [n]; every item of the
    result is the finite difference of order [n] of the [n + 1] source items
    that start at its index along the axis, which is the sum over [j] of
    [stencil[j]] times the source item [n - j] steps along the axis, stored
    into the element type; with [n = 0] every item is the source item.  On
    [1, 2, 4, 7] the order 1 yields [1, 2, 3] and the order 0 yields
    [1, 2, 4, 7]. *)
Theorem diff_stencil_sum (h : heap) (nd : ndarray_obj_t) (n a : Z) :
  well_formed h nd -> - ndim nd <= a < ndim nd -> 0 <= n <= 9 ->
  let i := ULAB_MAX_DIMS - ndim nd + a mod ndim nd in
  n <= slot (shape nd) i ->
  let stencil := make_stencil n in
  slot stencil 0 = 1
  /\ (forall j, 1 <= j <= n ->
        slot stencil j = Z.quot (- slot stencil (j - 1) * (n - j + 1)) j)
  /\ (exists results h',
        numerical_diff h (mp_obj_ndarray nd) (mp_obj_int n) (mp_obj_int a)
        = Ok (mp_obj_ndarray results, h')
        /\ shape results = set_slot (shape nd) i (slot (shape nd) i - n)
        /\ (forall idx w, idx ∈ index_tuples (shape results) ->
              length w = Z.to_nat (n + 1) ->
              (forall k : nat, (k <= Z.to_nat n)%nat ->
                 ndarray_get h nd (set_slot idx i (slot idx i + Z.of_nat k)) = w !! k) ->
              exists v,
                finite_difference (Z.to_nat n) w = [v]
                /\ (v == stencil_sum stencil (reverse w))%Q
                /\ ndarray_get h' results idx = Some (cast (dtype nd) v))
        /\ (n = 0 ->
            forall idx v, idx ∈ index_tuples (shape nd) ->
              ndarray_get h nd idx = Some v -> cast (dtype nd) v = v ->
              ndarray_get h' results idx = Some v))
  /\ returned_items (numerical_diff vec4_heap (mp_obj_ndarray vec4)
                       (mp_obj_int 1) (mp_obj_int (-1)))
     = Some [Some 1; Some 2; Some 3]%Q
  /\ returned_items (numerical_diff vec4_heap (mp_obj_ndarray vec4)
                       (mp_obj_int 0) (mp_obj_int (-1)))
     = Some [Some 1; Some 2; Some 4; Some 7]%Q.
Proof.
  intros Hwf Ha Hn i Hle stencil.
  pose proof Hwf as (Hnd & Hs & _ & _ & _ & _ & Hblk & _).
  unfold ULAB_MAX_DIMS in Hnd.
  pose proof (Z.mod_pos_bound a (ndim nd)) as Hm.
  assert (Hax : 0 <= a mod ndim nd < ndim nd) by lia.
  assert (Hstl : length stencil = Z.to_nat (n + 1)).
  { assert (Hall : Forall (fun n => length (make_stencil n) = Z.to_nat (n + 1)) (seqZ 0 10))
      by compute_done.
    rewrite Forall_forall in Hall. apply Hall, elem_of_seqZ. lia. }
  split; [reflexivity|]. split; [intros j Hj; apply stencil_recurrence; assumption|].
  split; [|split; vm_compute; reflexivity].
  pose proof (diff_axis_run h nd n _ Hwf Hax Hn Hle) as Hrun. cbv zeta in Hrun. fold i in Hrun.
  set (shape' := set_slot (shape nd) i (slot (shape nd) i - n)) in *.
  set (results := {| dense := true; dtype := dtype nd; itemsize := itemsize_of (dtype nd);
                     boolean := false; ndim := ndim nd; len := product shape';
                     shape := shape';
                     strides := fst (row_major (itemsize_of (dtype nd)) shape');
                     array := {| p_block := length h; p_off := 0 |} |}) in *.
  exists results, (RUN_DIFF (h ++ [∅]) nd results i (make_stencil n)).
  assert (Hitems : forall idx, idx ∈ index_tuples (shape results) ->
            ndarray_get (RUN_DIFF (h ++ [∅]) nd results i (make_stencil n)) results idx
            = diff_item h nd i stencil idx).
  { intros idx Hidx. rewrite run_diff_items.
    - apply diff_item_app. exact Hblk.
    - cbn [shape results]. unfold shape', set_slot. rewrite length_insert. exact Hs.
    - pose proof (itemsize_of_range (dtype nd)). cbn [itemsize results]. lia.
    - reflexivity.
    - cbn [array results p_block]. rewrite length_app. cbn. lia.
    - exact Hidx. }
  split; [|split; [|split]].
  - unfold numerical_diff. cbn [mp_obj_get_int mbind result_bind].
    rewrite check_axis_in_range by lia. cbn [mbind result_bind]. exact Hrun.
  - reflexivity.
  - intros idx w Hidx Hlen Hw.
    destruct (stencil_sum_finite_difference n w Hn Hlen) as (v & Hfd & Hv).
    exists v. split; [exact Hfd|]. split; [exact Hv|].
    rewrite (Hitems idx Hidx).
    rewrite (diff_item_window h nd i stencil idx w).
    + f_equal. apply cast_proper. symmetry. exact Hv.
    + rewrite Hstl. exact Hlen.
    + intros k Hk. apply Hw. rewrite Hstl in Hk. lia.
  - intros -> idx v Hidx Hget Hcast.
    rewrite Hitems.
    + apply diff_item_order0; assumption.
    + cbn [shape results]. unfold shape'. rewrite Z.sub_0_r, set_slot_id. exact Hidx.
Qed.

Lemma vec4_well_formed : well_formed vec4_heap vec4.
Proof. unfold well_formed. compute_done. Qed.

Lemma diff_stencil_sum_witness :
  well_formed vec4_heap vec4
  /\ exists results h',
       numerical_diff vec4_heap (mp_obj_ndarray vec4) (mp_obj_int 1) (mp_obj_int (-1))
       = Ok (mp_obj_ndarray results, h')
       /\ shape results = [1; 1; 1; 3]
       /\ ndarray_get h' results [0; 0; 0; 2] = Some 3%Q.
Proof.
  split; [exact vec4_well_formed|].
  destruct (diff_stencil_sum vec4_heap vec4 1 (-1) vec4_well_formed)
    as (_ & _ & (results & h' & Hrun & Hshape & Hitems & _) & _);
    [compute_done | compute_done | compute_done |].
  exists results, h'. split; [exact Hrun|]. split; [exact Hshape|].
  destruct (Hitems [0; 0; 0; 2] [4; 7]%Q) as (v & Hfd & _ & Hget).
  - rewrite Hshape. compute_done.
  - reflexivity.
  - intros k Hk. destruct k as [|[|k]]; [vm_compute; reflexivity..|].
    change (Z.to_nat 1) with 1%nat in Hk. lia.
  - injection Hfd as <-. exact Hget.
Defined.

(** C8 as stated cannot hold, whatever the kernel does: with the stencil
    [numerical_diff] builds for order 1, [1, -1], the sum over [i] of
    [stencil[i]] times the source item shifted by [i] is, at the first item
    of [1, 2, 4, 7], [1 * 1 + (-1) * 2 = -1], and not the 1 the claim gives
    for it; the weights taken the other way round give the 1. *)
Lemma diff_shift_counterexample :
  make_stencil 1 = [1; -1]
  /\ (stencil_sum (make_stencil 1) [1; 2] == -1)%Q
  /\ ~ (stencil_sum (make_stencil 1) [1; 2] == 1)%Q
  /\ (stencil_sum (make_stencil 1) (reverse [1; 2]) == 1)%Q.
Proof. repeat split; try reflexivity. intros H. discriminate H. Qed.

(** ** numerical_roll along an axis, towards higher indices *)

Lemma lane_step (h0 : heap) (nd results : ndarray_obj_t) (ax : Z) (p r0 : pointer)
    (n sh : Z) (t : nat) (st : roll_state) :
  let s := slot (strides nd) ax in
  let rs := slot (strides results) ax in
  0 <= sh < n -> n < 2 ^ 32 -> Z.of_nat t < n -> rs <> 0 ->
  p_block p <> p_block r0 -> (p_block r0 < length h0)%nat ->
  lane_after h0 p r0 s rs n sh t st ->
  lane_after h0 p r0 s rs n sh (S t) (roll_axis_item nd results ax r0 st).
Proof.
  intros s rs Hsh Hn Ht Hrs Hblk Hr0 (Harr & Hcnt & Hcur & Hlen & Hother & Hcells).
  assert (Hcell : r_rarray st = ptr_add r0 ((sh + Z.of_nat t) mod n * rs)).
  { rewrite Hcur. destruct (Z.ltb_spec (Z.of_nat t) (n - sh)) as [Hlt | Hge].
    - rewrite Z.mod_small by lia. reflexivity.
    - f_equal. f_equal.
      rewrite <- (Z.mod_small (Z.of_nat t - (n - sh)) n) by lia.
      rewrite <- (Z.mod_add (Z.of_nat t - (n - sh)) 1 n) by lia. f_equal. lia. }
  unfold roll_axis_item. fold s rs. rewrite Hcnt.
  assert (Hzero : (size_t (size_t (n - sh - Z.of_nat t) - 1) =? 0)
                  = (Z.of_nat (S t) =? n - sh)).
  { unfold size_t, wrap_unsigned.
    rewrite Zminus_mod_idemp_l.
    destruct (Z.eqb_spec (Z.of_nat (S t)) (n - sh)) as [Heq | Hne].
    - replace (n - sh - Z.of_nat t - 1) with 0 by lia. reflexivity.
    - apply Z.eqb_neq. intros Hmod.
      destruct (Z.ltb_spec (Z.of_nat (S t)) (n - sh)) as [Hlt | Hge].
      + rewrite Z.mod_small in Hmod by lia. lia.
      + rewrite <- (Z.mod_add _ 1) in Hmod by lia.
        rewrite Z.mod_small in Hmod by lia. lia. }
  rewrite Hzero.
  split; [|split; [|split; [|split; [|split]]]]; cbn [r_array r_counter r_rarray r_heap].
  - rewrite Harr, ptr_add_add. f_equal. nia.
  - unfold size_t, wrap_unsigned. rewrite Zminus_mod_idemp_l. f_equal. lia.
  - clear Hzero Hcnt Hcells Hother.
    destruct (Z.eqb_spec (Z.of_nat (S t)) (n - sh)) as [Heq | Hne].
    + rewrite (proj2 (Z.ltb_ge _ _)) by lia.
      replace ((Z.of_nat (S t) - (n - sh)) * rs) with 0 by nia.
      symmetry. apply ptr_add_0.
    + rewrite Hcur.
      destruct (Z.ltb_spec (Z.of_nat t) (n - sh)) as [Hlt | Hge].
      * rewrite (proj2 (Z.ltb_lt _ _)) by lia.
        rewrite ptr_add_add. f_equal. nia.
      * rewrite (proj2 (Z.ltb_ge _ _)) by lia.
        rewrite ptr_add_add. f_equal. nia.
  - rewrite length_memcpy. exact Hlen.
  - intros q Hq. rewrite load_memcpy_other; [apply Hother, Hq|].
    intros ->. apply Hq. rewrite Hcell. reflexivity.
  - intros t' Ht'.
    destruct (decide (t' = t)) as [-> | Hne].
    + rewrite <- Hcell, load_memcpy_same.
      * rewrite Harr. apply Hother. exact Hblk.
      * rewrite Hlen, Hcell. exact Hr0.
    + rewrite load_memcpy_other; [apply Hcells; lia|].
      rewrite Hcell. unfold ptr_add. intros Heq. injection Heq as Heq.
      assert (Hmod : (sh + Z.of_nat t') mod n = (sh + Z.of_nat t) mod n) by nia.
      assert (Ht'n : Z.of_nat t' < n) by lia.
      destruct (Z.ltb_spec (sh + Z.of_nat t') n) as [H1 | H1];
        destruct (Z.ltb_spec (sh + Z.of_nat t) n) as [H2 | H2].
      * rewrite !Z.mod_small in Hmod by lia. lia.
      * rewrite (Z.mod_small (sh + Z.of_nat t')) in Hmod by lia.
        rewrite <- (Z.mod_add (sh + Z.of_nat t) (-1)) in Hmod by lia.
        rewrite Z.mod_small in Hmod by lia. lia.
      * rewrite (Z.mod_small (sh + Z.of_nat t)) in Hmod by lia.
        rewrite <- (Z.mod_add (sh + Z.of_nat t') (-1)) in Hmod by lia.
        rewrite Z.mod_small in Hmod by lia. lia.
      * rewrite <- (Z.mod_add (sh + Z.of_nat t) (-1)) in Hmod by lia.
        rewrite <- (Z.mod_add (sh + Z.of_nat t') (-1)) in Hmod by lia.
        rewrite !Z.mod_small in Hmod by lia. lia.
Qed.

Lemma lane_loop (h0 : heap) (nd results : ndarray_obj_t) (ax : Z) (p r0 : pointer)
    (n sh : Z) (t : nat) :
  let s := slot (strides nd) ax in
  let rs := slot (strides results) ax in
  0 <= sh < n -> n < 2 ^ 32 -> Z.of_nat t <= n -> rs <> 0 ->
  p_block p <> p_block r0 -> (p_block r0 < length h0)%nat ->
  lane_after h0 p r0 s rs n sh t
    (Nat.iter t (roll_axis_item nd results ax r0)
       {| r_heap := h0; r_array := p; r_rarray := ptr_add r0 (sh * rs);
          r_counter := size_t (n - sh) |}).
Proof.
  intros s rs Hsh Hn Ht Hrs Hblk Hr0. induction t as [|t IH].
  - cbn [Nat.iter nat_rect]. unfold lane_after. cbn [r_array r_counter r_rarray r_heap].
    change (Z.of_nat 0) with 0.
    split; [rewrite Z.mul_0_l, ptr_add_0; reflexivity|].
    split; [f_equal; lia|].
    split; [rewrite (proj2 (Z.ltb_lt _ _)) by lia; f_equal; lia|].
    split; [reflexivity|]. split; [reflexivity|]. intros t' Ht'. lia.
  - rewrite Nat.iter_succ. apply lane_step; try assumption; try lia.
    apply IH. lia.
Qed.

Lemma reduce_axes_rank1 (nd : ndarray_obj_t) (sh st : list Z) :
  ndim nd = 1 -> numerical_reduce_axes nd 0 sh st = (set_slot sh 3 1, st).
Proof. intros Hn. unfold numerical_reduce_axes. rewrite Hn. reflexivity. Qed.

(** The one-axis branch on a rank-1 array: the loops around the lane run
    once, and the heap is what the lane loop leaves. *)
Lemma roll_axis_rank1 (h0 : heap) (nd results : ndarray_obj_t) (shift _shift : Z) :
  ndim nd = 1 -> ndim results = 1 -> 0 <= shift ->
  let n := slot (shape results) 3 in
  let sh := int32_t (size_t _shift mod n) in
  roll_axis h0 nd results shift _shift 0
  = r_heap (do_while (slot (shape nd) 3) (roll_axis_item nd results 3 (array results))
              {| r_heap := h0; r_array := array nd;
                 r_rarray := ptr_add (array results) (sh * slot (strides results) 3);
                 r_counter := size_t (n - sh) |}).
Proof.
  intros Hnd Hres Hshift. cbv zeta. unfold roll_axis.
  rewrite !reduce_axes_rank1 by assumption. rewrite Hnd.
  change (int8_t (ULAB_MAX_DIMS - 1 + 0)) with 3.
  change (slot (set_slot (replicate 4 0) 3 1) (ULAB_MAX_DIMS - 3)) with 0.
  change (slot (set_slot (replicate 4 0) 3 1) (ULAB_MAX_DIMS - 2)) with 0.
  change (slot (set_slot (replicate 4 0) 3 1) (ULAB_MAX_DIMS - 1)) with 1.
  unfold do_while at 1 2 3.
  change (Z.to_nat (Z.max 1 0)) with 1%nat. change (Z.to_nat (Z.max 1 1)) with 1%nat.
  cbn [Nat.iter nat_rect]. unfold roll_axis_carry. cbn [r_heap].
  unfold roll_axis_lane. cbn [r_heap r_array r_rarray r_counter].
  rewrite (proj2 (Z.ltb_ge shift 0)) by lia. cbn [andb]. reflexivity.
Qed.

(** Along the axis of a rank-1 array and for a distance that is not
    negative, [roll] is the circular shift: item [j] of the result is item
    [(j - distance) mod n] of the source. *)
Lemma roll_axis_nonnegative_rank1 (h : heap) (nd : ndarray_obj_t) (d : Z) :
  well_formed h nd -> ndim nd = 1 -> 0 <= d < 2 ^ 31 ->
  let n := slot (shape nd) 3 in
  exists results h',
    numerical_roll h (mp_obj_ndarray nd) (mp_obj_int d) (mp_obj_int 0)
    = Ok (mp_obj_ndarray results, h')
    /\ shape results = shape nd
    /\ (forall j, 0 <= j < n ->
          ndarray_get h' results [0; 0; 0; j] = ndarray_get h nd [0; 0; 0; (j - d) mod n]).
Proof.
  intros Hwf Hnd Hd n.
  pose proof Hwf as (_ & Hs & _ & _ & _ & _ & Hblk & _ & Hlead & _).
  assert (Hn : 1 <= n < 2 ^ 32) by (apply (well_formed_extent h nd 3 Hwf); lia).
  assert (Hshape : shape nd = [1; 1; 1; n]).
  { unfold n. rewrite Hnd in Hlead.
    destruct (shape nd) as [|a0 [|a1 [|a2 [|a3 [|? ?]]]]]; try discriminate.
    vm_compute in Hlead. simplify_eq. reflexivity. }
  pose proof (itemsize_of_range (dtype nd)) as Hisz.
  set (isz := itemsize_of (dtype nd)) in *.
  set (results := fst (ndarray_new_dense_ndarray h 1 (shape nd) (dtype nd))).
  assert (Hrshape : shape results = [1; 1; 1; n]).
  { unfold results. cbn [fst ndarray_new_dense_ndarray shape]. rewrite Hshape. reflexivity. }
  assert (Hrstr : strides results = [isz * n * 1 * 1; isz * n * 1; isz * n; isz]).
  { unfold results. cbn [fst ndarray_new_dense_ndarray strides]. rewrite Hshape.
    reflexivity. }
  assert (Hrarr : array results = {| p_block := length h; p_off := 0 |}) by reflexivity.
  assert (Hsh : int32_t (size_t d mod slot (shape results) 3) = d mod n).
  { rewrite Hrshape. change (slot [1; 1; 1; n] 3) with n.
    rewrite size_t_small by lia.
    pose proof (Z.mod_pos_bound d n). pose proof (Z.mod_le d n).
    apply int32_t_small. lia. }
  exists results, (roll_axis (h ++ [∅]) nd results d d 0).
  split; [|split].
  - unfold numerical_roll. rewrite Hnd.
    cbn [mp_obj_get_int mbind result_bind is_none MP_OBJ_IS_INT].
    rewrite int32_t_small by lia.
    rewrite (proj2 (Z.ltb_ge d 0)) by lia.
    rewrite check_axis_in_range by lia. rewrite Hnd. reflexivity.
  - rewrite Hrshape, Hshape. reflexivity.
  - intros j Hj.
    rewrite roll_axis_rank1 by (try assumption; try reflexivity; lia).
    cbv zeta. rewrite Hsh.
    rewrite Hrshape, Hrstr, Hrarr, Hshape.
    change (slot [1; 1; 1; n] 3) with n.
    change (slot [isz * n * 1 * 1; isz * n * 1; isz * n; isz] 3) with isz.
    unfold do_while. rewrite Z.max_r by lia.
    pose proof (Z.mod_pos_bound d n) as Hdm.
    pose proof (lane_loop (h ++ [∅]) nd results 3 (array nd)
                  {| p_block := length h; p_off := 0 |} n (d mod n) (Z.to_nat n)) as Hloop.
    cbv zeta in Hloop. rewrite Hrstr in Hloop.
    change (slot [isz * n * 1 * 1; isz * n * 1; isz * n; isz] 3) with isz in Hloop.
    destruct Hloop as (_ & _ & _ & _ & _ & Hcells).
    + lia.
    + lia.
    + lia.
    + lia.
    + cbn [p_block]. lia.
    + cbn [p_block]. rewrite length_app. cbn. lia.
    + pose proof (Z.mod_pos_bound (j - d) n) as Hjm.
      specialize (Hcells (Z.to_nat ((j - d) mod n))).
      rewrite Z2Nat.id in Hcells by lia.
      assert (Hback : (d mod n + (j - d) mod n) mod n = j).
      { rewrite <- Z.add_mod by lia. replace (d + (j - d)) with j by lia.
        apply Z.mod_small. lia. }
      rewrite Hback in Hcells.
      assert (Hdst : ndarray_index results [0; 0; 0; j]
                     = ptr_add {| p_block := length h; p_off := 0 |} (j * isz)).
      { unfold ndarray_index. rewrite Hrstr, Hrarr. reflexivity. }
      assert (Hsrc : ndarray_index nd [0; 0; 0; (j - d) mod n]
                     = ptr_add (array nd) ((j - d) mod n * slot (strides nd) 3)).
      { reflexivity. }
      unfold ndarray_get. rewrite Hdst, Hsrc, Hcells by lia.
      apply load_app_l. rewrite ptr_add_block. exact Hblk.
Qed.

(** ** Sequences: minimum and maximum *)

Lemma Qltb_lt (a b : Q) : Qltb a b = true <-> (a < b)%Q.
Proof. unfold Qltb, Qlt. apply Z.ltb_lt. Qed.

Lemma numbers_length (items : list mp_obj_t) (qs : list Q) :
  numbers items qs -> length items = length qs.
Proof. apply Forall2_length. Qed.

Lemma numbers_app (items items' : list mp_obj_t) (qs qs' : list Q) :
  numbers items qs -> numbers items' qs' -> numbers (items ++ items') (qs ++ qs').
Proof. apply Forall2_app. Qed.

(** One turn of the loop keeps [best_so_far]. *)
Lemma argmin_argmax_step_best (op : Z) (o : mp_obj_t) (v : Q)
    (pre : list mp_obj_t) (pqs : list Q) (st : best_state) :
  op = 0 \/ op = 1 ->
  mp_obj_get_float o = Ok v -> length pre = length pqs ->
  Z.of_nat (length pre) < 2 ^ 32 ->
  best_so_far op pre pqs st ->
  exists st', argmin_argmax_step op o st = Ok st'
              /\ best_so_far op (pre ++ [o]) (pqs ++ [v]) st'.
Proof.
  intros Hop Hv Hlen Hbound (Hidx & i & Hbi & Hobj & Hval & Hmin & Hfirst).
  assert (Hi : (i < length pqs)%nat) by (apply lookup_lt_is_Some; eauto).
  unfold argmin_argmax_step. rewrite Hv. cbn [mbind result_bind].
  assert (Hnext : size_t (bs_idx st + 1) = Z.of_nat (length (pre ++ [o])) - 1).
  { rewrite length_app. cbn [length]. rewrite size_t_small by lia. lia. }
  assert (Hcases : (beats op v (bs_best_value st)
                    /\ ((op =? 0) && Qltb v (bs_best_value st)
                        || (op =? 1) && Qltb (bs_best_value st) v) = true)
                   \/ (~ beats op v (bs_best_value st)
                       /\ (op =? 0) && Qltb v (bs_best_value st) = false
                       /\ (op =? 1) && Qltb (bs_best_value st) v = false)).
  { unfold beats. destruct Hop as [-> | ->]; cbn [Z.eqb andb orb].
    - destruct (Qltb v (bs_best_value st)) eqn:Hlt.
      + left. split; [apply Qltb_lt; exact Hlt|reflexivity].
      + right. split; [|split; reflexivity].
        intros Habs. apply Qltb_lt in Habs. congruence.
    - destruct (Qltb (bs_best_value st) v) eqn:Hlt.
      + left. split; [apply Qltb_lt; exact Hlt|reflexivity].
      + right. split; [|split; reflexivity].
        intros Habs. apply Qltb_lt in Habs. congruence. }
  destruct Hcases as [[Hbeat Htest] | (Hkeep & Htest0 & Htest1)].
  - exists {| bs_idx := size_t (bs_idx st + 1); bs_best_idx := size_t (bs_idx st + 1);
              bs_best_obj := o; bs_best_value := v |}.
    split.
    { destruct ((op =? 0) && Qltb v (bs_best_value st)); [reflexivity|].
      cbn [orb] in Htest. rewrite Htest. reflexivity. }
    split; [exact Hnext|]. exists (length pre).
    cbn [bs_best_idx bs_best_obj bs_best_value].
    split; [rewrite Hnext, length_app; cbn [length]; lia|].
    split; [apply list_lookup_middle; reflexivity|].
    split; [apply list_lookup_middle; exact Hlen|].
    assert (Hold : forall (j : nat) q, pqs !! j = Some q -> ~ beats op q v /\ beats op v q).
    { intros j q Hq. pose proof (Hmin j q Hq) as Hnb. revert Hnb Hbeat. unfold beats.
      destruct (op =? 0); intros; split; Lqa.lra. }
    split.
    + intros j q Hq. apply lookup_app_Some in Hq as [Hq | [Hj Hq]].
      * apply (Hold j q Hq).
      * apply list_lookup_singleton_Some in Hq as [_ <-].
        unfold beats. destruct (op =? 0); Lqa.lra.
    + intros j q Hj Hq. rewrite lookup_app_l in Hq by lia. apply (Hold j q Hq).
  - exists {| bs_idx := size_t (bs_idx st + 1); bs_best_idx := bs_best_idx st;
              bs_best_obj := bs_best_obj st; bs_best_value := bs_best_value st |}.
    split; [rewrite Htest0, Htest1; reflexivity|].
    split; [exact Hnext|]. exists i.
    cbn [bs_best_idx bs_best_obj bs_best_value].
    split; [exact Hbi|].
    split; [rewrite lookup_app_l by lia; exact Hobj|].
    split; [rewrite lookup_app_l by lia; exact Hval|].
    split.
    + intros j q Hq. apply lookup_app_Some in Hq as [Hq | [Hj Hq]].
      * apply (Hmin j q Hq).
      * apply list_lookup_singleton_Some in Hq as [_ <-]. exact Hkeep.
    + intros j q Hj Hq. rewrite lookup_app_l in Hq by lia. apply (Hfirst j q Hj Hq).
Qed.

(** The loop keeps [best_so_far] over all the items it consumes. *)
Lemma argmin_argmax_while_best (op : Z) (rest : list mp_obj_t) :
  op = 0 \/ op = 1 ->
  forall (rqs : list Q) (pre : list mp_obj_t) (pqs : list Q) (st : best_state),
    numbers rest rqs -> length pre = length pqs ->
    Z.of_nat (length pre + length rest) < 2 ^ 32 ->
    best_so_far op pre pqs st ->
    exists st', argmin_argmax_while op rest st = Ok st'
                /\ best_so_far op (pre ++ rest) (pqs ++ rqs) st'.
Proof.
  intros Hop. induction rest as [|o rest IH]; intros rqs pre pqs st Hnum Hlen Hbound Hbest.
  - apply Forall2_nil_inv_l in Hnum as ->. exists st.
    rewrite !app_nil_r. split; [reflexivity|exact Hbest].
  - apply Forall2_cons_inv_l in Hnum as (v & rqs' & Hv & Hnum & ->).
    cbn [length] in Hbound.
    destruct (argmin_argmax_step_best op o v pre pqs st Hop Hv Hlen ltac:(lia) Hbest)
      as (st1 & Hstep & Hbest1).
    destruct (IH rqs' (pre ++ [o]) (pqs ++ [v]) st1 Hnum) as (st' & Hrun & Hbest').
    + rewrite !length_app. cbn [length]. lia.
    + rewrite length_app. cbn [length]. lia.
    + exact Hbest1.
    + exists st'. cbn [argmin_argmax_while]. rewrite Hstep. cbn [mbind result_bind].
      split; [exact Hrun|]. rewrite <- !app_assoc in Hbest'. exact Hbest'.
Qed.

(** The whole function on a non-empty sequence of numbers. *)
Lemma argmin_argmax_iterable_best (optype : NUMERICAL_FUNCTION_TYPE)
    (items : list mp_obj_t) (qs : list Q) :
  let op := match optype with NUMERICAL_ARGMAX | NUMERICAL_MAX => 1 | _ => 0 end in
  numbers items qs -> items <> [] -> Z.of_nat (length items) < 2 ^ 32 ->
  exists st, best_so_far op items qs st
             /\ numerical_argmin_argmax_iterable items optype
                = Ok (match optype with
                      | NUMERICAL_ARGMIN | NUMERICAL_ARGMAX => mp_obj_int (bs_best_idx st)
                      | _ => bs_best_obj st
                      end).
Proof.
  intros op Hnum Hne Hbound.
  destruct items as [|o rest]; [congruence|].
  apply Forall2_cons_inv_l in Hnum as (v & rqs & Hv & Hnum & ->).
  assert (Hop : op = 0 \/ op = 1) by (unfold op; destruct optype; auto).
  destruct (argmin_argmax_while_best op rest Hop rqs [o] [v]
              {| bs_idx := 0; bs_best_idx := 0; bs_best_obj := o; bs_best_value := v |}
              Hnum eq_refl) as (st & Hrun & Hbest).
  - cbn [length] in *. lia.
  - split; [reflexivity|]. exists 0%nat. cbn [bs_best_idx bs_best_obj bs_best_value].
    split; [reflexivity|]. split; [reflexivity|]. split; [reflexivity|].
    split.
    + intros j q Hq. apply list_lookup_singleton_Some in Hq as [_ <-].
      unfold beats. destruct (op =? 0); Lqa.lra.
    + intros j q Hj. lia.
  - exists st. split; [exact Hbest|].
    unfold numerical_argmin_argmax_iterable. rewrite Hv. cbn [mbind result_bind].
    fold op. rewrite Hrun. cbn [mbind result_bind]. destruct optype; reflexivity.
Qed.

(** X1.  On a non-empty tuple, list or range of numbers that the float holds
    exactly (bools, floats, and ints of magnitude up to [2 ^ 24]: beyond it
    the runtime rounds the int before it compares, and two different ints can
    compare equal), [argmin] returns the position of the first smallest item
    and [min] returns that very item (the object of the sequence, not a
    converted copy): no item is smaller, and every item before it is strictly
    larger. *)
Theorem sequence_argmin_first_minimum (K : reduction_kernels) (h : heap) (k : seq_kind)
    (items : list mp_obj_t) (qs : list Q) :
  numbers items qs -> Forall converts_exactly items ->
  items <> [] -> Z.of_nat (length items) < 2 ^ 32 ->
  exists (i : nat) (o : mp_obj_t) (q : Q),
    items !! i = Some o /\ qs !! i = Some q
    /\ numerical_argmin K h (mp_obj_seq k items) mp_const_none
       = Ok (mp_obj_int (Z.of_nat i), h)
    /\ numerical_min K h (mp_obj_seq k items) mp_const_none = Ok (o, h)
    /\ (forall (j : nat) q', qs !! j = Some q' -> (q <= q')%Q)
    /\ (forall (j : nat) q', (j < i)%nat -> qs !! j = Some q' -> (q < q')%Q).
Proof.
  intros Hnum _ Hne Hbound.
  destruct (argmin_argmax_iterable_best NUMERICAL_ARGMIN items qs Hnum Hne Hbound)
    as (st & (_ & i & Hbi & Hobj & Hval & Hmin & Hfirst) & Harg).
  destruct (argmin_argmax_iterable_best NUMERICAL_MIN items qs Hnum Hne Hbound)
    as (st' & (_ & i' & Hbi' & Hobj' & Hval' & Hmin' & Hfirst') & Hm).
  cbn [Z.eqb] in *. unfold beats in *. cbn [Z.eqb] in *.
  assert (Hsame : i' = i).
  { destruct (Nat.lt_trichotomy i' i) as [Hlt | [Heq | Hgt]]; [|exact Heq|].
    - pose proof (Hfirst i' _ Hlt Hval'). pose proof (Hmin' i _ Hval). Lqa.lra.
    - pose proof (Hfirst' i _ Hgt Hval). pose proof (Hmin i' _ Hval'). Lqa.lra. }
  subst i'. exists i, (bs_best_obj st'), (bs_best_value st).
  split; [exact Hobj'|]. split; [exact Hval|].
  split.
  { unfold numerical_argmin, numerical_function. cbn [is_none negb andb].
    rewrite Harg, Hbi. reflexivity. }
  split.
  { unfold numerical_min, numerical_function. cbn [is_none negb andb].
    rewrite Hm. reflexivity. }
  split.
  - intros j q' Hq. pose proof (Hmin j q' Hq). Lqa.lra.
  - intros j q' Hj Hq. exact (Hfirst j q' Hj Hq).
Qed.

Lemma sequence_argmin_first_minimum_witness :
  exists (i : nat) (o : mp_obj_t) (q : Q),
    [mp_obj_int 3; mp_obj_float (3 # 2); mp_obj_int 7; mp_obj_float (3 # 2)] !! i = Some o
    /\ [3; 3 # 2; 7; 3 # 2]%Q !! i = Some q
    /\ numerical_argmin idle_kernels []
         (mp_obj_seq List
            [mp_obj_int 3; mp_obj_float (3 # 2); mp_obj_int 7; mp_obj_float (3 # 2)])
         mp_const_none
       = Ok (mp_obj_int (Z.of_nat i), [])
    /\ numerical_min idle_kernels []
         (mp_obj_seq List
            [mp_obj_int 3; mp_obj_float (3 # 2); mp_obj_int 7; mp_obj_float (3 # 2)])
         mp_const_none
       = Ok (o, [])
    /\ (forall (j : nat) q', [3; 3 # 2; 7; 3 # 2]%Q !! j = Some q' -> (q <= q')%Q)
    /\ (forall (j : nat) q', (j < i)%nat -> [3; 3 # 2; 7; 3 # 2]%Q !! j = Some q' ->
          (q < q')%Q).
Proof.
  apply (sequence_argmin_first_minimum idle_kernels [] List).
  - repeat constructor.
  - repeat (apply Forall_cons_2; [unfold converts_exactly, FLT_MANT_DIG; first [exact I | lia]|]). apply Forall_nil_2.
  - discriminate.
  - reflexivity.
Defined.

(** X2.  On a non-empty tuple, list or range of numbers that the float holds
    exactly (bools, floats, and ints of magnitude up to [2 ^ 24]: beyond it
    the runtime rounds the int before it compares), [argmax] returns the
    position of the first largest item and [max] returns that very item: no
    item is larger, and every item before it is strictly smaller. *)
Theorem sequence_argmax_first_maximum (K : reduction_kernels) (h : heap) (k : seq_kind)
    (items : list mp_obj_t) (qs : list Q) :
  numbers items qs -> Forall converts_exactly items ->
  items <> [] -> Z.of_nat (length items) < 2 ^ 32 ->
  exists (i : nat) (o : mp_obj_t) (q : Q),
    items !! i = Some o /\ qs !! i = Some q
    /\ numerical_argmax K h (mp_obj_seq k items) mp_const_none
       = Ok (mp_obj_int (Z.of_nat i), h)
    /\ numerical_max K h (mp_obj_seq k items) mp_const_none = Ok (o, h)
    /\ (forall (j : nat) q', qs !! j = Some q' -> (q' <= q)%Q)
    /\ (forall (j : nat) q', (j < i)%nat -> qs !! j = Some q' -> (q' < q)%Q).
Proof.
  intros Hnum _ Hne Hbound.
  destruct (argmin_argmax_iterable_best NUMERICAL_ARGMAX items qs Hnum Hne Hbound)
    as (st & (_ & i & Hbi & Hobj & Hval & Hmin & Hfirst) & Harg).
  destruct (argmin_argmax_iterable_best NUMERICAL_MAX items qs Hnum Hne Hbound)
    as (st' & (_ & i' & Hbi' & Hobj' & Hval' & Hmin' & Hfirst') & Hm).
  unfold beats in *. cbn [Z.eqb] in *.
  assert (Hsame : i' = i).
  { destruct (Nat.lt_trichotomy i' i) as [Hlt | [Heq | Hgt]]; [|exact Heq|].
    - pose proof (Hfirst i' _ Hlt Hval'). pose proof (Hmin' i _ Hval). Lqa.lra.
    - pose proof (Hfirst' i _ Hgt Hval). pose proof (Hmin i' _ Hval'). Lqa.lra. }
  subst i'. exists i, (bs_best_obj st'), (bs_best_value st).
  split; [exact Hobj'|]. split; [exact Hval|].
  split.
  { unfold numerical_argmax, numerical_function. cbn [is_none negb andb].
    rewrite Harg, Hbi. reflexivity. }
  split.
  { unfold numerical_max, numerical_function. cbn [is_none negb andb].
    rewrite Hm. reflexivity. }
  split.
  - intros j q' Hq. pose proof (Hmin j q' Hq). Lqa.lra.
  - intros j q' Hj Hq. exact (Hfirst j q' Hj Hq).
Qed.

Lemma sequence_argmax_first_maximum_witness :
  exists (i : nat) (o : mp_obj_t) (q : Q),
    [mp_obj_int 3; mp_obj_float (15 # 2); mp_obj_bool true; mp_obj_float (15 # 2)] !! i
    = Some o
    /\ [3; 15 # 2; 1; 15 # 2]%Q !! i = Some q
    /\ numerical_argmax idle_kernels []
         (mp_obj_seq Tuple
            [mp_obj_int 3; mp_obj_float (15 # 2); mp_obj_bool true; mp_obj_float (15 # 2)])
         mp_const_none
       = Ok (mp_obj_int (Z.of_nat i), [])
    /\ numerical_max idle_kernels []
         (mp_obj_seq Tuple
            [mp_obj_int 3; mp_obj_float (15 # 2); mp_obj_bool true; mp_obj_float (15 # 2)])
         mp_const_none
       = Ok (o, [])
    /\ (forall (j : nat) q', [3; 15 # 2; 1; 15 # 2]%Q !! j = Some q' -> (q' <= q)%Q)
    /\ (forall (j : nat) q', (j < i)%nat -> [3; 15 # 2; 1; 15 # 2]%Q !! j = Some q' ->
          (q' < q)%Q).
Proof.
  apply (sequence_argmax_first_maximum idle_kernels [] Tuple).
  - repeat constructor.
  - repeat (apply Forall_cons_2; [unfold converts_exactly, FLT_MANT_DIG; first [exact I | lia]|]). apply Forall_nil_2.
  - discriminate.
  - reflexivity.
Defined.

(** ** Sequences: mean and standard deviation *)

Lemma iterable_while_numbers (items : list mp_obj_t) (qs : list Q) :
  numbers items qs ->
  forall st, iterable_while items st = iterable_while (mp_obj_float <$> qs) st.
Proof.
  induction 1 as [|o q items qs Hq _ IH]; intros st; [reflexivity|].
  cbn [fmap list_fmap iterable_while]. unfold iterable_step.
  rewrite Hq. cbn [mp_obj_get_float mbind result_bind]. apply IH.
Qed.

Lemma iterable_scan_numbers (items : list mp_obj_t) (qs : list Q) :
  numbers items qs -> iterable_scan items = iterable_scan (mp_obj_float <$> qs).
Proof.
  destruct 1 as [|o q items qs Hq Hrest]; [reflexivity|].
  cbn [fmap list_fmap iterable_scan]. unfold iterable_first.
  rewrite Hq. cbn [mp_obj_get_float mbind result_bind].
  apply iterable_while_numbers. exact Hrest.
Qed.

Lemma iterable_while_count (qs : list Q) :
  forall st, 0 <= it_count st -> it_count st + Z.of_nat (length qs) < 2 ^ 32 ->
    exists st', iterable_while (mp_obj_float <$> qs) st = Ok st'
                /\ it_count st' = it_count st + Z.of_nat (length qs).
Proof.
  induction qs as [|q qs IH]; intros st H0 Hb.
  - exists st. split; [reflexivity|]. cbn [length]. lia.
  - cbn [length] in Hb. rewrite iterable_while_floats.
    destruct (IH (iterable_next q st)) as (st' & Hrun & Hc).
    + cbn [iterable_next it_count]. rewrite size_t_small by lia. lia.
    + cbn [iterable_next it_count]. rewrite size_t_small by lia. lia.
    + exists st'. split; [exact Hrun|]. rewrite Hc.
      cbn [iterable_next it_count length]. rewrite size_t_small by lia. lia.
Qed.

(** The scan ends with [count] one above the number of items. *)
Lemma iterable_scan_count (items : list mp_obj_t) (qs : list Q) :
  numbers items qs -> Z.of_nat (length items) + 1 < 2 ^ 32 ->
  exists st, iterable_scan items = Ok st
             /\ it_count st = Z.of_nat (length items) + 1.
Proof.
  intros Hnum Hb. rewrite (iterable_scan_numbers items qs Hnum).
  rewrite (numbers_length items qs Hnum) in *.
  destruct qs as [|q qs].
  - exists iterable_init. split; reflexivity.
  - cbn [length] in Hb.
    destruct (iterable_while_count qs
                {| it_M := q; it_m := q; it_S := 0; it_s := 0;
                   it_sum := ((9 # 10) + q)%Q; it_count := size_t (1 + 1) |})
      as (st & Hrun & Hc).
    + cbn [it_count]. rewrite size_t_small by lia. lia.
    + cbn [it_count]. rewrite size_t_small by lia. lia.
    + exists st. split; [exact Hrun|]. rewrite Hc. cbn [it_count length].
      rewrite size_t_small by lia. lia.
Qed.

(** X3.  On a non-empty tuple, list or range of numbers (ints, bools and
    floats alike), [mean] returns their arithmetic mean as a float, and
    leaves the heap alone. *)
Theorem sequence_mean_is_arithmetic_mean (K : reduction_kernels) (h : heap) (k : seq_kind)
    (items : list mp_obj_t) (qs : list Q) :
  numbers items qs -> items <> [] -> Z.of_nat (length items) + 1 < 2 ^ 32 ->
  exists m, numerical_mean K h (mp_obj_seq k items) mp_const_none = Ok (mp_obj_float m, h)
            /\ (m == mean_of qs)%Q.
Proof.
  intros Hnum Hne Hb.
  pose proof (numbers_length items qs Hnum) as Hlen.
  destruct qs as [|q0 rest]; [destruct items; [congruence|discriminate]|].
  destruct (iterable_mean_std_value q0 rest 0) as [(m & Hm & Hval) _].
  - rewrite <- Hlen. exact Hb.
  - lia.
  - exists m. split; [|exact Hval].
    unfold numerical_mean, numerical_function. cbn [is_none negb andb].
    unfold numerical_sum_mean_std_iterable in *.
    rewrite (iterable_scan_numbers items (q0 :: rest) Hnum).
    destruct (iterable_scan (mp_obj_float <$> q0 :: rest)) as [st|e];
      cbn [mbind result_bind] in *; [|discriminate].
    injection Hm as ->. reflexivity.
Qed.

Lemma sequence_mean_is_arithmetic_mean_witness :
  exists m, numerical_mean idle_kernels []
              (mp_obj_seq Range [mp_obj_int 0; mp_obj_int 1; mp_obj_int 2; mp_obj_int 3])
              mp_const_none
            = Ok (mp_obj_float m, [])
            /\ (m == mean_of [0; 1; 2; 3]%Q)%Q.
Proof.
  apply (sequence_mean_is_arithmetic_mean idle_kernels [] Range
           [mp_obj_int 0; mp_obj_int 1; mp_obj_int 2; mp_obj_int 3] [0; 1; 2; 3]%Q).
  - repeat constructor.
  - discriminate.
  - reflexivity.
Defined.

(** X4.  On a non-empty tuple, list or range of [n] numbers and for
    [0 <= ddof <= n], [std] returns the square root of
    [(n + 1) * S / (n + 1 - ddof)], where [S] is the sum of the squared
    deviations from the mean: the count the source divides by, and
    multiplies with, is one above the number of items. *)
Theorem sequence_std_value (K : reduction_kernels) (h : heap) (k : seq_kind)
    (items : list mp_obj_t) (qs : list Q) (ddof : Z) :
  numbers items qs -> items <> [] ->
  let n := Z.of_nat (length items) in
  n + 1 < 2 ^ 32 -> 0 <= ddof <= n ->
  exists r, numerical_std K h (mp_obj_seq k items) mp_const_none (mp_obj_int ddof)
            = Ok (mp_obj_float_sqrt r, h)
            /\ (r == inject_Z (n + 1) * sum_sq_dev qs / inject_Z (n + 1 - ddof))%Q.
Proof.
  intros Hnum Hne n Hb Hddof.
  pose proof (numbers_length items qs Hnum) as Hlen.
  destruct qs as [|q0 rest]; [destruct items; [congruence|discriminate]|].
  destruct (iterable_mean_std_value q0 rest ddof) as [_ (r & Hr & Hval)].
  - rewrite <- Hlen. exact Hb.
  - rewrite <- Hlen. exact Hddof.
  - exists r. split; [|unfold n; rewrite Hlen; exact Hval].
    unfold numerical_std. cbn [mp_obj_get_int std_axis_guard is_none mbind result_bind].
    rewrite size_t_small by (unfold n in *; lia).
    unfold numerical_sum_mean_std_iterable in *.
    rewrite (iterable_scan_numbers items (q0 :: rest) Hnum).
    destruct (iterable_scan (mp_obj_float <$> q0 :: rest)) as [st|e];
      cbn [mbind result_bind] in *; [|discriminate].
    injection Hr as ->. reflexivity.
Qed.

Lemma sequence_std_value_witness :
  exists r, numerical_std idle_kernels []
              (mp_obj_seq List [mp_obj_int 1; mp_obj_int 2; mp_obj_int 3; mp_obj_int 4])
              mp_const_none (mp_obj_int 1)
            = Ok (mp_obj_float_sqrt r, [])
            /\ (r == inject_Z (4 + 1) * sum_sq_dev [1; 2; 3; 4]%Q / inject_Z (4 + 1 - 1))%Q.
Proof.
  apply (sequence_std_value idle_kernels [] List
           [mp_obj_int 1; mp_obj_int 2; mp_obj_int 3; mp_obj_int 4] [1; 2; 3; 4]%Q 1).
  - repeat constructor.
  - discriminate.
  - reflexivity.
  - cbn [length]. lia.
Defined.

(** X5.  [std] returns the float 0.0 whenever [ddof] is larger than the
    number of items, and also whenever [ddof] is negative: the keyword is
    read into a [size_t], where a negative number is a huge one. *)
Theorem sequence_std_zero (K : reduction_kernels) (h : heap) (k : seq_kind)
    (items : list mp_obj_t) (qs : list Q) (ddof : Z) :
  numbers items qs ->
  let n := Z.of_nat (length items) in
  n + 1 < 2 ^ 32 ->
  n < ddof < 2 ^ 32 \/ n - 2 ^ 32 < ddof < 0 ->
  numerical_std K h (mp_obj_seq k items) mp_const_none (mp_obj_int ddof)
  = Ok (mp_obj_float 0, h).
Proof.
  intros Hnum n Hb Hddof.
  destruct (iterable_scan_count items qs Hnum Hb) as (st & Hscan & Hc).
  unfold numerical_std. cbn [mp_obj_get_int std_axis_guard is_none mbind result_bind].
  unfold numerical_sum_mean_std_iterable. rewrite Hscan. cbn [mbind result_bind].
  rewrite Hc. fold n.
  assert (Hs : n + 1 <= size_t ddof).
  { unfold size_t, wrap_unsigned. destruct Hddof as [Hd | Hd].
    - rewrite Z.mod_small by lia. lia.
    - replace ddof with (ddof + 2 ^ 32 + (-1) * 2 ^ 32) by lia.
      rewrite Z.mod_add by lia. rewrite Z.mod_small by lia. lia. }
  destruct (n + 1 >? size_t ddof) eqn:Hgt; [lia|reflexivity].
Qed.

Lemma sequence_std_zero_witness :
  numerical_std idle_kernels [] (mp_obj_seq List [mp_obj_int 1; mp_obj_float (5 # 2)])
    mp_const_none (mp_obj_int (-1))
  = Ok (mp_obj_float 0, []).
Proof.
  apply (sequence_std_zero idle_kernels [] List [mp_obj_int 1; mp_obj_float (5 # 2)]
           [1; 5 # 2]%Q (-1)).
  - repeat constructor.
  - reflexivity.
  - right. cbn [length]. lia.
Defined.

(** ** Sequences: items that are not numbers *)

Lemma mp_obj_get_float_cases (o : mp_obj_t) :
  (exists q, mp_obj_get_float o = Ok q)
  \/ mp_obj_get_float o = Raise (TypeError "can't convert to float").
Proof. destruct o; cbn; eauto. Qed.

Lemma iterable_while_not_a_number (items : list mp_obj_t) :
  Exists (fun o => forall q, mp_obj_get_float o <> Ok q) items ->
  forall st, raises (iterable_while items st) TypeError_kind.
Proof.
  induction items as [|o items IH]; intros Hbad st; [inversion Hbad|].
  cbn [iterable_while]. unfold iterable_step.
  destruct (mp_obj_get_float_cases o) as [[q Hq] | Hq]; rewrite Hq;
    cbn [mbind result_bind raises kind_of]; [|reflexivity].
  apply IH. inversion Hbad as [? ? Ho | ? ? Hrest]; subst; [|exact Hrest].
  exfalso. exact (Ho q Hq).
Qed.

Lemma iterable_scan_not_a_number (items : list mp_obj_t) :
  Exists (fun o => forall q, mp_obj_get_float o <> Ok q) items ->
  raises (iterable_scan items) TypeError_kind.
Proof.
  destruct items as [|o items]; intros Hbad; [inversion Hbad|].
  cbn [iterable_scan]. unfold iterable_first.
  destruct (mp_obj_get_float_cases o) as [[q Hq] | Hq]; rewrite Hq;
    cbn [mbind result_bind raises kind_of]; [|reflexivity].
  apply iterable_while_not_a_number.
  inversion Hbad as [? ? Ho | ? ? Hrest]; subst; [|exact Hrest].
  exfalso. exact (Ho q Hq).
Qed.

Lemma sum_mean_std_iterable_not_a_number (items : list mp_obj_t)
    (optype : NUMERICAL_FUNCTION_TYPE) (ddof : Z) :
  Exists (fun o => forall q, mp_obj_get_float o <> Ok q) items ->
  forall h : heap,
    raises (r ← numerical_sum_mean_std_iterable items optype ddof; Ok (r, h))
           TypeError_kind.
Proof.
  intros Hbad h. pose proof (iterable_scan_not_a_number items Hbad) as Hscan.
  unfold numerical_sum_mean_std_iterable.
  destruct (iterable_scan items) as [st|e]; [destruct Hscan|exact Hscan].
Qed.

Lemma argmin_argmax_while_not_a_number (op : Z) (items : list mp_obj_t) :
  Exists (fun o => forall q, mp_obj_get_float o <> Ok q) items ->
  forall st, raises (argmin_argmax_while op items st) TypeError_kind.
Proof.
  induction items as [|o items IH]; intros Hbad st; [inversion Hbad|].
  cbn [argmin_argmax_while]. unfold argmin_argmax_step.
  destruct (mp_obj_get_float_cases o) as [[q Hq] | Hq]; rewrite Hq;
    cbn [mbind result_bind raises kind_of]; [|reflexivity].
  assert (Hrest : Exists (fun o => forall q, mp_obj_get_float o <> Ok q) items).
  { inversion Hbad as [? ? Ho | ? ? Hrest]; subst; [|exact Hrest].
    exfalso. exact (Ho q Hq). }
  destruct ((op =? 0) && Qltb q (bs_best_value st));
    [|destruct ((op =? 1) && Qltb (bs_best_value st) q)];
    cbn [mbind result_bind]; apply IH; exact Hrest.
Qed.

Lemma argmin_argmax_iterable_not_a_number (items : list mp_obj_t)
    (optype : NUMERICAL_FUNCTION_TYPE) :
  Exists (fun o => forall q, mp_obj_get_float o <> Ok q) items ->
  raises (numerical_argmin_argmax_iterable items optype) TypeError_kind.
Proof.
  destruct items as [|o items]; intros Hbad; [inversion Hbad|].
  unfold numerical_argmin_argmax_iterable.
  destruct (mp_obj_get_float_cases o) as [[q Hq] | Hq]; rewrite Hq;
    cbn [mbind result_bind raises kind_of]; [|reflexivity].
  assert (Hrest : Exists (fun o => forall q, mp_obj_get_float o <> Ok q) items).
  { inversion Hbad as [? ? Ho | ? ? Hrest]; subst; [|exact Hrest].
    exfalso. exact (Ho q Hq). }
  pose proof (argmin_argmax_while_not_a_number
                match optype with NUMERICAL_ARGMAX | NUMERICAL_MAX => 1 | _ => 0 end
                items Hrest
                {| bs_idx := 0; bs_best_idx := 0; bs_best_obj := o; bs_best_value := q |})
    as Hrun.
  destruct (argmin_argmax_while _ items _) as [st|e]; [destruct Hrun|exact Hrun].
Qed.

(** X6.  Every reduction converts every item of a tuple, list or range: if
    one of them is not a number ([None], a tuple, list or range, an array,
    or any other object that is neither an int, a bool nor a float), the
    call raises a TypeError, wherever the item stands and whatever the
    others are. *)
Theorem sequence_item_not_a_number (K : reduction_kernels) (h : heap) (k : seq_kind)
    (op : operation) (items : list mp_obj_t) :
  is_reduction op = true ->
  Exists not_a_number items ->
  raises (call K h op (mp_obj_seq k items) mp_const_none) TypeError_kind.
Proof.
  intros Hop Hbad.
  apply (Exists_impl _ (fun o => forall q, mp_obj_get_float o <> Ok q)) in Hbad;
    [|intros o Ho q; destruct o; try destruct Ho; discriminate].
  pose proof (fun optype => argmin_argmax_iterable_not_a_number items optype Hbad) as Harg.
  pose proof (fun optype ddof =>
                sum_mean_std_iterable_not_a_number items optype ddof Hbad h) as Hsum.
  destruct op; try discriminate; cbn [call];
    unfold numerical_sum, numerical_mean, numerical_min, numerical_max, numerical_argmin,
      numerical_argmax, numerical_std, numerical_function;
    cbn [is_none negb andb mp_obj_get_int std_axis_guard mbind result_bind].
  - apply Hsum.
  - apply Hsum.
  - apply Hsum.
  - specialize (Harg NUMERICAL_MIN).
    destruct (numerical_argmin_argmax_iterable items NUMERICAL_MIN); [destruct Harg|exact Harg].
  - specialize (Harg NUMERICAL_MAX).
    destruct (numerical_argmin_argmax_iterable items NUMERICAL_MAX); [destruct Harg|exact Harg].
  - specialize (Harg NUMERICAL_ARGMIN).
    destruct (numerical_argmin_argmax_iterable items NUMERICAL_ARGMIN);
      [destruct Harg|exact Harg].
  - specialize (Harg NUMERICAL_ARGMAX).
    destruct (numerical_argmin_argmax_iterable items NUMERICAL_ARGMAX);
      [destruct Harg|exact Harg].
Qed.

Lemma sequence_item_not_a_number_witness :
  raises (call idle_kernels [] Op_max
            (mp_obj_seq List [mp_obj_int 1; mp_obj_float (1 # 2); mp_obj_str "x"; mp_obj_int 4])
            mp_const_none)
         TypeError_kind.
Proof.
  apply (sequence_item_not_a_number idle_kernels [] List Op_max).
  - reflexivity.
  - apply Exists_cons_tl, Exists_cons_tl, Exists_cons_hd. exact I.
Defined.

(** ** Inputs of the wrong type *)

(** X7.  An input an operation does not take raises a TypeError, whatever
    the axis argument is: for the reductions anything that is neither a
    tuple, list, range nor an array, for [diff], [flip] and [roll] anything
    that is not an array.  ([std] tests its axis first, and is covered here
    for [axis = None].) *)
Theorem input_type_is_checked (K : reduction_kernels) (h : heap) (op : operation)
    (oin axis : mp_obj_t) :
  accepts_input op oin = false ->
  (is_std op = true -> axis = mp_const_none) ->
  raises (call K h op oin axis) TypeError_kind.
Proof.
  intros Hin Hstd.
  destruct op; cbn [call];
    unfold numerical_sum, numerical_mean, numerical_min, numerical_max, numerical_argmin,
      numerical_argmax, numerical_std, numerical_function, numerical_diff, numerical_flip,
      numerical_roll;
    try (rewrite (Hstd eq_refl));
    cbn [is_none negb andb mp_obj_get_int std_axis_guard mbind result_bind];
    destruct oin; try discriminate Hin;
    destruct axis; cbn; try reflexivity.
Qed.

Lemma input_type_is_checked_witness :
  raises (call idle_kernels [] (Op_roll 1)
            (mp_obj_seq List [mp_obj_int 1; mp_obj_int 2]) (mp_obj_int 0))
         TypeError_kind.
Proof.
  apply (input_type_is_checked idle_kernels [] (Op_roll 1)).
  - reflexivity.
  - discriminate.
Defined.

(** ** Narrowing of the integer arguments *)

Lemma int8_t_period (a : Z) : int8_t (a + 256) = int8_t a.
Proof.
  unfold int8_t, wrap_signed. change (2 ^ 8) with 256. change (2 ^ (8 - 1)) with 128.
  replace (a + 256 + 128) with (a + 128 + 1 * 256) by lia.
  rewrite Z.mod_add by lia. reflexivity.
Qed.

Lemma uint8_t_period (a : Z) : uint8_t (a + 256) = uint8_t a.
Proof.
  unfold uint8_t, wrap_unsigned. change (2 ^ 8) with 256.
  replace (a + 256) with (a + 1 * 256) by lia.
  rewrite Z.mod_add by lia. reflexivity.
Qed.

Lemma check_axis_period (nd : ndarray_obj_t) (a : Z) :
  check_axis nd (a + 256) = check_axis nd a.
Proof. unfold check_axis. rewrite int8_t_period. reflexivity. Qed.

(** X8.  The axis is stored into an [int8_t] before it is checked, and the
    order of [diff] into a [uint8_t]: for every operation but [std], an axis
    [a + 256] does what the axis [a] does, and [diff] of order [n + 256]
    does what [diff] of order [n] does. *)
Theorem axis_and_order_are_narrowed (K : reduction_kernels) (h : heap) (op : operation)
    (oin : mp_obj_t) (a : Z) :
  is_std op = false ->
  call K h op oin (mp_obj_int (a + 256)) = call K h op oin (mp_obj_int a)
  /\ forall n, numerical_diff h oin (mp_obj_int (n + 256)) (mp_obj_int a)
               = numerical_diff h oin (mp_obj_int n) (mp_obj_int a).
Proof.
  intros Hop. split.
  - destruct op; try discriminate Hop; cbn [call];
      unfold numerical_sum, numerical_mean, numerical_min, numerical_max, numerical_argmin,
        numerical_argmax, numerical_function, numerical_diff, numerical_flip, numerical_roll,
        numerical_sum_mean_std_ndarray, numerical_argmin_argmax_ndarray;
      cbn [is_none negb andb MP_OBJ_IS_INT mp_obj_get_int mbind result_bind];
      destruct oin; try reflexivity; rewrite ?check_axis_period; reflexivity.
  - intros n. unfold numerical_diff. cbn [mp_obj_get_int mbind result_bind].
    destruct oin; try reflexivity.
    destruct (check_axis nd a) as [ax|e]; cbn [mbind result_bind]; [|reflexivity].
    unfold diff_axis. rewrite uint8_t_period. reflexivity.
Qed.

Lemma axis_and_order_are_narrowed_witness :
  call idle_kernels mat23_heap Op_flip (mp_obj_ndarray mat23) (mp_obj_int (1 + 256))
  = call idle_kernels mat23_heap Op_flip (mp_obj_ndarray mat23) (mp_obj_int 1)
  /\ forall n, numerical_diff mat23_heap (mp_obj_ndarray mat23) (mp_obj_int (n + 256))
                 (mp_obj_int 1)
               = numerical_diff mat23_heap (mp_obj_ndarray mat23) (mp_obj_int n)
                   (mp_obj_int 1).
Proof.
  apply (axis_and_order_are_narrowed idle_kernels mat23_heap Op_flip (mp_obj_ndarray mat23) 1).
  reflexivity.
Defined.

(** ** The stencil of diff *)

(** X9.  For every order [N] that [diff] lets through (0 to 9) the stencil
    it builds has [N + 1] weights, the weights are the binomial coefficients
    with alternating signs, [stencil[i] = (-1)^i * C(N, i)] (the division of
    the loop is exact, and no weight overflows the [int8_t] it is stored
    in), and for [N >= 1] they add up to 0. *)
Theorem stencil_is_binomial (N : Z) :
  0 <= N <= 9 ->
  length (make_stencil N) = Z.to_nat (N + 1)
  /\ (forall i, 0 <= i <= N ->
        slot (make_stencil N) i
        = (-1) ^ i * Z.of_nat (binomial (Z.to_nat N) (Z.to_nat i)))
  /\ (1 <= N -> foldr Z.add 0 (make_stencil N) = 0).
Proof.
  intros HN.
  assert (Hcases : N = 0 \/ N = 1 \/ N = 2 \/ N = 3 \/ N = 4 \/ N = 5 \/ N = 6
                   \/ N = 7 \/ N = 8 \/ N = 9) by lia.
  repeat destruct Hcases as [-> | Hcases]; try subst N;
    (split; [reflexivity|]; split; [|intros; vm_compute; try reflexivity; lia]);
    intros i Hi;
    assert (Hi' : i = 0 \/ i = 1 \/ i = 2 \/ i = 3 \/ i = 4 \/ i = 5 \/ i = 6
                  \/ i = 7 \/ i = 8 \/ i = 9) by lia;
    repeat destruct Hi' as [-> | Hi']; try subst i; try lia; reflexivity.
Qed.

Lemma stencil_is_binomial_witness :
  length (make_stencil 4) = Z.to_nat (4 + 1)
  /\ (forall i, 0 <= i <= 4 ->
        slot (make_stencil 4) i
        = (-1) ^ i * Z.of_nat (binomial (Z.to_nat 4) (Z.to_nat i)))
  /\ (1 <= 4 -> foldr Z.add 0 (make_stencil 4) = 0).
Proof. apply (stencil_is_binomial 4). lia. Defined.

(** ** numerical_roll along an axis, for arrays of any rank *)

Lemma replay_app (T1 T2 : list (pointer * pointer)) (h : heap) :
  replay (T1 ++ T2) h = replay T2 (replay T1 h).
Proof. unfold replay. apply foldl_app. Qed.

Lemma advances_iter (f : roll_state -> roll_state) (dp dr : Z)
    (G : pointer -> pointer -> list (pointer * pointer)) (c : nat) :
  advances f dp dr G ->
  advances (Nat.iter c f) (Z.of_nat c * dp) (Z.of_nat c * dr) (repeat_copies c dp dr G).
Proof.
  intros Hf. induction c as [|c IH]; intros st.
  - cbn [Nat.iter nat_rect]. change (Z.of_nat 0) with 0. rewrite !Z.mul_0_l, !ptr_add_0.
    repeat split.
  - rewrite Nat.iter_succ.
    destruct (IH st) as (Ha & Hr & Hh). destruct (Hf (Nat.iter c f st)) as (Ha' & Hr' & Hh').
    rewrite Ha', Hr', Hh', Ha, Hr, Hh, !ptr_add_add.
    split; [f_equal; lia|]. split; [f_equal; lia|].
    unfold repeat_copies. rewrite seq_S, bind_app, replay_app. cbn [Nat.add].
    f_equal. cbn [mbind list_bind]. rewrite app_nil_r. reflexivity.
Qed.

(** A loop level: the inner loop runs, then the pointers are rewound and
    stepped along the next axis. *)
Lemma advances_level (shape_ strides_ rshape rstrides : list Z) (i : Z)
    (f : roll_state -> roll_state)
    (G : pointer -> pointer -> list (pointer * pointer)) :
  advances f (slot strides_ i) (slot rstrides i) G ->
  Z.of_nat (turns (slot shape_ i)) * slot strides_ i = slot strides_ i * slot shape_ i ->
  Z.of_nat (turns (slot shape_ i)) * slot rstrides i = slot rstrides i * slot rshape i ->
  advances (fun st => roll_axis_carry shape_ strides_ rshape rstrides i
                        (do_while (slot shape_ i) f st))
           (slot strides_ (i - 1)) (slot rstrides (i - 1))
           (repeat_copies (turns (slot shape_ i)) (slot strides_ i) (slot rstrides i) G).
Proof.
  intros Hf Hs Hr st.
  destruct (advances_iter f _ _ G (turns (slot shape_ i)) Hf st) as (Ha & Hc & Hh).
  unfold roll_axis_carry, do_while. fold (turns (slot shape_ i)).
  cbn [r_array r_rarray r_heap]. rewrite Ha, Hc, Hh, !ptr_add_add.
  split; [f_equal; lia|]. split; [f_equal; lia|]. reflexivity.
Qed.

(** The lane loop, turn by turn. *)
Lemma lane_replay (nd results : ndarray_obj_t) (ax : Z) (h : heap) (p r0 : pointer)
    (n sh : Z) (t : nat) :
  let s := slot (strides nd) ax in
  let rs := slot (strides results) ax in
  0 <= sh < n -> n < 2 ^ 32 -> Z.of_nat t <= n ->
  Nat.iter t (roll_axis_item nd results ax r0)
    {| r_heap := h; r_array := p; r_rarray := ptr_add r0 (sh * rs);
       r_counter := size_t (n - sh) |}
  = {| r_heap :=
         replay ((fun t' : nat => (ptr_add r0 ((sh + Z.of_nat t') mod n * rs),
                                   ptr_add p (Z.of_nat t' * s))) <$> seq 0 t) h;
       r_array := ptr_add p (Z.of_nat t * s);
       r_rarray := (if Z.of_nat t <? n - sh
                    then ptr_add r0 ((sh + Z.of_nat t) * rs)
                    else ptr_add r0 ((Z.of_nat t - (n - sh)) * rs));
       r_counter := size_t (n - sh - Z.of_nat t) |}.
Proof.
  intros s rs Hsh Hn. induction t as [|t IH]; intros Ht.
  - cbn [Nat.iter nat_rect seq fmap list_fmap]. change (Z.of_nat 0) with 0.
    rewrite Z.mul_0_l, ptr_add_0, Z.sub_0_r, Z.add_0_r.
    rewrite (proj2 (Z.ltb_lt 0 (n - sh))) by lia. reflexivity.
  - rewrite Nat.iter_succ, IH by lia. clear IH.
    unfold roll_axis_item. cbn [r_heap r_array r_rarray r_counter]. fold s rs.
    assert (Hcell : (if Z.of_nat t <? n - sh
                     then ptr_add r0 ((sh + Z.of_nat t) * rs)
                     else ptr_add r0 ((Z.of_nat t - (n - sh)) * rs))
                    = ptr_add r0 ((sh + Z.of_nat t) mod n * rs)).
    { destruct (Z.ltb_spec (Z.of_nat t) (n - sh)) as [Hlt | Hge].
      - rewrite Z.mod_small by lia. reflexivity.
      - f_equal. f_equal.
        rewrite <- (Z.mod_small (Z.of_nat t - (n - sh)) n) by lia.
        rewrite <- (Z.mod_add (Z.of_nat t - (n - sh)) 1 n) by lia. f_equal. lia. }
    assert (Hzero : (size_t (size_t (n - sh - Z.of_nat t) - 1) =? 0)
                    = (Z.of_nat (S t) =? n - sh)).
    { unfold size_t, wrap_unsigned.
      rewrite Zminus_mod_idemp_l.
      destruct (Z.eqb_spec (Z.of_nat (S t)) (n - sh)) as [Heq | Hne].
      - replace (n - sh - Z.of_nat t - 1) with 0 by lia. reflexivity.
      - apply Z.eqb_neq. intros Hmod.
        destruct (Z.ltb_spec (Z.of_nat (S t)) (n - sh)) as [Hlt | Hge].
        + rewrite Z.mod_small in Hmod by lia. lia.
        + rewrite <- (Z.mod_add _ 1) in Hmod by lia.
          rewrite Z.mod_small in Hmod by lia. lia. }
    rewrite Hzero. f_equal.
    + rewrite seq_S, fmap_app, replay_app. cbn [Nat.add fmap list_fmap].
      unfold replay at 1. cbn [foldl fst snd]. rewrite Hcell. reflexivity.
    + rewrite ptr_add_add. f_equal. lia.
    + destruct (Z.eqb_spec (Z.of_nat (S t)) (n - sh)) as [Heq | Hne].
      * rewrite (proj2 (Z.ltb_ge _ _)) by lia.
        replace ((Z.of_nat (S t) - (n - sh)) * rs) with 0 by nia.
        symmetry. apply ptr_add_0.
      * destruct (Z.ltb_spec (Z.of_nat t) (n - sh)) as [Hlt | Hge].
        -- rewrite (proj2 (Z.ltb_lt _ _)) by lia.
           rewrite ptr_add_add. f_equal. nia.
        -- rewrite (proj2 (Z.ltb_ge _ _)) by lia.
           rewrite ptr_add_add. f_equal. nia.
    + unfold size_t, wrap_unsigned. rewrite Zminus_mod_idemp_l. f_equal. lia.
Qed.

(** One lane, for a distance that is not negative. *)
Lemma lane_advances (nd results : ndarray_obj_t) (ax shift sh : Z)
    (strides_ rstrides : list Z) :
  let n := slot (shape nd) ax in
  0 <= shift -> slot (shape results) ax = n -> 1 <= n < 2 ^ 32 -> 0 <= sh < n ->
  advances (roll_axis_lane nd results ax shift sh strides_ rstrides)
           (slot strides_ 3) (slot rstrides 3)
           (lane_copies (slot (strides nd) ax) (slot (strides results) ax) n sh).
Proof.
  intros n Hshift Hres Hn Hsh st. unfold roll_axis_lane.
  rewrite (proj2 (Z.ltb_ge shift 0)) by lia. cbn [andb].
  rewrite Hres. fold n. unfold do_while. rewrite Z.max_r by lia.
  rewrite (lane_replay nd results ax (r_heap st) (r_array st) (r_rarray st) n sh
             (Z.to_nat n)) by lia.
  cbn [r_heap r_array r_rarray r_counter]. rewrite !ptr_add_add.
  change (ULAB_MAX_DIMS - 1) with 3.
  split; [f_equal; lia|]. split; reflexivity.
Qed.

(** The one-axis branch as a list of copies: for every lane, in the order
    of the three loops around it, the copies of the lane. *)
Lemma roll_axis_replay (h : heap) (nd results : ndarray_obj_t) (shift _shift ax : Z) :
  let shape_ := fst (numerical_reduce_axes nd ax (replicate 4 0) (replicate 4 0)) in
  let strides_ := snd (numerical_reduce_axes nd ax (replicate 4 0) (replicate 4 0)) in
  let rshape := fst (numerical_reduce_axes results ax (replicate 4 0) (replicate 4 0)) in
  let rstrides := snd (numerical_reduce_axes results ax (replicate 4 0) (replicate 4 0)) in
  let ix := int8_t (ULAB_MAX_DIMS - ndim nd + ax) in
  let n := slot (shape nd) ix in
  let sh := int32_t (size_t _shift mod n) in
  0 <= shift -> slot (shape results) ix = n -> 1 <= n < 2 ^ 32 -> 0 <= sh < n ->
  (forall i, i = 2 \/ i = 3 ->
     Z.of_nat (turns (slot shape_ i)) * slot strides_ i = slot strides_ i * slot shape_ i
     /\ Z.of_nat (turns (slot shape_ i)) * slot rstrides i
        = slot rstrides i * slot rshape i) ->
  roll_axis h nd results shift _shift ax
  = replay
      (repeat_copies (turns (slot shape_ 1)) (slot strides_ 1) (slot rstrides 1)
         (repeat_copies (turns (slot shape_ 2)) (slot strides_ 2) (slot rstrides 2)
            (repeat_copies (turns (slot shape_ 3)) (slot strides_ 3) (slot rstrides 3)
               (lane_copies (slot (strides nd) ix) (slot (strides results) ix) n sh)))
         (array nd) (array results))
      h.
Proof.
  intros shape_ strides_ rshape rstrides ix n sh Hshift Hres Hn Hsh Hlevels.
  unfold roll_axis.
  rewrite (surjective_pairing (numerical_reduce_axes nd ax _ _)).
  rewrite (surjective_pairing (numerical_reduce_axes results ax _ _)).
  fold shape_ strides_ rshape rstrides ix. rewrite Hres. fold n sh.
  change (ULAB_MAX_DIMS - 1) with 3. change (ULAB_MAX_DIMS - 2) with 2.
  change (ULAB_MAX_DIMS - 3) with 1.
  pose proof (lane_advances nd results ix shift sh strides_ rstrides Hshift Hres Hn Hsh)
    as Hlane.
  fold n in Hlane.
  pose proof (advances_level shape_ strides_ rshape rstrides 3 _ _ Hlane
                (proj1 (Hlevels 3 (or_intror eq_refl)))
                (proj2 (Hlevels 3 (or_intror eq_refl)))) as Hk.
  change (3 - 1) with 2 in Hk.
  pose proof (advances_level shape_ strides_ rshape rstrides 2 _ _ Hk
                (proj1 (Hlevels 2 (or_introl eq_refl)))
                (proj2 (Hlevels 2 (or_introl eq_refl)))) as Hj.
  change (2 - 1) with 1 in Hj.
  pose proof (advances_iter _ _ _ _ (turns (slot shape_ 1)) Hj) as Hi.
  destruct (Hi {| r_heap := h; r_array := array nd; r_rarray := array results;
                  r_counter := 0 |}) as (_ & _ & Hheap).
  exact Hheap.
Qed.

Lemma elem_of_roll_copies (C1 C2 C3 : nat) (t1 t2 t3 u1 u2 u3 s rs n sh : Z)
    (P R : pointer) (c : pointer * pointer) :
  c ∈ repeat_copies C1 t1 u1
        (repeat_copies C2 t2 u2 (repeat_copies C3 t3 u3 (lane_copies s rs n sh))) P R
  <-> exists x1 x2 x3 t : nat,
        (x1 < C1 /\ x2 < C2 /\ x3 < C3 /\ t < Z.to_nat n)%nat
        /\ c = (ptr_add R (Z.of_nat x1 * u1 + Z.of_nat x2 * u2 + Z.of_nat x3 * u3
                           + (sh + Z.of_nat t) mod n * rs),
                ptr_add P (Z.of_nat x1 * t1 + Z.of_nat x2 * t2 + Z.of_nat x3 * t3
                           + Z.of_nat t * s)).
Proof.
  unfold repeat_copies, lane_copies. split.
  - intros Hc.
    apply list_elem_of_bind in Hc as (x1 & Hc & Hx1).
    apply list_elem_of_bind in Hc as (x2 & Hc & Hx2).
    apply list_elem_of_bind in Hc as (x3 & Hc & Hx3).
    apply list_elem_of_fmap in Hc as (t & -> & Ht).
    apply elem_of_seq in Hx1, Hx2, Hx3, Ht.
    exists x1, x2, x3, t. split; [lia|].
    rewrite !ptr_add_add. f_equal; f_equal; lia.
  - intros (x1 & x2 & x3 & t & Hb & ->).
    apply list_elem_of_bind. exists x1. split; [|apply elem_of_seq; lia].
    apply list_elem_of_bind. exists x2. split; [|apply elem_of_seq; lia].
    apply list_elem_of_bind. exists x3. split; [|apply elem_of_seq; lia].
    apply list_elem_of_fmap. exists t. split; [|apply elem_of_seq; lia].
    rewrite !ptr_add_add. f_equal; f_equal; lia.
Qed.

Lemma repeat_copies_once (dp dr : Z) (G : pointer -> pointer -> list (pointer * pointer))
    (p r : pointer) :
  repeat_copies 1 dp dr G p r = G p r.
Proof.
  unfold repeat_copies. cbn [seq mbind list_bind]. change (Z.of_nat 0) with 0.
  rewrite !Z.mul_0_l, !ptr_add_0, app_nil_r. reflexivity.
Qed.

(** Copies whose sources are never a destination read the heap they
    started from. *)
Lemma replay_stores (T : list (pointer * pointer)) (h : heap) :
  (forall c c', c ∈ T -> c' ∈ T -> p_block (snd c) <> p_block (fst c')) ->
  replay T h = foldl (fun h' c => store h' (fst c) (load h (snd c))) h T.
Proof.
  intros Hsep. unfold replay.
  assert (Hgen : forall h1, (forall c, c ∈ T -> load h1 (snd c) = load h (snd c)) ->
            foldl (fun h' c => memcpy h' (fst c) (snd c)) h1 T
            = foldl (fun h' c => store h' (fst c) (load h (snd c))) h1 T).
  { induction T as [|c T IH]; intros h1 Hsame; [reflexivity|].
    cbn [foldl].
    change (memcpy h1 (fst c) (snd c)) with (store h1 (fst c) (load h1 (snd c))).
    rewrite (Hsame c) by (left).
    apply IH.
    - intros c1 c2 H1 H2. apply Hsep; right; assumption.
    - intros c' Hc'. rewrite load_store_other.
      + apply Hsame. right. exact Hc'.
      + intros Heq. apply (Hsep c' c); [right; exact Hc'|left|]. rewrite Heq. reflexivity. }
  apply Hgen. reflexivity.
Qed.

Lemma foldl_store_frame {K : Type} (addr : K -> pointer) (val : K -> option Q)
    (keys : list K) (h : heap) (q : pointer) :
  (forall k, k ∈ keys -> q <> addr k) ->
  load (foldl (fun h' k' => store h' (addr k') (val k')) h keys) q = load h q.
Proof.
  revert h. induction keys as [|k keys IH]; intros h Hq; [reflexivity|].
  cbn [foldl]. rewrite IH by (intros k' Hk'; apply Hq; right; exact Hk').
  apply load_store_other. apply Hq. left.
Qed.

(** Copies that realise an injective map of destinations to sources: every
    destination holds what its source held, and nothing else is written. *)
Lemma replay_indexed {I : Type} (dst src : I -> pointer) (valid : I -> Prop)
    (T : list (pointer * pointer)) (h : heap) (rb : nat) :
  (forall c, c ∈ T <-> exists i, valid i /\ c = (dst i, src i)) ->
  (forall i i', valid i -> valid i' -> dst i = dst i' -> i = i') ->
  (forall i, valid i -> p_block (dst i) = rb /\ p_block (src i) <> rb) ->
  (rb < length h)%nat ->
  (forall i, valid i -> load (replay T h) (dst i) = load h (src i))
  /\ (forall q, (forall i, valid i -> q <> dst i) -> load (replay T h) q = load h q).
Proof.
  intros Hmem Hinj Hblk Hrb.
  rewrite replay_stores.
  2:{ intros c c' Hc Hc'. apply Hmem in Hc as (i & Hi & ->). apply Hmem in Hc' as (i' & Hi' & ->).
      cbn [fst snd]. destruct (Hblk i Hi) as [_ Hs]. destruct (Hblk i' Hi') as [Hd _].
      rewrite Hd. exact Hs. }
  split.
  - intros i Hi.
    change (dst i) with (fst (dst i, src i)).
    change (load h (src i)) with ((fun c : pointer * pointer => load h (snd c)) (dst i, src i)).
    apply (foldl_store fst (fun c => load h (snd c)) T h (dst i, src i)).
    + intros c Hc. apply Hmem in Hc as (i' & Hi' & ->). cbn [fst].
      destruct (Hblk i' Hi') as [-> _]. exact Hrb.
    + intros c Hc Heq. apply Hmem in Hc as (i' & Hi' & ->). cbn [fst snd] in *.
      rewrite (Hinj i' i Hi' Hi Heq). reflexivity.
    + apply Hmem. exists i. split; [exact Hi|reflexivity].
  - intros q Hq. apply foldl_store_frame.
    intros c Hc. apply Hmem in Hc as (i & Hi & ->). cbn [fst]. apply Hq. exact Hi.
Qed.

Lemma mod_shift_back (n sh t : Z) :
  0 <= t < n -> ((sh + t) mod n - sh) mod n = t.
Proof.
  intros Ht. rewrite Zminus_mod_idemp_l. replace (sh + t - sh) with t by lia.
  apply Z.mod_small. exact Ht.
Qed.

Lemma mod_shift_forth (n sh i : Z) :
  0 <= i < n -> (sh + (i - sh) mod n) mod n = i.
Proof.
  intros Hi. rewrite Zplus_mod_idemp_r. replace (sh + (i - sh)) with i by lia.
  apply Z.mod_small. exact Hi.
Qed.

Lemma turns_extent (n : Z) : 1 <= n -> Z.of_nat (turns n) = n.
Proof. intros Hn. unfold turns. lia. Qed.

(** Slots of lists that are written out. *)
Ltac concrete_slots :=
  unfold slot, set_slot;
  change (Z.to_nat 0) with 0%nat; change (Z.to_nat 1) with 1%nat;
  change (Z.to_nat 2) with 2%nat; change (Z.to_nat 3) with 3%nat;
  cbv [default from_option Datatypes.id lookup list_lookup insert list_insert
       delete list_delete].

Ltac concrete_slots_everywhere :=
  unfold slot, set_slot in *;
  change (Z.to_nat 0) with 0%nat in *; change (Z.to_nat 1) with 1%nat in *;
  change (Z.to_nat 2) with 2%nat in *; change (Z.to_nat 3) with 3%nat in *;
  cbv [default from_option Datatypes.id lookup list_lookup insert list_insert
       delete list_delete] in *.

(** For a rank of at least 2, [numerical_reduce_axes] leaves the shape and
    the strides with the slot of the axis deleted, behind a slot it does not
    write. *)
Lemma reduce_axes_delete (nd : ndarray_obj_t) (ax a0 a1 a2 a3 s0 s1 s2 s3 : Z) :
  2 <= ndim nd <= 4 -> 0 <= ax < ndim nd ->
  shape nd = [a0; a1; a2; a3] -> strides nd = [s0; s1; s2; s3] ->
  numerical_reduce_axes nd ax (replicate 4 0) (replicate 4 0)
  = (0 :: delete (Z.to_nat (ULAB_MAX_DIMS - ndim nd + ax)) [a0; a1; a2; a3],
     0 :: delete (Z.to_nat (ULAB_MAX_DIMS - ndim nd + ax)) [s0; s1; s2; s3]).
Proof.
  intros Hnd Hax Hshape Hstrides. unfold numerical_reduce_axes.
  rewrite Hshape, Hstrides.
  replace (ndim nd =? 1) with false by lia. cbn [andb].
  change ULAB_MAX_DIMS with 4. rewrite uint8_t_small by lia.
  remember (4 - ndim nd + ax) as ix eqn:Hix.
  assert (Hcases : ix = 0 \/ ix = 1 \/ ix = 2 \/ ix = 3) by lia.
  destruct Hcases as [-> | [-> | [-> | ->]]]; reflexivity.
Qed.

(** The copies of the one-axis branch are, index tuple by index tuple, the
    copy of the source item found [sh] places back along the axis, modulo
    the extent. *)
Lemma roll_copies_cover (nd results : ndarray_obj_t) (a0 a1 a2 a3 s0 s1 s2 s3 r0 r1 r2 r3 : Z)
    (ix sh : Z) (c : pointer * pointer) :
  shape nd = [a0; a1; a2; a3] -> strides nd = [s0; s1; s2; s3] ->
  strides results = [r0; r1; r2; r3] ->
  1 <= a0 -> 1 <= a1 -> 1 <= a2 -> 1 <= a3 -> 0 <= ix <= 3 ->
  let n := slot (shape nd) ix in
  let cs := 0 :: delete (Z.to_nat ix) [a0; a1; a2; a3] in
  let ts := 0 :: delete (Z.to_nat ix) [s0; s1; s2; s3] in
  let us := 0 :: delete (Z.to_nat ix) [r0; r1; r2; r3] in
  0 <= sh < n ->
  c ∈ repeat_copies (turns (slot cs 1)) (slot ts 1) (slot us 1)
        (repeat_copies (turns (slot cs 2)) (slot ts 2) (slot us 2)
           (repeat_copies (turns (slot cs 3)) (slot ts 3) (slot us 3)
              (lane_copies (slot (strides nd) ix) (slot (strides results) ix) n sh)))
        (array nd) (array results)
  <-> exists idx, idx ∈ index_tuples (shape nd)
        /\ c = (ndarray_index results idx,
                ndarray_index nd (set_slot idx ix ((slot idx ix - sh) mod n))).
Proof.
  intros Hshape Hstrides Hrstrides H0 H1 H2 H3 Hix n cs ts us Hsh.
  rewrite elem_of_roll_copies. unfold ndarray_index. subst n cs ts us.
  rewrite Hshape, Hstrides, Hrstrides in *.
  pose proof (turns_extent a0 H0) as T0. pose proof (turns_extent a1 H1) as T1.
  pose proof (turns_extent a2 H2) as T2. pose proof (turns_extent a3 H3) as T3.
  assert (Hcases : ix = 0 \/ ix = 1 \/ ix = 2 \/ ix = 3) by lia.
  destruct Hcases as [-> | [-> | [-> | ->]]];
    concrete_slots_everywhere.
  - split.
    + intros (x1 & x2 & x3 & t & Hb & ->).
      pose proof (Z.mod_pos_bound (sh + Z.of_nat t) a0 ltac:(lia)) as Hm.
      exists [(sh + Z.of_nat t) mod a0; Z.of_nat x1; Z.of_nat x2; Z.of_nat x3].
      split.
      * apply index_tuples_4. do 4 eexists. split; [reflexivity|]. lia.
      * cbv [slot set_slot default from_option id lookup list_lookup insert list_insert
             Z.to_nat Pos.to_nat Pos.iter_op Nat.add].
        rewrite mod_shift_back by lia. f_equal; f_equal; ring.
    + intros (idx & Hidx & ->).
      apply index_tuples_4 in Hidx as (i0 & i1 & i2 & i3 & -> & Hb0 & Hb1 & Hb2 & Hb3).
      concrete_slots.
      pose proof (Z.mod_pos_bound (i0 - sh) a0 ltac:(lia)) as Hm.
      exists (Z.to_nat i1), (Z.to_nat i2), (Z.to_nat i3), (Z.to_nat ((i0 - sh) mod a0)).
      split; [lia|]. rewrite !Z2Nat.id by lia. rewrite mod_shift_forth by lia.
      f_equal; f_equal; ring.
  - split.
    + intros (x1 & x2 & x3 & t & Hb & ->).
      pose proof (Z.mod_pos_bound (sh + Z.of_nat t) a1 ltac:(lia)) as Hm.
      exists [Z.of_nat x1; (sh + Z.of_nat t) mod a1; Z.of_nat x2; Z.of_nat x3].
      split.
      * apply index_tuples_4. do 4 eexists. split; [reflexivity|]. lia.
      * cbv [slot set_slot default from_option id lookup list_lookup insert list_insert
             Z.to_nat Pos.to_nat Pos.iter_op Nat.add].
        rewrite mod_shift_back by lia. f_equal; f_equal; ring.
    + intros (idx & Hidx & ->).
      apply index_tuples_4 in Hidx as (i0 & i1 & i2 & i3 & -> & Hb0 & Hb1 & Hb2 & Hb3).
      concrete_slots.
      pose proof (Z.mod_pos_bound (i1 - sh) a1 ltac:(lia)) as Hm.
      exists (Z.to_nat i0), (Z.to_nat i2), (Z.to_nat i3), (Z.to_nat ((i1 - sh) mod a1)).
      split; [lia|]. rewrite !Z2Nat.id by lia. rewrite mod_shift_forth by lia.
      f_equal; f_equal; ring.
  - split.
    + intros (x1 & x2 & x3 & t & Hb & ->).
      pose proof (Z.mod_pos_bound (sh + Z.of_nat t) a2 ltac:(lia)) as Hm.
      exists [Z.of_nat x1; Z.of_nat x2; (sh + Z.of_nat t) mod a2; Z.of_nat x3].
      split.
      * apply index_tuples_4. do 4 eexists. split; [reflexivity|]. lia.
      * cbv [slot set_slot default from_option id lookup list_lookup insert list_insert
             Z.to_nat Pos.to_nat Pos.iter_op Nat.add].
        rewrite mod_shift_back by lia. f_equal; f_equal; ring.
    + intros (idx & Hidx & ->).
      apply index_tuples_4 in Hidx as (i0 & i1 & i2 & i3 & -> & Hb0 & Hb1 & Hb2 & Hb3).
      concrete_slots.
      pose proof (Z.mod_pos_bound (i2 - sh) a2 ltac:(lia)) as Hm.
      exists (Z.to_nat i0), (Z.to_nat i1), (Z.to_nat i3), (Z.to_nat ((i2 - sh) mod a2)).
      split; [lia|]. rewrite !Z2Nat.id by lia. rewrite mod_shift_forth by lia.
      f_equal; f_equal; ring.
  - split.
    + intros (x1 & x2 & x3 & t & Hb & ->).
      pose proof (Z.mod_pos_bound (sh + Z.of_nat t) a3 ltac:(lia)) as Hm.
      exists [Z.of_nat x1; Z.of_nat x2; Z.of_nat x3; (sh + Z.of_nat t) mod a3].
      split.
      * apply index_tuples_4. do 4 eexists. split; [reflexivity|]. lia.
      * cbv [slot set_slot default from_option id lookup list_lookup insert list_insert
             Z.to_nat Pos.to_nat Pos.iter_op Nat.add].
        rewrite mod_shift_back by lia. f_equal; f_equal; ring.
    + intros (idx & Hidx & ->).
      apply index_tuples_4 in Hidx as (i0 & i1 & i2 & i3 & -> & Hb0 & Hb1 & Hb2 & Hb3).
      concrete_slots.
      pose proof (Z.mod_pos_bound (i3 - sh) a3 ltac:(lia)) as Hm.
      exists (Z.to_nat i0), (Z.to_nat i1), (Z.to_nat i2), (Z.to_nat ((i3 - sh) mod a3)).
      split; [lia|]. rewrite !Z2Nat.id by lia. rewrite mod_shift_forth by lia.
      f_equal; f_equal; ring.
Qed.

(** The dense allocator keeps the shape of a well-formed array. *)
Lemma pad_shape_well_formed (h : heap) (nd : ndarray_obj_t) :
  well_formed h nd -> pad_shape (ndim nd) (shape nd) = shape nd.
Proof.
  intros (Hnd & Hs & _ & _ & _ & _ & _ & _ & Hlead & _).
  change ULAB_MAX_DIMS with 4 in *.
  destruct (shape nd) as [|a0 [|a1 [|a2 [|a3 [|? ?]]]]]; try discriminate.
  assert (Hcases : ndim nd = 1 \/ ndim nd = 2 \/ ndim nd = 3 \/ ndim nd = 4) by lia.
  destruct Hcases as [Hn | [Hn | [Hn | Hn]]]; rewrite Hn in *;
    vm_compute in Hlead; simplify_eq; reflexivity.
Qed.

Lemma well_formed_shape (h : heap) (nd : ndarray_obj_t) :
  well_formed h nd ->
  exists a0 a1 a2 a3, shape nd = [a0; a1; a2; a3]
    /\ 1 <= a0 /\ 1 <= a1 /\ 1 <= a2 /\ 1 <= a3
    /\ (ndim nd = 1 -> a0 = 1 /\ a1 = 1 /\ a2 = 1).
Proof.
  intros (Hnd & Hs & _ & Hpos & _ & _ & _ & _ & Hlead & _).
  destruct (shape nd) as [|a0 [|a1 [|a2 [|a3 [|? ?]]]]]; try discriminate.
  exists a0, a1, a2, a3. split; [reflexivity|].
  inversion Hpos as [|? ? P0 Hpos1]; subst. inversion Hpos1 as [|? ? P1 Hpos2]; subst.
  inversion Hpos2 as [|? ? P2 Hpos3]; subst. inversion Hpos3 as [|? ? P3 _]; subst.
  repeat (split; [assumption|]).
  intros Hn. rewrite Hn in Hlead. vm_compute in Hlead. simplify_eq. auto.
Qed.

Lemma replay_length (T : list (pointer * pointer)) (h : heap) :
  length (replay T h) = length h.
Proof.
  revert h. induction T as [|c T IH]; intros h; [reflexivity|].
  unfold replay in *. cbn [foldl]. rewrite IH. apply length_memcpy.
Qed.

(** The call of [numerical_roll] on an array with an integer axis in
    range and a distance that is not negative. *)
Lemma numerical_roll_axis_unfold (h : heap) (nd : ndarray_obj_t) (d a : Z) :
  1 <= ndim nd <= 4 -> - ndim nd <= a < ndim nd -> 0 <= d < 2 ^ 31 ->
  let results := fst (ndarray_new_dense_ndarray h (ndim nd) (shape nd) (dtype nd)) in
  numerical_roll h (mp_obj_ndarray nd) (mp_obj_int d) (mp_obj_int a)
  = Ok (mp_obj_ndarray results, roll_axis (h ++ [∅]) nd results d d (a mod ndim nd)).
Proof.
  intros Hnd Ha Hd results. unfold numerical_roll.
  cbn [mp_obj_get_int mbind result_bind is_none MP_OBJ_IS_INT].
  rewrite int32_t_small by lia.
  rewrite (proj2 (Z.ltb_ge d 0)) by lia.
  rewrite check_axis_in_range by lia. reflexivity.
Qed.

(** The one-axis branch of [numerical_roll], for a distance that is not
    negative: every item of the result is the source item [d] places back
    along the axis, modulo the extent, and no other cell is written. *)
Lemma roll_axis_shift (h : heap) (nd : ndarray_obj_t) (d ax : Z) :
  well_formed h nd -> 0 <= ax < ndim nd -> 0 <= d < 2 ^ 31 ->
  let results := fst (ndarray_new_dense_ndarray h (ndim nd) (shape nd) (dtype nd)) in
  let ix := ULAB_MAX_DIMS - ndim nd + ax in
  let n := slot (shape nd) ix in
  let h' := roll_axis (h ++ [∅]) nd results d d ax in
  (forall idx, idx ∈ index_tuples (shape nd) ->
     ndarray_get h' results idx
     = ndarray_get h nd (set_slot idx ix ((slot idx ix - d) mod n)))
  /\ (forall q, (forall idx, idx ∈ index_tuples (shape nd) ->
                   q <> ndarray_index results idx) ->
        load h' q = load (h ++ [∅]) q)
  /\ length h' = S (length h).
Proof.
  intros Hwf Hax Hd results ix n h'.
  pose proof Hwf as (Hnd & Hs & Hst & _ & _ & _ & Hblk & _ & _ & _).
  change ULAB_MAX_DIMS with 4 in *.
  destruct (well_formed_shape h nd Hwf)
    as (a0 & a1 & a2 & a3 & Hshape & H0 & H1 & H2 & H3 & Hrank1).
  destruct (strides nd) as [|s0 [|s1 [|s2 [|s3 [|? ?]]]]] eqn:Hstrides; try discriminate.
  assert (Hix : 0 <= ix <= 3) by (unfold ix; lia).
  assert (Hn : 1 <= n < 2 ^ 32) by (apply (well_formed_extent h nd ix Hwf); lia).
  pose proof (itemsize_of_range (dtype nd)) as Hisz.
  set (isz := itemsize_of (dtype nd)) in *.
  assert (Hrshape : shape results = [a0; a1; a2; a3]).
  { unfold results. cbn [fst ndarray_new_dense_ndarray shape].
    rewrite (pad_shape_well_formed h nd Hwf). exact Hshape. }
  assert (Hrstr : strides results = [isz * a3 * a2 * a1; isz * a3 * a2; isz * a3; isz]).
  { unfold results. cbn [fst ndarray_new_dense_ndarray strides].
    rewrite (pad_shape_well_formed h nd Hwf), Hshape. apply row_major_4. }
  assert (Hrarr : array results = {| p_block := length h; p_off := 0 |}) by reflexivity.
  assert (Hrndim : ndim results = ndim nd) by reflexivity.
  assert (Hrisz : itemsize results = isz) by reflexivity.
  pose proof (Z.mod_pos_bound d n ltac:(lia)) as Hdm.
  pose proof (Z.mod_le d n ltac:(lia) ltac:(lia)) as Hdle.
  assert (Hrn : slot (shape results) ix = n) by (rewrite Hrshape, <- Hshape; reflexivity).
  assert (Hsh : int32_t (size_t d mod n) = d mod n).
  { rewrite size_t_small by lia. apply int32_t_small. lia. }
  assert (Hint8 : int8_t (4 - ndim nd + ax) = ix).
  { apply int8_t_small. lia. }
  set (copies :=
    repeat_copies (turns (slot (0 :: delete (Z.to_nat ix) [a0; a1; a2; a3]) 1))
      (slot (0 :: delete (Z.to_nat ix) [s0; s1; s2; s3]) 1)
      (slot (0 :: delete (Z.to_nat ix)
                    [isz * a3 * a2 * a1; isz * a3 * a2; isz * a3; isz]) 1)
      (repeat_copies (turns (slot (0 :: delete (Z.to_nat ix) [a0; a1; a2; a3]) 2))
         (slot (0 :: delete (Z.to_nat ix) [s0; s1; s2; s3]) 2)
         (slot (0 :: delete (Z.to_nat ix)
                       [isz * a3 * a2 * a1; isz * a3 * a2; isz * a3; isz]) 2)
         (repeat_copies (turns (slot (0 :: delete (Z.to_nat ix) [a0; a1; a2; a3]) 3))
            (slot (0 :: delete (Z.to_nat ix) [s0; s1; s2; s3]) 3)
            (slot (0 :: delete (Z.to_nat ix)
                          [isz * a3 * a2 * a1; isz * a3 * a2; isz * a3; isz]) 3)
            (lane_copies (slot (strides nd) ix) (slot (strides results) ix) n
               (d mod n))))
      (array nd) (array results)).
  assert (Hcopies : h' = replay copies (h ++ [∅])).
  { unfold h', copies.
    rewrite roll_axis_replay; change ULAB_MAX_DIMS with 4; rewrite ?Hint8; fold n;
      rewrite ?Hsh; try lia; try exact Hrn.
    - destruct (Z.eq_dec (ndim nd) 1) as [Hone | Hmore].
      + destruct (Hrank1 Hone) as (-> & -> & ->).
        assert (Hix3 : ix = 3) by (unfold ix; lia).
        assert (Hax0 : ax = 0) by lia.
        rewrite Hax0, !reduce_axes_rank1 by (rewrite ?Hrndim; exact Hone).
        rewrite Hix3. concrete_slots. cbn [fst snd].
        change (turns 0) with 1%nat. change (turns 1) with 1%nat.
        rewrite !repeat_copies_once. reflexivity.
      + rewrite (reduce_axes_delete nd ax a0 a1 a2 a3 s0 s1 s2 s3)
          by (try assumption; lia).
        rewrite (reduce_axes_delete results ax a0 a1 a2 a3
                   (isz * a3 * a2 * a1) (isz * a3 * a2) (isz * a3) isz)
          by (try assumption; rewrite ?Hrndim; lia).
        rewrite Hrndim. change ULAB_MAX_DIMS with 4. fold ix. reflexivity.
    - intros i Hi.
      destruct (Z.eq_dec (ndim nd) 1) as [Hone | Hmore].
      + assert (Hax0 : ax = 0) by lia.
        rewrite Hax0, !reduce_axes_rank1 by (rewrite ?Hrndim; exact Hone).
        destruct Hi as [-> | ->]; split; reflexivity.
      + rewrite (reduce_axes_delete nd ax a0 a1 a2 a3 s0 s1 s2 s3)
          by (try assumption; lia).
        rewrite (reduce_axes_delete results ax a0 a1 a2 a3
                   (isz * a3 * a2 * a1) (isz * a3 * a2) (isz * a3) isz)
          by (try assumption; rewrite ?Hrndim; lia).
        rewrite Hrndim. change ULAB_MAX_DIMS with 4. fold ix. cbn [fst snd].
        pose proof (turns_extent a0 H0) as T0. pose proof (turns_extent a1 H1) as T1.
        pose proof (turns_extent a2 H2) as T2. pose proof (turns_extent a3 H3) as T3.
        assert (Hcases : ix = 0 \/ ix = 1 \/ ix = 2 \/ ix = 3) by lia.
        clearbody ix.
        destruct Hcases as [-> | [-> | [-> | ->]]]; destruct Hi as [-> | ->];
          concrete_slots; split; lia. }
  rewrite Hcopies. clearbody h'.
  destruct (replay_indexed
              (ndarray_index results)
              (fun idx => ndarray_index nd (set_slot idx ix ((slot idx ix - d mod n) mod n)))
              (fun idx => idx ∈ index_tuples (shape nd))
              copies (h ++ [∅]) (length h)) as [Hcells Hframe].
  - intros c. apply (roll_copies_cover nd results a0 a1 a2 a3 s0 s1 s2 s3
                       (isz * a3 * a2 * a1) (isz * a3 * a2) (isz * a3) isz ix (d mod n) c);
      assumption.
  - intros idx idx' Hidx Hidx' Heq. rewrite Hshape in Hidx, Hidx'.
    apply (dense_index_inj results a0 a1 a2 a3 idx idx'); try assumption.
    rewrite Hrisz. lia.
  - intros idx _. unfold ndarray_index. rewrite !ptr_add_block, Hrarr. cbn [p_block].
    split; [reflexivity|lia].
  - rewrite length_app. cbn [length]. lia.
  - split; [|split].
    + intros idx Hidx. unfold ndarray_get. rewrite (Hcells idx Hidx).
      rewrite Zminus_mod_idemp_r.
      apply load_app_l. unfold ndarray_index. rewrite ptr_add_block. exact Hblk.
    + intros q Hq. apply Hframe. exact Hq.
    + rewrite replay_length, length_app. cbn [length]. lia.
Qed.

(** X10.  [roll] along an axis by a distance that is not negative is the
    circular shift along that axis, for arrays of every rank and every valid
    axis: the result is a new array of the same shape whose item at an index
    tuple is the source item found [distance] places back along the axis,
    modulo the extent.  Nothing else is written: a cell that is not an item
    of the result holds what it held before, so the source and every other
    buffer are as they were. *)
Theorem roll_along_axis (h : heap) (nd : ndarray_obj_t) (d a : Z) :
  well_formed h nd -> - ndim nd <= a < ndim nd -> 0 <= d < 2 ^ 31 ->
  let ix := ULAB_MAX_DIMS - ndim nd + a mod ndim nd in
  let n := slot (shape nd) ix in
  exists results h',
    numerical_roll h (mp_obj_ndarray nd) (mp_obj_int d) (mp_obj_int a)
    = Ok (mp_obj_ndarray results, h')
    /\ ndim results = ndim nd /\ shape results = shape nd /\ dtype results = dtype nd
    /\ array results = {| p_block := length h; p_off := 0 |}
    /\ (forall idx, idx ∈ index_tuples (shape nd) ->
          ndarray_get h' results idx
          = ndarray_get h nd (set_slot idx ix ((slot idx ix - d) mod n)))
    /\ (forall q, (forall idx, idx ∈ index_tuples (shape nd) ->
                     q <> ndarray_index results idx) ->
          load h' q = load (h ++ [∅]) q)
    /\ (forall q, (p_block q < length h)%nat -> load h' q = load h q).
Proof.
  intros Hwf Ha Hd ix n.
  pose proof Hwf as (Hnd & _).
  pose proof (Z.mod_pos_bound a (ndim nd) ltac:(lia)) as Hax.
  destruct (roll_axis_shift h nd d (a mod ndim nd) Hwf Hax Hd) as (Hcells & Hframe & _).
  eexists _, _. split; [apply numerical_roll_axis_unfold; assumption|].
  split; [reflexivity|].
  split; [cbn [fst ndarray_new_dense_ndarray shape]; apply (pad_shape_well_formed h nd Hwf)|].
  split; [reflexivity|]. split; [reflexivity|].
  split; [exact Hcells|]. split; [exact Hframe|].
  intros q Hq. rewrite Hframe; [apply load_app_l; exact Hq|].
  intros idx _ ->. unfold ndarray_index in Hq. rewrite ptr_add_block in Hq.
  cbn [fst ndarray_new_dense_ndarray array p_block] in Hq. lia.
Qed.

Lemma roll_along_axis_witness :
  let ix := ULAB_MAX_DIMS - ndim mat23 + (-1) mod ndim mat23 in
  let n := slot (shape mat23) ix in
  exists results h',
    numerical_roll mat23_heap (mp_obj_ndarray mat23) (mp_obj_int 4) (mp_obj_int (-1))
    = Ok (mp_obj_ndarray results, h')
    /\ ndim results = ndim mat23 /\ shape results = shape mat23
    /\ dtype results = dtype mat23
    /\ array results = {| p_block := length mat23_heap; p_off := 0 |}
    /\ (forall idx, idx ∈ index_tuples (shape mat23) ->
          ndarray_get h' results idx
          = ndarray_get mat23_heap mat23 (set_slot idx ix ((slot idx ix - 4) mod n)))
    /\ (forall q, (forall idx, idx ∈ index_tuples (shape mat23) ->
                     q <> ndarray_index results idx) ->
          load h' q = load (mat23_heap ++ [∅]) q)
    /\ (forall q, (p_block q < length mat23_heap)%nat -> load h' q = load mat23_heap q).
Proof.
  apply (roll_along_axis mat23_heap mat23 4 (-1)).
  - exact mat23_well_formed.
  - compute_done.
  - lia.
Defined.

(** The array the dense allocator returns for the shape of a well-formed
    array is well formed, provided its byte size fits the [int32_t] of a
    stride. *)
Lemma dense_copy_well_formed (h h' : heap) (nd : ndarray_obj_t) :
  well_formed h nd -> len nd * itemsize_of (dtype nd) < 2 ^ 31 ->
  length h' = S (length h) ->
  well_formed h' (fst (ndarray_new_dense_ndarray h (ndim nd) (shape nd) (dtype nd))).
Proof.
  intros Hwf Hbytes Hlen.
  pose proof (pad_shape_well_formed h nd Hwf) as Hpad.
  destruct (well_formed_shape h nd Hwf)
    as (a0 & a1 & a2 & a3 & Hshape & H0 & H1 & H2 & H3 & _).
  pose proof Hwf as (Hnd & Hs & Hst & Hpos & Hprod & Hl32 & Hblk & _ & Hlead & Hb32).
  pose proof (itemsize_of_range (dtype nd)) as Hisz.
  unfold well_formed.
  cbn [fst ndarray_new_dense_ndarray ndim shape strides len array dtype p_block].
  rewrite Hpad.
  split; [exact Hnd|]. split; [exact Hs|].
  split; [rewrite Hshape; reflexivity|].
  split; [exact Hpos|]. split; [reflexivity|].
  split; [rewrite <- Hprod; exact Hl32|].
  split; [lia|].
  split; [|split; [exact Hlead|rewrite <- Hprod; exact Hb32]].
  rewrite Hshape, row_major_4.
  rewrite Hprod, Hshape in Hbytes. unfold product in Hbytes. cbn [foldr] in Hbytes.
  set (isz := itemsize_of (dtype nd)) in *.
  assert (P3 : 1 <= isz * a3) by nia.
  assert (P2 : isz * a3 <= isz * a3 * a2) by nia.
  assert (P1 : isz * a3 * a2 <= isz * a3 * a2 * a1) by nia.
  assert (P0 : isz * a3 * a2 * a1 <= isz * a3 * a2 * a1 * a0) by nia.
  assert (PB : isz * a3 * a2 * a1 * a0 < 2 ^ 31).
  { replace (isz * a3 * a2 * a1 * a0) with (a0 * (a1 * (a2 * (a3 * 1))) * isz) by ring.
    exact Hbytes. }
  repeat constructor; nia.
Qed.

Lemma set_slot_in_range (a0 a1 a2 a3 ix v : Z) (idx : list Z) :
  idx ∈ index_tuples [a0; a1; a2; a3] -> 0 <= ix <= 3 ->
  0 <= v < slot [a0; a1; a2; a3] ix ->
  set_slot idx ix v ∈ index_tuples [a0; a1; a2; a3]
  /\ slot (set_slot idx ix v) ix = v
  /\ forall w, set_slot (set_slot idx ix v) ix w = set_slot idx ix w.
Proof.
  intros Hidx Hix Hv.
  apply index_tuples_4 in Hidx as (i0 & i1 & i2 & i3 & -> & Hb0 & Hb1 & Hb2 & Hb3).
  assert (Hcases : ix = 0 \/ ix = 1 \/ ix = 2 \/ ix = 3) by lia.
  destruct Hcases as [-> | [-> | [-> | ->]]]; concrete_slots_everywhere;
    (split; [apply index_tuples_4; do 4 eexists; split; [reflexivity|lia]|]);
    split; reflexivity.
Qed.

(** X11.  Rolls along an axis compose: rolling by [d] and then by [e],
    neither negative, gives at every index tuple the item that one roll by
    [d + e] gives, the source item [d + e] places back along the axis.  When
    [d + e] is a multiple of the extent the second roll brings every item
    back to its place: a roll by [d] is undone by a roll by
    [n - d mod n], not by a roll by [-d]. *)
Theorem roll_twice (h : heap) (nd : ndarray_obj_t) (d e a : Z) :
  well_formed h nd -> len nd * itemsize_of (dtype nd) < 2 ^ 31 ->
  - ndim nd <= a < ndim nd -> 0 <= d < 2 ^ 31 -> 0 <= e < 2 ^ 31 ->
  let ix := ULAB_MAX_DIMS - ndim nd + a mod ndim nd in
  let n := slot (shape nd) ix in
  exists R1 h1 R2 h2,
    numerical_roll h (mp_obj_ndarray nd) (mp_obj_int d) (mp_obj_int a)
    = Ok (mp_obj_ndarray R1, h1)
    /\ numerical_roll h1 (mp_obj_ndarray R1) (mp_obj_int e) (mp_obj_int a)
       = Ok (mp_obj_ndarray R2, h2)
    /\ (forall idx, idx ∈ index_tuples (shape nd) ->
          ndarray_get h2 R2 idx
          = ndarray_get h nd (set_slot idx ix ((slot idx ix - (d + e)) mod n)))
    /\ ((d + e) mod n = 0 ->
        forall idx, idx ∈ index_tuples (shape nd) ->
          ndarray_get h2 R2 idx = ndarray_get h nd idx).
Proof.
  intros Hwf Hbytes Ha Hd He ix n.
  pose proof Hwf as (Hnd & _). change ULAB_MAX_DIMS with 4 in Hnd.
  pose proof (Z.mod_pos_bound a (ndim nd) ltac:(lia)) as Hax.
  assert (Hix : 0 <= ix <= 3) by (unfold ix; change ULAB_MAX_DIMS with 4; lia).
  assert (Hn : 1 <= n < 2 ^ 32)
    by (apply (well_formed_extent h nd ix Hwf); unfold ix; change ULAB_MAX_DIMS with 4; lia).
  destruct (roll_axis_shift h nd d (a mod ndim nd) Hwf Hax Hd) as (Hcells1 & _ & Hlen1).
  set (R1 := fst (ndarray_new_dense_ndarray h (ndim nd) (shape nd) (dtype nd))) in *.
  set (h1 := roll_axis (h ++ [∅]) nd R1 d d (a mod ndim nd)) in *.
  assert (Hwf1 : well_formed h1 R1) by (apply dense_copy_well_formed; assumption).
  assert (Hshape1 : shape R1 = shape nd).
  { unfold R1. cbn [fst ndarray_new_dense_ndarray shape]. apply (pad_shape_well_formed h nd Hwf). }
  assert (Hndim1 : ndim R1 = ndim nd) by reflexivity.
  assert (Hax1 : 0 <= a mod ndim nd < ndim R1) by (rewrite Hndim1; exact Hax).
  destruct (roll_axis_shift h1 R1 e (a mod ndim nd) Hwf1 Hax1 He) as (Hcells2 & _ & _).
  set (R2 := fst (ndarray_new_dense_ndarray h1 (ndim R1) (shape R1) (dtype R1))) in *.
  set (h2 := roll_axis (h1 ++ [∅]) R1 R2 e e (a mod ndim nd)) in *.
  rewrite Hshape1, Hndim1 in Hcells2. fold ix n in Hcells1, Hcells2.
  assert (Hboth : forall idx, idx ∈ index_tuples (shape nd) ->
            ndarray_get h2 R2 idx
            = ndarray_get h nd (set_slot idx ix ((slot idx ix - (d + e)) mod n))).
  { intros idx Hidx. rewrite (Hcells2 idx Hidx).
    destruct (well_formed_shape h nd Hwf)
      as (a0 & a1 & a2 & a3 & Hshape & H0 & H1 & H2 & H3 & _).
    pose proof (Z.mod_pos_bound (slot idx ix - e) n ltac:(lia)) as Hm.
    rewrite Hshape in Hidx.
    destruct (set_slot_in_range a0 a1 a2 a3 ix ((slot idx ix - e) mod n) idx Hidx)
      as (Hin & Hslot & Hset).
    { exact Hix. }
    { rewrite <- Hshape. exact Hm. }
    rewrite <- Hshape in Hin. rewrite (Hcells1 _ Hin), Hslot, Hset.
    rewrite Zminus_mod_idemp_l. do 3 f_equal. lia. }
  exists R1, h1, R2, h2.
  split; [apply numerical_roll_axis_unfold; assumption|].
  split.
  { pose proof (numerical_roll_axis_unfold h1 R1 e a) as Hcall.
    rewrite Hndim1 in Hcall. apply Hcall; assumption. }
  split; [exact Hboth|].
  intros Hfull idx Hidx. rewrite (Hboth idx Hidx).
  destruct (well_formed_shape h nd Hwf)
    as (a0 & a1 & a2 & a3 & Hshape & H0 & H1 & H2 & H3 & _).
  rewrite Hshape in Hidx.
  apply index_tuples_4 in Hidx as (i0 & i1 & i2 & i3 & -> & Hb0 & Hb1 & Hb2 & Hb3).
  assert (Hback : forall i, 0 <= i < n -> (i - (d + e)) mod n = i).
  { intros i Hi. rewrite Zminus_mod, Hfull, Z.sub_0_r, Z.mod_mod by lia.
    apply Z.mod_small. exact Hi. }
  f_equal. unfold n in Hback. rewrite Hshape in Hback. clearbody ix.
  assert (Hcases : ix = 0 \/ ix = 1 \/ ix = 2 \/ ix = 3) by lia.
  destruct Hcases as [-> | [-> | [-> | ->]]]; unfold n; rewrite Hshape;
    concrete_slots_everywhere; rewrite Hback by lia; reflexivity.
Qed.

Lemma roll_twice_witness :
  let ix := ULAB_MAX_DIMS - ndim mat23 + 1 mod ndim mat23 in
  let n := slot (shape mat23) ix in
  exists R1 h1 R2 h2,
    numerical_roll mat23_heap (mp_obj_ndarray mat23) (mp_obj_int 1) (mp_obj_int 1)
    = Ok (mp_obj_ndarray R1, h1)
    /\ numerical_roll h1 (mp_obj_ndarray R1) (mp_obj_int 2) (mp_obj_int 1)
       = Ok (mp_obj_ndarray R2, h2)
    /\ (forall idx, idx ∈ index_tuples (shape mat23) ->
          ndarray_get h2 R2 idx
          = ndarray_get mat23_heap mat23
              (set_slot idx ix ((slot idx ix - (1 + 2)) mod n)))
    /\ ((1 + 2) mod n = 0 ->
        forall idx, idx ∈ index_tuples (shape mat23) ->
          ndarray_get h2 R2 idx = ndarray_get mat23_heap mat23 idx).
Proof.
  apply (roll_twice mat23_heap mat23 1 2 1).
  - exact mat23_well_formed.
  - reflexivity.
  - compute_done.
  - lia.
  - lia.
Defined.

(** ** Reductions of an array along an axis: the header of the result *)

Lemma well_formed_leading (h : heap) (nd : ndarray_obj_t) (a0 a1 a2 a3 : Z) :
  well_formed h nd -> shape nd = [a0; a1; a2; a3] ->
  (ndim nd <= 3 -> a0 = 1) /\ (ndim nd <= 2 -> a1 = 1) /\ (ndim nd <= 1 -> a2 = 1).
Proof.
  intros (Hnd & _ & _ & _ & _ & _ & _ & _ & Hlead & _) Hshape.
  change ULAB_MAX_DIMS with 4 in *. rewrite Hshape in Hlead.
  assert (Hcases : ndim nd = 1 \/ ndim nd = 2 \/ ndim nd = 3 \/ ndim nd = 4) by lia.
  destruct Hcases as [Hn | [Hn | [Hn | Hn]]]; rewrite Hn in *;
    vm_compute in Hlead; simplify_eq; repeat split; intros; try reflexivity; lia.
Qed.

(** The array the reductions allocate for their result: the shape of the
    source with the slot of the axis deleted, behind a leading 1. *)
Lemma reduced_result_header (h : heap) (nd : ndarray_obj_t) (ax : Z) (dt : NDARRAY_TYPE) :
  well_formed h nd -> 0 <= ax < ndim nd ->
  let ix := ULAB_MAX_DIMS - ndim nd + ax in
  let shape_ := fst (numerical_reduce_axes nd ax (replicate 4 0) (replicate 4 0)) in
  let results := fst (ndarray_new_dense_ndarray h (Z.max 1 (ndim nd - 1)) shape_ dt) in
  shape results = 1 :: delete (Z.to_nat ix) (shape nd)
  /\ len results * slot (shape nd) ix = len nd
  /\ 1 <= len results.
Proof.
  intros Hwf Hax ix shape_ results.
  destruct (well_formed_shape h nd Hwf)
    as (a0 & a1 & a2 & a3 & Hshape & H0 & H1 & H2 & H3 & _).
  destruct (well_formed_leading h nd a0 a1 a2 a3 Hwf Hshape) as (L0 & L1 & L2).
  pose proof Hwf as (Hnd & _ & Hst & _ & Hprod & _).
  change ULAB_MAX_DIMS with 4 in *.
  destruct (strides nd) as [|s0 [|s1 [|s2 [|s3 [|? ?]]]]] eqn:Hstrides; try discriminate.
  assert (Hshape' : shape results = 1 :: delete (Z.to_nat ix) (shape nd)).
  { unfold results, shape_. cbn [fst ndarray_new_dense_ndarray shape].
    destruct (Z.eq_dec (ndim nd) 1) as [Hone | Hmore].
    - assert (Hax0 : ax = 0) by lia. subst ax.
      rewrite reduce_axes_rank1 by exact Hone.
      unfold ix. rewrite Hone, Hshape, L0, L1, L2 by lia. reflexivity.
    - rewrite (reduce_axes_delete nd ax a0 a1 a2 a3 s0 s1 s2 s3) by (try assumption; lia).
      cbn [fst]. change ULAB_MAX_DIMS with 4. fold ix. rewrite Hshape.
      assert (Hcases : ndim nd = 2 \/ ndim nd = 3 \/ ndim nd = 4) by lia.
      unfold ix.
      destruct Hcases as [Hn | [Hn | Hn]]; rewrite Hn in *.
      + rewrite L0, L1 by lia.
        assert (Hc : ax = 0 \/ ax = 1) by lia. destruct Hc as [-> | ->]; reflexivity.
      + rewrite L0 by lia.
        assert (Hc : ax = 0 \/ ax = 1 \/ ax = 2) by lia.
        destruct Hc as [-> | [-> | ->]]; reflexivity.
      + assert (Hc : ax = 0 \/ ax = 1 \/ ax = 2 \/ ax = 3) by lia.
        destruct Hc as [-> | [-> | [-> | ->]]]; reflexivity. }
  split; [exact Hshape'|].
  assert (Hlen : len results = product (1 :: delete (Z.to_nat ix) (shape nd))).
  { rewrite <- Hshape'. reflexivity. }
  rewrite Hlen, Hprod, Hshape.
  assert (Hcases : ix = 0 \/ ix = 1 \/ ix = 2 \/ ix = 3) by (unfold ix; lia).
  clearbody ix.
  destruct Hcases as [-> | [-> | [-> | ->]]]; concrete_slots; unfold product; cbn [foldr];
    split; nia.
Qed.



(** X13.  [min], [max], [argmin] and [argmax] of a well-formed array along
    a valid axis allocate a new dense array whose shape is the shape of the
    source with the axis removed, of the element type of the source for
    [min] and [max] and of [int16] for [argmin] and [argmax].  It is
    returned as an array unless it has a single item, that is unless every
    other extent of the source is 1, when that item is returned as a
    number, whatever the rank. *)
Theorem axis_extremum_result (K : reduction_kernels) (h : heap) (nd : ndarray_obj_t)
    (a : Z) (optype : NUMERICAL_FUNCTION_TYPE) :
  well_formed h nd -> - ndim nd <= a < ndim nd ->
  let ix := ULAB_MAX_DIMS - ndim nd + a mod ndim nd in
  exists results h',
    numerical_argmin_argmax_ndarray K h nd (mp_obj_int a) optype
    = Ok (if len nd =? slot (shape nd) ix
          then mp_binary_get_val_array (dtype results) h' (array results) 0
          else mp_obj_ndarray results, h')
    /\ ndim results = Z.max 1 (ndim nd - 1)
    /\ shape results = 1 :: delete (Z.to_nat ix) (shape nd)
    /\ len results * slot (shape nd) ix = len nd
    /\ dtype results = match optype with
                       | NUMERICAL_ARGMIN | NUMERICAL_ARGMAX => NDARRAY_INT16
                       | _ => dtype nd
                       end
    /\ array results = {| p_block := length h; p_off := 0 |}.
Proof.
  intros Hwf Ha ix.
  pose proof Hwf as (Hnd & _ & _ & _ & Hprod & _). change ULAB_MAX_DIMS with 4 in Hnd.
  pose proof (Z.mod_pos_bound a (ndim nd) ltac:(lia)) as Hax.
  assert (Hext : 1 <= slot (shape nd) ix < 2 ^ 32).
  { apply (well_formed_extent h nd ix Hwf). unfold ix. change ULAB_MAX_DIMS with 4. lia. }
  unfold numerical_argmin_argmax_ndarray.
  assert (Hlen : (len nd =? 0) = false).
  { destruct (reduced_result_header h nd (a mod ndim nd) NDARRAY_INT16 Hwf Hax)
      as (_ & Hl & Hpos). fold ix in Hl. apply Z.eqb_neq. nia. }
  rewrite Hlen. cbn [mp_obj_get_int mbind result_bind].
  rewrite check_axis_in_range by lia. cbn [mbind result_bind].
  unfold argmin_argmax_axis.
  rewrite (surjective_pairing (numerical_reduce_axes nd _ _ _)).
  destruct optype;
    match goal with
    | |- context [ndarray_new_dense_ndarray ?h0 ?r ?s ?dt] =>
        destruct (reduced_result_header h nd (a mod ndim nd) dt Hwf Hax) as (Hs & Hl & Hpos);
        rewrite (surjective_pairing (ndarray_new_dense_ndarray h0 r s dt));
        fold ix in Hl;
        assert (Hone : (len (fst (ndarray_new_dense_ndarray h0 r s dt)) =? 1)
                       = (len nd =? slot (shape nd) ix))
          by (destruct (Z.eqb_spec (len (fst (ndarray_new_dense_ndarray h0 r s dt))) 1);
              destruct (Z.eqb_spec (len nd) (slot (shape nd) ix)); try reflexivity; nia);
        rewrite Hone
    end;
    destruct (len nd =? slot (shape nd) ix); eexists _, _; (split; [reflexivity|]);
    (split; [reflexivity|]); (split; [exact Hs|]); (split; [exact Hl|]);
    split; reflexivity.
Qed.

Lemma axis_extremum_result_witness :
  let ix := ULAB_MAX_DIMS - ndim col21 + 0 mod ndim col21 in
  exists results h',
    numerical_argmin_argmax_ndarray idle_kernels col21_heap col21 (mp_obj_int 0)
      NUMERICAL_ARGMAX
    = Ok (if len col21 =? slot (shape col21) ix
          then mp_binary_get_val_array (dtype results) h' (array results) 0
          else mp_obj_ndarray results, h')
    /\ ndim results = Z.max 1 (ndim col21 - 1)
    /\ shape results = 1 :: delete (Z.to_nat ix) (shape col21)
    /\ len results * slot (shape col21) ix = len col21
    /\ dtype results = NDARRAY_INT16
    /\ array results = {| p_block := length col21_heap; p_off := 0 |}.
Proof.
  apply (axis_extremum_result idle_kernels col21_heap col21 0 NUMERICAL_ARGMAX).
  - compute_done.
  - compute_done.
Defined.

(** ** numerical_roll on the flattened array, for a positive distance *)

Lemma ptr_add_inj (p : pointer) (x y : Z) : ptr_add p x = ptr_add p y -> x = y.
Proof. unfold ptr_add. intros Heq. injection Heq as Heq. lia. Qed.

(** The loop of the flattened branch, folded over the source pointers it
    visits, started with the cursor [a] cells into the buffer and the
    counter at [n0]: the first [max 1 n0] items land one after the other
    from cell [a] on; from then on the counter stays 0 and the cursor is set
    back to the start at every turn, so every later item is written over the
    first cell. *)
Lemma roll_flat_fold (results : ndarray_obj_t) (h0 : heap) (a n0 : Z) (tr : list pointer) :
  let base := array results in
  let isz := itemsize results in
  let m := Z.max 1 n0 in
  0 <= a -> 0 <= n0 < 2 ^ 32 -> 0 < isz ->
  0 < a \/ Z.of_nat (length tr) <= m ->
  (p_block base < length h0)%nat ->
  Forall (fun q => p_block q <> p_block base) tr ->
  let st := foldr (roll_flat_visit results) (h0, ptr_add base (a * isz), n0) tr in
  let k := Z.of_nat (length tr) in
  snd st = (if k <? m then n0 - k else 0)
  /\ snd (fst st) = (if k <? m then ptr_add base ((a + k) * isz) else base)
  /\ length (fst (fst st)) = length h0
  /\ (forall q, p_block q <> p_block base -> load (fst (fst st)) q = load h0 q)
  /\ (forall (i : nat) q, reverse tr !! i = Some q -> Z.of_nat i < m ->
        load (fst (fst st)) (ptr_add base ((a + Z.of_nat i) * isz)) = load h0 q)
  /\ (m < k -> forall q, head tr = Some q -> load (fst (fst st)) base = load h0 q)
  /\ (forall j, 0 < j < a \/ a + m <= j ->
        load (fst (fst st)) (ptr_add base (j * isz)) = load h0 (ptr_add base (j * isz)))
  /\ (k <= m -> 0 < a -> load (fst (fst st)) base = load h0 base).
Proof.
  intros base isz m Ha Hn0 Hisz. induction tr as [|q0 tr IH]; intros Hside Hblk Hall.
  - cbn [foldr length fst snd]. change (Z.of_nat 0) with 0.
    rewrite (proj2 (Z.ltb_lt 0 m)) by lia. rewrite Z.add_0_r, Z.sub_0_r.
    repeat split; try reflexivity; try lia.
    intros i q Hi. destruct i; discriminate Hi.
  - inversion Hall as [|? ? Hq0 Hall']; subst.
    cbn [length] in Hside.
    destruct (IH ltac:(lia) Hblk Hall')
      as (Hcnt & Hcur & Hhl & Hother & Hcells & Hlast & Hgap & Hfirst).
    clear IH. cbn [foldr].
    set (st' := foldr (roll_flat_visit results) (h0, ptr_add base (a * isz), n0) tr) in *.
    destruct st' as [[hh cur] cnt]. cbn [fst snd] in *.
    set (k' := Z.of_nat (length tr)) in *.
    assert (Hk : Z.of_nat (length (q0 :: tr)) = k' + 1) by (cbn [length]; lia).
    rewrite Hk. unfold roll_flat_visit. fold base isz.
    assert (Hsrc : load hh q0 = load h0 q0) by (apply Hother; exact Hq0).
    assert (Hrl : length (reverse tr) = length tr) by apply length_reverse.
    destruct (Z.ltb_spec k' m) as [Hin | Hout].
    + (* the cursor has not been set back yet *)
      subst cnt cur.
      assert (Hdst : (p_block (ptr_add base ((a + k') * isz)) < length hh)%nat)
        by (rewrite ptr_add_block, Hhl; exact Hblk).
      assert (Hframe : forall p, p <> ptr_add base ((a + k') * isz) ->
                load (memcpy hh (ptr_add base ((a + k') * isz)) q0) p = load hh p)
        by (intros p Hp; apply load_memcpy_other; exact Hp).
      assert (Hafter :
        (let counter := if n0 - k' >? 0 then size_t (n0 - k' - 1) else n0 - k' in
         (counter = if k' + 1 <? m then n0 - (k' + 1) else 0)
         /\ (if counter =? 0 then base
             else ptr_add (ptr_add base ((a + k') * isz)) isz)
            = (if k' + 1 <? m then ptr_add base ((a + (k' + 1)) * isz) else base))).
      { cbv zeta. destruct (Z.gtb_spec (n0 - k') 0) as [Hpos | Hzero].
        - rewrite size_t_small by lia.
          destruct (Z.ltb_spec (k' + 1) m) as [Hmore | Hdone].
          + split; [lia|]. rewrite (proj2 (Z.eqb_neq _ _)) by lia.
            rewrite ptr_add_add. f_equal. lia.
          + split; [lia|]. rewrite (proj2 (Z.eqb_eq _ _)) by lia. reflexivity.
        - assert (n0 = 0 /\ k' = 0) as [Hn Hk0] by (unfold k' in *; lia).
          rewrite Hn, Hk0. rewrite (proj2 (Z.ltb_ge (0 + 1) m)) by lia.
          split; reflexivity. }
      cbv zeta in Hafter. destruct Hafter as [Hc1 Hc2].
      cbn [fst snd].
      split; [exact Hc1|]. split; [exact Hc2|].
      split; [rewrite length_memcpy; exact Hhl|].
      split.
      { intros q Hq. rewrite Hframe; [apply Hother; exact Hq|].
        intros ->. apply Hq. apply ptr_add_block. }
      split.
      { intros i q Hi Hib. rewrite reverse_cons in Hi.
        destruct (Nat.lt_trichotomy i (length tr)) as [Hlt | [Heq | Hgt]].
        - rewrite lookup_app_l in Hi by lia.
          rewrite Hframe; [apply Hcells; [exact Hi|lia]|].
          intros Heq. apply ptr_add_inj in Heq. unfold k' in Heq. nia.
        - subst i. rewrite lookup_app_r in Hi by lia.
          rewrite Hrl, Nat.sub_diag in Hi. injection Hi as <-.
          fold k'. rewrite load_memcpy_same by exact Hdst. exact Hsrc.
        - apply lookup_lt_Some in Hi. rewrite length_app in Hi. cbn in Hi. lia. }
      split; [intros Hbeyond; lia|].
      split.
      { intros j Hj. rewrite Hframe; [apply Hgap; exact Hj|].
        intros Heq. apply ptr_add_inj in Heq. nia. }
      intros _ Hapos. rewrite Hframe; [apply Hfirst; lia|].
      rewrite <- (ptr_add_0 base) at 1. intros Heq. apply ptr_add_inj in Heq. nia.
    + (* the counter is 0: every item goes to the first cell *)
      subst cnt cur.
      assert (Hapos : 0 < a) by lia.
      change (0 >? 0) with false. cbn [Z.eqb fst snd].
      assert (Hdst : (p_block base < length hh)%nat) by (rewrite Hhl; exact Hblk).
      assert (Hframe : forall p, p <> base -> load (memcpy hh base q0) p = load hh p)
        by (intros p Hp; apply load_memcpy_other; exact Hp).
      split.
      { destruct (Z.ltb_spec (k' + 1) m); lia. }
      split.
      { destruct (Z.ltb_spec (k' + 1) m); [lia|reflexivity]. }
      split; [rewrite length_memcpy; exact Hhl|].
      split.
      { intros q Hq. rewrite Hframe; [apply Hother; exact Hq|].
        intros ->. apply Hq. reflexivity. }
      split.
      { intros i q Hi Hib. rewrite reverse_cons in Hi.
        assert (Hlt : (i < length tr)%nat) by (unfold k' in Hout; lia).
        rewrite lookup_app_l in Hi by lia.
        rewrite Hframe; [apply Hcells; [exact Hi|lia]|].
        rewrite <- (ptr_add_0 base) at 2. intros Heq. apply ptr_add_inj in Heq. nia. }
      split.
      { intros _ q Hq. cbn [head] in Hq. injection Hq as <-.
        rewrite load_memcpy_same by exact Hdst. exact Hsrc. }
      split.
      { intros j Hj. rewrite Hframe; [apply Hgap; exact Hj|].
        rewrite <- (ptr_add_0 base) at 2. intros Heq. apply ptr_add_inj in Heq. nia. }
      intros Hle. lia.
Qed.

(** X14.  What [roll] does on the flattened array (axis None) for a positive
    distance [d], with [s = d mod len]: the result is a new array of the
    same shape; the first [len - s] items of the source, in traversal order,
    land [s] cells on in the buffer of the result.  The cursor is then set
    back to the first cell at every turn, so the last [s] items are written
    one over the other into the first cell, which ends up with the last item
    of the source, and the cells 1 to [s - 1] are never written.  When [d] is
    a multiple of [len] the result is a complete copy.  No existing buffer is
    written. *)
Theorem roll_flattened_positive (h : heap) (nd : ndarray_obj_t) (d : Z) :
  well_formed h nd -> 0 < d < 2 ^ 31 ->
  let L := len nd in
  let s := d mod L in
  let isz := itemsize_of (dtype nd) in
  let items := ndarray_items h nd in
  exists results h',
    numerical_roll h (mp_obj_ndarray nd) (mp_obj_int d) mp_const_none
    = Ok (mp_obj_ndarray results, h')
    /\ shape results = shape nd
    /\ array results = {| p_block := length h; p_off := 0 |}
    /\ (forall j, s <= j < L ->
          items !! Z.to_nat (j - s) = Some (load h' (ptr_add (array results) (j * isz))))
    /\ (0 < s ->
        items !! Z.to_nat (L - 1) = Some (load h' (array results))
        /\ forall j, 0 < j < s -> load h' (ptr_add (array results) (j * isz)) = None)
    /\ (forall q, (p_block q < length h)%nat -> load h' q = load h q).
Proof.
  intros Hwf Hd L s isz items.
  pose proof Hwf as (Hnd & _ & _ & _ & Hprod & HL32 & Hblk & _ & _ & _).
  pose proof (well_formed_len h nd Hwf) as Hlen.
  pose proof (pad_shape_well_formed h nd Hwf) as Hpad.
  pose proof (itemsize_of_range (dtype nd)) as Hisz. fold isz in Hisz.
  pose proof (trail_nonempty (shape nd) (strides nd) (array nd)) as Hne.
  assert (HL : 1 <= L) by (unfold L; lia).
  pose proof (Z.mod_pos_bound d L ltac:(lia)) as Hs. fold s in Hs.
  pose proof (Z.mod_le d L ltac:(lia) ltac:(lia)) as Hsle. fold s in Hsle.
  set (results := fst (ndarray_new_dense_ndarray h (ndim nd) (shape nd) (dtype nd))).
  set (tr := trail (shape nd) (strides nd) (array nd)) in *.
  assert (Hrlen : len results = L).
  { unfold results. cbn [fst ndarray_new_dense_ndarray len]. rewrite Hpad. symmetry. exact Hprod. }
  assert (Hsrcblk : Forall (fun q => p_block q <> p_block (array results)) tr).
  { eapply Forall_impl; [apply trail_block|]. intros q Hq. rewrite Hq.
    cbn [results fst ndarray_new_dense_ndarray array p_block]. lia. }
  destruct (roll_flat_fold results (h ++ [∅]) s (L - s) tr)
    as (_ & _ & Hhl & Hother & Hcells & Hlast & Hgap & _); try lia.
  { change (itemsize results) with isz. lia. }
  { cbn [results fst ndarray_new_dense_ndarray array p_block].
    rewrite length_app. cbn [length]. lia. }
  { exact Hsrcblk. }
  rewrite Z.max_r in Hcells, Hlast, Hgap by lia.
  set (st := foldr (roll_flat_visit results)
               (h ++ [∅], ptr_add (array results) (s * itemsize results), L - s) tr)
    in *.
  assert (Hitems : forall (i : nat) q, reverse tr !! i = Some q ->
            items !! i = Some (load (h ++ [∅]) q)).
  { intros i q Hi. unfold items. rewrite ndarray_items_trail. fold tr.
    rewrite list_lookup_fmap, Hi. cbn [fmap option_fmap option_map]. f_equal.
    symmetry. apply load_app_l.
    pose proof (trail_block (shape nd) (strides nd) (array nd)) as Hb. fold tr in Hb.
    rewrite Forall_forall in Hb.
    assert (Hin : q ∈ tr).
    { apply elem_of_reverse. eapply list_elem_of_lookup_2. exact Hi. }
    rewrite (Hb q Hin). exact Hblk. }
  exists results, (fst (fst st)).
  split.
  { unfold numerical_roll.
    cbn [mp_obj_get_int mbind result_bind is_none].
    rewrite int32_t_small by lia.
    rewrite (proj2 (Z.ltb_ge d 0)) by lia.
    change (ndarray_new_dense_ndarray h (ndim nd) (shape nd) (dtype nd))
      with (results, h ++ [∅]).
    cbv beta iota. unfold roll_flat. rewrite Hrlen.
    rewrite size_t_small by lia. fold s. rewrite int32_t_small by lia.
    rewrite (proj2 (Z.gtb_lt d 0)) by lia. rewrite (size_t_small (L - s)) by lia.
    rewrite traverse_foldr. fold tr. reflexivity. }
  split; [exact Hpad|]. split; [reflexivity|].
  split.
  { intros j Hj.
    assert (Hlk : exists q, reverse tr !! Z.to_nat (j - s) = Some q).
    { apply lookup_lt_is_Some. rewrite length_reverse. unfold L in *. lia. }
    destruct Hlk as [q Hq]. rewrite (Hitems _ q Hq). f_equal.
    rewrite <- (Hcells _ q Hq) by lia.
    do 2 f_equal. change (itemsize results) with isz. rewrite Z2Nat.id by lia. f_equal. lia. }
  split.
  { intros Hspos. split.
    - assert (Hlk : exists q, head tr = Some q).
      { destruct tr as [|q tr']; [cbn [length] in Hlen; unfold L in *; lia|eauto]. }
      destruct Hlk as [q Hq].
      assert (Hrev : reverse tr !! Z.to_nat (L - 1) = Some q).
      { destruct tr as [|q' tr']; [discriminate|]. cbn [head] in Hq. injection Hq as ->.
        rewrite reverse_cons. cbn [length] in Hlen.
        rewrite lookup_app_r by (rewrite length_reverse; unfold L in *; lia).
        rewrite length_reverse.
        replace (Z.to_nat (L - 1) - length tr')%nat with 0%nat by (unfold L in *; lia).
        reflexivity. }
      rewrite (Hitems _ q Hrev). f_equal. symmetry. apply Hlast; [unfold L in *; lia|exact Hq].
    - intros j Hj. rewrite Hgap by (left; exact Hj).
      unfold load. cbn [results fst ndarray_new_dense_ndarray array ptr_add p_block].
      rewrite lookup_app_r by lia. rewrite Nat.sub_diag. reflexivity. }
  intros q Hq. rewrite Hother; [apply load_app_l; exact Hq|].
  cbn [results fst ndarray_new_dense_ndarray array p_block]. lia.
Qed.

Lemma roll_flattened_positive_witness :
  let L := len vec5 in
  let s := 2 mod L in
  let isz := itemsize_of (dtype vec5) in
  let items := ndarray_items vec5_heap vec5 in
  exists results h',
    numerical_roll vec5_heap (mp_obj_ndarray vec5) (mp_obj_int 2) mp_const_none
    = Ok (mp_obj_ndarray results, h')
    /\ shape results = shape vec5
    /\ array results = {| p_block := length vec5_heap; p_off := 0 |}
    /\ (forall j, s <= j < L ->
          items !! Z.to_nat (j - s) = Some (load h' (ptr_add (array results) (j * isz))))
    /\ (0 < s ->
        items !! Z.to_nat (L - 1) = Some (load h' (array results))
        /\ forall j, 0 < j < s -> load h' (ptr_add (array results) (j * isz)) = None)
    /\ (forall q, (p_block q < length vec5_heap)%nat -> load h' q = load vec5_heap q).
Proof.
  apply (roll_flattened_positive vec5_heap vec5 2).
  - compute_done.
  - lia.
Defined.



(** ** numerical_roll along the axis of a rank-1 array, for a negative
    distance *)





(** ** Axis validation *)

(** Once the axis has passed the check, every operation works on the slot
    [ULAB_MAX_DIMS - ndim + ax]. *)
Lemma proceed_acts_on_slot (K : reduction_kernels) (h : heap) (op : operation)
    (nd : ndarray_obj_t) (ax : Z) :
  well_formed h nd -> 0 <= ax < ndim nd ->
  acts_on_slot K h op nd (ULAB_MAX_DIMS - ndim nd + ax) (proceed K h op nd ax).
Proof.
  intros Hwf Hax.
  pose proof Hwf as (Hnd & _). change ULAB_MAX_DIMS with 4 in Hnd.
  set (i := ULAB_MAX_DIMS - ndim nd + ax).
  assert (Hi : 0 <= i < 4) by (unfold i; change ULAB_MAX_DIMS with 4; lia).
  pose proof (well_formed_extent h nd i Hwf Hi) as Hext.
  assert (Hu : uint8_t (ULAB_MAX_DIMS - ndim nd + ax) = i) by (apply uint8_t_small; lia).
  assert (Hreduction :
    forall dt, let red := numerical_reduce_axes nd ax (replicate 4 0) (replicate 4 0) in
               let R := fst (ndarray_new_dense_ndarray h (Z.max 1 (ndim nd - 1)) (fst red) dt) in
               shape R = 1 :: delete (Z.to_nat i) (shape nd)
               /\ len R * slot (shape nd) i = len nd).
  { intros dt. destruct (reduced_result_header h nd ax dt Hwf Hax) as (Hs & Hl & _).
    split; assumption. }
  destruct op; unfold acts_on_slot, proceed, runs_kernel;
    try (unfold sum_mean_std_axis || unfold argmin_argmax_axis;
         rewrite (surjective_pairing (numerical_reduce_axes nd ax _ _)), Hu;
         match goal with
         | |- context [ndarray_new_dense_ndarray ?h0 ?r ?s ?dt] =>
             destruct (Hreduction dt) as (Hs & Hl);
             exists (fst (ndarray_new_dense_ndarray h0 r s dt)),
                    (fst (numerical_reduce_axes nd ax (replicate 4 0) (replicate 4 0))),
                    (snd (numerical_reduce_axes nd ax (replicate 4 0) (replicate 4 0)));
             split; [exact Hs|]; split; [exact Hl|];
             cbv zeta; unfold ndarray_new_dense_ndarray; cbn [fst snd];
             match goal with
             | |- context [if ?c then _ else _] => destruct c
             end; reflexivity
         end).
  - (* diff *)
    intros Hn. destruct (Z.leb_spec n (slot (shape nd) i)) as [Hle | Hgt].
    + pose proof (diff_axis_run h nd n ax Hwf Hax Hn Hle) as Hrun. cbv zeta in Hrun.
      eexists _, _. split; [exact Hrun|]. reflexivity.
    + apply diff_axis_order. right. rewrite Hu, uint8_t_small by lia. exact Hgt.
  - (* flip *)
    destruct (flip_axis_view h nd ax Hwf Hax) as (_ & Hshape & Hstr & Harr & _).
    exists (flip_axis nd ax). split; [reflexivity|]. split; [exact Hshape|].
    split; [exact Hstr|exact Harr].
  - (* roll *)
    intros Hd.
    destruct (roll_axis_shift h nd distance ax Hwf Hax Hd) as (Hcells & _).
    cbv zeta in Hcells.
    rewrite int32_t_small by lia. rewrite (proj2 (Z.ltb_ge distance 0)) by lia.
    eexists _, _. split; [reflexivity|]. split; [|exact Hcells].
    apply (pad_shape_well_formed h nd Hwf).
Qed.

(** C5.  On a non-empty array of rank [ndim], for each operation: an axis
    that is not None and that the operation does not read as an integer
    raises a TypeError; an integer axis that fits the [int8_t] it is read
    into and is outside [[-ndim, ndim)] raises a ValueError; an integer axis
    inside [[-ndim, ndim)] that passes the guard of the operation is
    accepted, the operation goes on with the axis reduced modulo [ndim], and
    what it returns is its work on the physical slot
    [ULAB_MAX_DIMS - ndim + (axis mod ndim)].  [std] alone has a guard in
    front of the check, and there the claim fails: it refuses every integer
    axis but 0 and 1 with a ValueError.  On the 2x3 array, [std] with
    [axis = -1] raises the ValueError "axis must be None, or an integer",
    where [sum] and [mean] accept the same axis.  An axis beyond [int8_t]
    is not refused either, it wraps: on the same array [sum] takes
    [axis = 256] for [axis = 0]. *)
Theorem axis_validation (K : reduction_kernels) (h : heap) (op : operation)
    (nd : ndarray_obj_t) :
  1 <= ndim nd <= 4 -> len nd <> 0 ->
  (forall axis, is_none axis = false -> reads_as_int op axis = false ->
     raises (call K h op (mp_obj_ndarray nd) axis) TypeError_kind)
  /\ (forall a, -128 <= a < 128 -> ~ (- ndim nd <= a < ndim nd) ->
        raises (call K h op (mp_obj_ndarray nd) (mp_obj_int a)) ValueError_kind)
  /\ (forall a, - ndim nd <= a < ndim nd -> passes_guard op a = true ->
        call K h op (mp_obj_ndarray nd) (mp_obj_int a) = proceed K h op nd (a mod ndim nd)
        /\ (well_formed h nd ->
            acts_on_slot K h op nd (ULAB_MAX_DIMS - ndim nd + a mod ndim nd)
              (call K h op (mp_obj_ndarray nd) (mp_obj_int a))))
  /\ (forall a, passes_guard op a = false ->
        raises (call K h op (mp_obj_ndarray nd) (mp_obj_int a)) ValueError_kind)
  /\ call K mat23_heap (Op_std 0) (mp_obj_ndarray mat23) (mp_obj_int (-1))
     = Raise (ValueError "axis must be None, or an integer")
  /\ (exists r, call K mat23_heap Op_sum (mp_obj_ndarray mat23) (mp_obj_int (-1)) = Ok r)
  /\ (exists r, call K mat23_heap Op_mean (mp_obj_ndarray mat23) (mp_obj_int (-1)) = Ok r)
  /\ (exists r, call K mat23_heap Op_sum (mp_obj_ndarray mat23) (mp_obj_int 256) = Ok r
                /\ call K mat23_heap Op_sum (mp_obj_ndarray mat23) (mp_obj_int 0) = Ok r).
Proof.
  intros Hnd Hlen. split; [|split; [|split; [|split; [|split; [|split; [|split]]]]]].
  - intros axis Hnone Hint. apply call_axis_not_integer; assumption.
  - intros a Hfit Ha. apply call_axis_out_of_range; [assumption|].
    rewrite int8_t_small by exact Hfit. exact Ha.
  - intros a Ha Hg.
    pose proof (call_axis_in_range K h op nd a Hnd Hlen Ha Hg) as Hcall.
    split; [exact Hcall|].
    intros Hwf. rewrite Hcall. apply proceed_acts_on_slot; [exact Hwf|].
    apply Z.mod_pos_bound. lia.
  - intros a Hg. destruct op; try discriminate Hg.
    apply std_guard_refuses. exact Hg.
  - reflexivity.
  - eexists. reflexivity.
  - eexists. reflexivity.
  - eexists. split; reflexivity.
Qed.

Lemma axis_validation_witness :
  1 <= ndim mat23 <= 4 /\ len mat23 <> 0
  /\ acts_on_slot idle_kernels mat23_heap Op_flip mat23 3
       (call idle_kernels mat23_heap Op_flip (mp_obj_ndarray mat23) (mp_obj_int (-1)))
  /\ acts_on_slot idle_kernels mat23_heap Op_sum mat23 2
       (call idle_kernels mat23_heap Op_sum (mp_obj_ndarray mat23) (mp_obj_int (-2)))
  /\ raises (call idle_kernels mat23_heap Op_flip (mp_obj_ndarray mat23) (mp_obj_int 5))
            ValueError_kind
  /\ raises (call idle_kernels mat23_heap Op_flip (mp_obj_ndarray mat23) (mp_obj_str "x"))
            TypeError_kind.
Proof.
  assert (Hnd : 1 <= ndim mat23 <= 4) by compute_done.
  assert (Hlen : len mat23 <> 0) by compute_done.
  destruct (axis_validation idle_kernels mat23_heap Op_flip mat23 Hnd Hlen)
    as (Htype & Hrange & Hok & _).
  destruct (axis_validation idle_kernels mat23_heap Op_sum mat23 Hnd Hlen)
    as (_ & _ & Hsum & _).
  split; [exact Hnd|]. split; [exact Hlen|]. split; [|split; [|split]].
  - apply (Hok (-1)); [compute_done | reflexivity | exact mat23_well_formed].
  - apply (Hsum (-2)); [compute_done | reflexivity | exact mat23_well_formed].
  - apply (Hrange 5); compute_done.
  - apply (Htype (mp_obj_str "x")); reflexivity.
Defined.
